(** * discoblocks: volume monitor, claim reconciler, pod mutator, job renderer

    A shallow embedding of

    - [controllers/pvc_controller.go]: [PVCReconciler.Reconcile],
      [PVCReconciler.MonitorVolumes], [pvcEventFilter], and the pod
      admission handler [PodMutator.Handle] that is stored in the same file;
    - [pkg/utils/kube.go]: the job templates and [RenderAttachJob],
      [RenderMountJob], [RenderResizeJob], [NewPVC], [IsOwnedByDaemonSet],
      [GetTargetNodeByAffinity];
    - [drivers/ebs.csi.aws.com/main.go]: the exported driver entry points.

    Conventions.
    - A [resource.Quantity] is an integral number of bytes ([Z]); [Cmp] is
      [Z.compare] and [Add] is [Z.add].
    - A [float64] is a binary64 number of IEEE 754, with the arithmetic of
      the kernel's primitive floats: every operation rounds to the nearest,
      ties to even, and there are infinities and NaN.
    - Go's [error] is its message; a returned [(value, error)] pair is a
      [result].
    - The Kubernetes API server is reached through the [Client] interface;
      the helpers of [pkg/utils] whose bodies are in other files of the
      package are the fields of [Utils]. *)

From Stdlib Require Import ZArith Floats String Ascii List Bool Lia DecimalString.
From stdpp Require Import base option gmap strings list.

Open Scope string_scope.
Open Scope Z_scope.

(** ** Errors *)

Definition error := string.

Inductive result (A : Type) : Type :=
| Ok (a : A)
| Err (e : error).
Arguments Ok {A} a.
Arguments Err {A} e.

(** ** Kubernetes objects, as far as the controllers read them *)

Definition Quantity := Z.
Definition float64 := PrimFloat.float.

(** The conversion [float64(n)] of an integer: the binary64 nearest to
    [n], ties to even; exact when [n] has at most 53 significant bits. *)
Definition float64_of_Z (n : Z) : float64 :=
  SF2Prim (binary_normalize prec emax n 0 false).

(** [Quantity.AsApproximateFloat64] for a quantity of whole bytes: the
    binary64 nearest to it, exact up to [2 ^ 53] bytes. *)
Definition AsApproximateFloat64 (q : Quantity) : float64 := float64_of_Z q.

(** [Quantity.Cmp]: -1, 0 or 1. *)
Definition Cmp (q y : Quantity) : Z :=
  match Z.compare q y with
  | Lt => -1
  | Eq => 0
  | Gt => 1
  end.

Definition ResourceStorage : string := "storage".

Abbreviation ResourceList := (gmap string Quantity).

(** [ResourceList.Storage()]: the zero quantity when the key is absent. *)
Definition Storage (rl : ResourceList) : Quantity :=
  default 0 (rl !! ResourceStorage).

Record NamespacedName := {
  nnNamespace : string;
  nnName : string
}.

Global Instance NamespacedName_eq_dec : EqDecision NamespacedName.
Proof. solve_decision. Defined.

Global Instance NamespacedName_countable : Countable NamespacedName.
Proof.
  refine (inj_countable'
            (fun n => (nnNamespace n, nnName n))
            (fun p => {| nnNamespace := fst p; nnName := snd p |}) _).
  intros []; reflexivity.
Defined.

Record OwnerReference := {
  orAPIVersion : string;
  orKind : string;
  orName : string;
  orUID : string
}.

Record ObjectMeta := {
  Name : string;
  Namespace : string;
  Labels : gmap string string;
  Finalizers : list string;
  DeletionTimestamp : option Z;
  OwnerReferences : list OwnerReference
}.

(** Indexing a Go [map[string]string]: the empty string for a missing key. *)
Definition label (m : ObjectMeta) (key : string) : string :=
  default "" (Labels m !! key).

Record PersistentVolumeClaim := {
  pvcMeta : ObjectMeta;
  pvcStorageClassName : string;
  pvcAccessModes : list string;
  pvcRequests : ResourceList;          (* Spec.Resources.Requests *)
  pvcPhase : string;                   (* Status.Phase *)
  pvcCapacity : ResourceList           (* Status.Capacity *)
}.

Record VolumeMount := {
  vmName : string;
  vmMountPath : string;
  vmReadOnly : bool
}.

Record Container := {
  cName : string;
  cVolumeMounts : list VolumeMount;
  cPrivileged : bool                   (* SecurityContext.Privileged *)
}.

Record Volume := {
  vName : string;
  vClaimName : string                  (* VolumeSource.PersistentVolumeClaim.ClaimName *)
}.

Record Pod := {
  podMeta : ObjectMeta;
  podVolumes : list Volume;
  podContainers : list Container;
  podSchedulerName : string
}.

Record Policy := {
  Pause : bool;
  MaximumCapacityOfDisk : string;
  UpscaleTriggerPercentage : Z
}.

Record DiskConfig := {
  dcMeta : ObjectMeta;
  dcStorageClassName : string;
  dcCapacity : Quantity;
  dcMountPointPattern : string;
  dcPodSelector : gmap string string;
  dcAccessModes : list string;
  dcPolicy : Policy;
  dcPersistentVolumeClaims : gmap string string   (* Status.PersistentVolumeClaims *)
}.

Record StorageClass := {
  scName : string;
  scProvisioner : string
}.

(** [controllerutil.ContainsFinalizer] *)
Definition ContainsFinalizer (m : ObjectMeta) (finalizer : string) : bool :=
  existsb (String.eqb finalizer) (Finalizers m).

(** ** Helpers of [pkg/utils] defined outside [kube.go]

    Their bodies are not among the source files; the controllers are
    parametric in them. *)

Record LabelPair := { lpName : string; lpValue : string }.
Definition Metric := list LabelPair.                 (* Metric.Label *)
Definition MetricFamily := list Metric.              (* MetricFamily.Metric *)

Class Utils := {
  RenderFinalizer : string -> string;
  RenderMountPoint : string -> string -> Z -> string;
  RenderResourceName : bool -> string -> string -> string -> result string;
  IsContainsAll : gmap string string -> gmap string string -> bool;
  ParsePrometheusMetric : string -> result (gmap string MetricFamily);
  ParsePrometheusMetricValue : string -> result float64
}.

(** ** The claim event filter ([pvcEventFilter]) *)

Inductive Object :=
| ObjPersistentVolumeClaim (pvc : PersistentVolumeClaim)
| ObjOther (kind : string).

Record CreateEvent := { ceObject : Object }.
Record DeleteEvent := { deObject : Object }.
Record UpdateEvent := { ObjectOld : Object; ObjectNew : Object }.
Record GenericEvent := { geObject : Object }.

(** The type assertion of an event object to a claim. *)
Definition asPersistentVolumeClaim (o : Object) : option PersistentVolumeClaim :=
  match o with
  | ObjPersistentVolumeClaim pvc => Some pvc
  | ObjOther _ => None
  end.

(** The claim carries the finalizer of the configuration its label names. *)
Definition managed `{Utils} (pvc : PersistentVolumeClaim) : Prop :=
  ContainsFinalizer (pvcMeta pvc)
    (RenderFinalizer (label (pvcMeta pvc) "discoblocks")) = true.

Module pvcEventFilter.

Definition Create `{Utils} (e : CreateEvent) : bool :=
  match asPersistentVolumeClaim (ceObject e) with
  | None => false
  | Some newObj =>
      ContainsFinalizer (pvcMeta newObj)
        (RenderFinalizer (label (pvcMeta newObj) "discoblocks"))
  end.

Definition Delete (_ : DeleteEvent) : bool := false.

Definition Update `{Utils} (e : UpdateEvent) : bool :=
  match asPersistentVolumeClaim (ObjectNew e) with
  | None => false
  | Some newObj =>
      if negb (ContainsFinalizer (pvcMeta newObj)
                 (RenderFinalizer (label (pvcMeta newObj) "discoblocks")))
      then false
      else
        match asPersistentVolumeClaim (ObjectOld e) with
        | None => false
        | Some oldObj =>
            bool_decide (DeletionTimestamp (pvcMeta oldObj) <> None)
            || bool_decide (DeletionTimestamp (pvcMeta newObj) <> None)
            || negb (String.eqb (pvcPhase oldObj) (pvcPhase newObj))
        end
  end.

Definition Generic (_ : GenericEvent) : bool := false.

End pvcEventFilter.

(** ** The API server, as the controllers use it ([client.Client]) *)

Inductive GetResult (A : Type) : Type :=
| Found (a : A)
| NotFound (e : error)               (* apierrors.IsNotFound(err) *)
| GetFailed (e : error).
Arguments Found {A} a.
Arguments NotFound {A} e.
Arguments GetFailed {A} e.

Inductive CreateResult : Type :=
| Created
| AlreadyExists (e : error)          (* apierrors.IsAlreadyExists(err) *)
| CreateFailed (e : error).

Class Client := {
  Cluster : Type;
  GetPersistentVolumeClaim : Cluster -> NamespacedName -> GetResult PersistentVolumeClaim;
  GetDiskConfig : Cluster -> NamespacedName -> GetResult DiskConfig;
  GetPod : Cluster -> NamespacedName -> GetResult Pod;
  GetStorageClass : Cluster -> string -> GetResult StorageClass;
  ListDiskConfigs : Cluster -> string -> result (list DiskConfig);
  CreatePersistentVolumeClaim : Cluster -> PersistentVolumeClaim -> Cluster * CreateResult;
  UpdatePersistentVolumeClaim : Cluster -> PersistentVolumeClaim -> Cluster * option error;
  UpdateDiskConfigStatus : Cluster -> DiskConfig -> Cluster * option error
}.

(** [resource.ParseQuantity], with the one value the monitor relies on. *)
Class Resource := {
  ParseQuantity : string -> result Quantity;
  ParseQuantity_1Gi : ParseQuantity "1Gi" = Ok (2 ^ 30)
}.

(** ** The concurrency gate *)

(** The process-wide gate: [true] while it is held. *)
Definition Gate := bool.

(** Modelled from the spec: [controllerSemaphore] is called by [Reconcile]
    but its body is not among the source files. The spec describes a
    single process-wide non-blocking mutual-exclusion gate: a caller either
    acquires it at once or is told that it is taken, and never waits. *)
Definition controllerSemaphore (g : Gate) : bool * Gate :=
  if g then (false, g) else (true, true).

(** Modelled from the spec: the release function that [controllerSemaphore]
    returns next to its answer. *)
Definition unlock (_ : Gate) : Gate := false.

(** ** [PVCReconciler.Reconcile] *)

Record Request := { reqNamespacedName : NamespacedName }.

Record ctrlResult := { Requeue : bool }.

Record World `{Client} := {
  gate : Gate;
  cluster : Cluster
}.

(** The body of [Reconcile] after the gate has been taken (lines 71-128). *)
Definition reconcileLocked `{Client} (cl : Cluster) (req : Request)
  : ctrlResult * option error * Cluster :=
  match GetPersistentVolumeClaim cl (reqNamespacedName req) with
  | NotFound _ => ({| Requeue := false |}, None, cl)
  | GetFailed e => ({| Requeue := false |}, Some ("unable to fetch PVC: " ++ e), cl)
  | Found pvc =>
      match GetDiskConfig cl {| nnNamespace := Namespace (pvcMeta pvc);
                                nnName := label (pvcMeta pvc) "discoblocks" |} with
      | NotFound _ => ({| Requeue := false |}, None, cl)
      | GetFailed _ => ({| Requeue := false |}, Some "unable to fetch PVC", cl)
      | Found config =>
          let claims :=
            match DeletionTimestamp (pvcMeta pvc) with
            | Some _ => delete (Name (pvcMeta pvc)) (dcPersistentVolumeClaims config)
            | None => <[Name (pvcMeta pvc) := pvcPhase pvc]> (dcPersistentVolumeClaims config)
            end in
          let config' :=
            {| dcMeta := dcMeta config;
               dcStorageClassName := dcStorageClassName config;
               dcCapacity := dcCapacity config;
               dcMountPointPattern := dcMountPointPattern config;
               dcPodSelector := dcPodSelector config;
               dcAccessModes := dcAccessModes config;
               dcPolicy := dcPolicy config;
               dcPersistentVolumeClaims := claims |} in
          match UpdateDiskConfigStatus cl config' with
          | (cl', Some _) => ({| Requeue := false |}, Some "unable to update PVC status", cl')
          | (cl', None) => ({| Requeue := false |}, None, cl')
          end
      end
  end.

Definition Reconcile `{Client} (w : World) (req : Request)
  : ctrlResult * option error * World :=
  let '(lock, g) := controllerSemaphore (gate w) in
  if negb lock then ({| Requeue := true |}, None, w)
  else
    let '(res, err, cl) := reconcileLocked (cluster w) req in
    (res, err, {| gate := unlock g; cluster := cl |}).

(** ** [PVCReconciler.MonitorVolumes] *)

(** What one iteration of the innermost loop (one scraped line) ends with:
    the [continue] it takes, named after its log line, or the update. *)
Inductive SampleOutcome : Type :=
| FailedToParseMetrics (e : error)
| FailedToFindMetric
| FailedToFindMountpoint
| OtherMountpoint                      (* the silent [continue] of line 275 *)
| VolumeNotFound
| FailedToFetchPVC (e : error)
| PVCNotManagedBy (config : string)
| MetricIsInvalid (e : error)
| MaxCapacityIsInvalid (e : error)
| DiskSizeOk
| NewDiskNeeded
| ExtendCapacityIsInvalid (e : error)
| UpdatingPVC (pvcName : NamespacedName) (pvc : PersistentVolumeClaim)
              (failed : option error)
| IndexOutOfRange.                     (* [pod.Spec.Containers[0]] on a pod without containers *)

(** Go's [a > b] at [float64]: false when either side is NaN. *)
Definition float64_gt (a b : float64) : bool := PrimFloat.ltb b a.

(** Lines 261-268: the last label named [mountpoint] wins. *)
Definition mountpointOf (family : MetricFamily) : string :=
  fold_left
    (fun mountpoint (m : Metric) =>
       fold_left
         (fun mountpoint l =>
            if String.eqb (lpName l) "mountpoint" then lpValue l else mountpoint)
         m mountpoint)
    family "".

(** Lines 278-286: the name of the first volume mount at [mountpoint]. *)
Definition volumeMountedAt (mountpoint : string) (vms : list VolumeMount) : string :=
  match List.find (fun vm => String.eqb (vmMountPath vm) mountpoint) vms with
  | Some vm => vmName vm
  | None => ""
  end.

(** Lines 250-317: from a scraped line to the claim it measures (the name
    it is fetched under and the object), the available bytes and the
    configured ceiling, or the [continue] taken. *)
Definition resolveSample `{Utils} `{Resource} `{Client}
    (cl : Cluster) (config : DiskConfig) (pod : Pod) (metric : string)
  : SampleOutcome + (NamespacedName * PersistentVolumeClaim * float64 * Quantity) :=
  match ParsePrometheusMetric metric with
  | Err e => inl (FailedToParseMetrics e)
  | Ok mf =>
  match mf !! "node_filesystem_avail_bytes" with
  | None => inl FailedToFindMetric
  | Some family =>
  let mountpoint := mountpointOf family in
  if String.eqb mountpoint "" then inl FailedToFindMountpoint else
  if negb (String.eqb mountpoint
             (RenderMountPoint (dcMountPointPattern config) (Name (dcMeta config)) 0))
  then inl OtherMountpoint else
  match podContainers pod with
  | [] => inl IndexOutOfRange
  | container0 :: _ =>
  let pvcName := {| nnNamespace := Namespace (podMeta pod);
                    nnName := volumeMountedAt mountpoint (cVolumeMounts container0) |} in
  if String.eqb (nnName pvcName) "" then inl VolumeNotFound else
  match GetPersistentVolumeClaim cl pvcName with
  | NotFound e | GetFailed e => inl (FailedToFetchPVC e)
  | Found pvc =>
  if negb (ContainsFinalizer (pvcMeta pvc) (RenderFinalizer (Name (dcMeta config))))
  then inl (PVCNotManagedBy (label (pvcMeta pvc) "discoblocks")) else
  match ParsePrometheusMetricValue metric with
  | Err e => inl (MetricIsInvalid e)
  | Ok available =>
  match ParseQuantity (MaximumCapacityOfDisk (dcPolicy config)) with
  | Err e => inl (MaxCapacityIsInvalid e)
  | Ok maxCapacity => inr (pvcName, pvc, available, maxCapacity)
  end end end end end end.

Definition hundred : float64 := 100%float.

(** Line 322: the product is rounded, then the quotient. *)
Definition treshold (config : DiskConfig) (actualCapacity : Quantity) : float64 :=
  (AsApproximateFloat64 actualCapacity
   * float64_of_Z (UpscaleTriggerPercentage (dcPolicy config)) / hundred)%float.

(** [pvc.Spec.Resources.Requests[corev1.ResourceStorage] = newCapacity]; a
    claim served by the API always has a request map. *)
Definition setStorageRequest (pvc : PersistentVolumeClaim) (newCapacity : Quantity)
  : PersistentVolumeClaim :=
  {| pvcMeta := pvcMeta pvc;
     pvcStorageClassName := pvcStorageClassName pvc;
     pvcAccessModes := pvcAccessModes pvc;
     pvcRequests := <[ResourceStorage := newCapacity]> (pvcRequests pvc);
     pvcPhase := pvcPhase pvc;
     pvcCapacity := pvcCapacity pvc |}.

(** Lines 319-357: the growth policy. *)
Definition resizeSample `{Resource} `{Client}
    (cl : Cluster) (config : DiskConfig) (pvcName : NamespacedName)
    (pvc : PersistentVolumeClaim) (available : float64) (maxCapacity : Quantity)
  : Cluster * SampleOutcome :=
  let actualCapacity := Storage (pvcCapacity pvc) in
  if float64_gt (treshold config actualCapacity)
       (AsApproximateFloat64 actualCapacity - available)%float
  then (cl, DiskSizeOk) else
  if Cmp actualCapacity maxCapacity =? 0 then (cl, NewDiskNeeded) else
  match ParseQuantity "1Gi" with
  | Err e => (cl, ExtendCapacityIsInvalid e)
  | Ok oneGi =>
      let newCapacity := oneGi + actualCapacity in
      let newCapacity :=
        if Cmp maxCapacity newCapacity =? -1 then maxCapacity else newCapacity in
      let pvc' := setStorageRequest pvc newCapacity in
      let '(cl', failed) := UpdatePersistentVolumeClaim cl pvc' in
      (cl', UpdatingPVC pvcName pvc' failed)
  end.

(** One iteration of the loop over [metrics[podName]] (lines 249-358). *)
Definition monitorSample `{Utils} `{Resource} `{Client}
    (cl : Cluster) (config : DiskConfig) (pod : Pod) (metric : string)
  : Cluster * SampleOutcome :=
  match resolveSample cl config pod metric with
  | inl o => (cl, o)
  | inr (pvcName, pvc, available, maxCapacity) =>
      resizeSample cl config pvcName pvc available maxCapacity
  end.

Inductive MonitorEvent : Type :=
| MetricsDataNotFound
| FailedToFetchPod (podName : NamespacedName) (e : error)
| FailedToFetchDiskConfig (diskConfigName : NamespacedName) (e : error)
| AutoscalingPaused (diskConfigName : NamespacedName)
| Sample (podName : NamespacedName) (config : DiskConfig) (metric : string)
         (o : SampleOutcome).

Record MonitorState `{Client} := {
  msCluster : Cluster;
  diskConfigCache : gmap NamespacedName DiskConfig;
  msTrace : list MonitorEvent;         (* in the order of occurrence *)
  msPanicked : bool                    (* the cycle died on an index out of range *)
}.

Definition logEvent `{Client} (st : MonitorState) (ev : MonitorEvent) : MonitorState :=
  {| msCluster := msCluster st;
     diskConfigCache := diskConfigCache st;
     msTrace := msTrace st ++ [ev];
     msPanicked := msPanicked st |}.

(** A [for ... range] loop whose body may panic. *)
Definition forEach `{Client} {A : Type}
    (body : MonitorState -> A -> MonitorState) (xs : list A) (st : MonitorState)
  : MonitorState :=
  fold_left (fun st x => if msPanicked st then st else body st x) xs st.

Definition monitorMetric `{Utils} `{Resource} `{Client}
    (podName : NamespacedName) (pod : Pod) (config : DiskConfig)
    (st : MonitorState) (metric : string) : MonitorState :=
  let '(cl, o) := monitorSample (msCluster st) config pod metric in
  {| msCluster := cl;
     diskConfigCache := diskConfigCache st;
     msTrace := msTrace st ++ [Sample podName config metric o];
     msPanicked := match o with IndexOutOfRange => true | _ => false end |}.

(** One iteration of the loop over [diskConfigNames] (lines 228-359). *)
Definition monitorDiskConfig `{Utils} `{Resource} `{Client}
    (podName : NamespacedName) (pod : Pod) (metricsOfPod : list string)
    (st : MonitorState) (diskConfigName : string) : MonitorState :=
  let diskConfigName :=
    {| nnNamespace := Namespace (podMeta pod); nnName := diskConfigName |} in
  let fetched :=
    match diskConfigCache st !! diskConfigName with
    | Some config => inr (config, st)
    | None =>
        match GetDiskConfig (msCluster st) diskConfigName with
        | NotFound e | GetFailed e => inl e
        | Found config =>
            inr (config,
                 {| msCluster := msCluster st;
                    diskConfigCache := <[diskConfigName := config]> (diskConfigCache st);
                    msTrace := msTrace st;
                    msPanicked := msPanicked st |})
        end
    end in
  match fetched with
  | inl e => logEvent st (FailedToFetchDiskConfig diskConfigName e)
  | inr (config, st) =>
      if Pause (dcPolicy config) then logEvent st (AutoscalingPaused diskConfigName)
      else forEach (monitorMetric podName pod config) metricsOfPod st
  end.

(** One iteration of the loop over [discoblocks] (lines 218-360). *)
Definition monitorPod `{Utils} `{Resource} `{Client}
    (metrics : gmap NamespacedName (list string))
    (st : MonitorState) (entry : NamespacedName * list string) : MonitorState :=
  let '(podName, diskConfigNames) := entry in
  match GetPod (msCluster st) podName with
  | NotFound e | GetFailed e => logEvent st (FailedToFetchPod podName e)
  | Found pod =>
      forEach (monitorDiskConfig podName pod (default [] (metrics !! podName)))
        diskConfigNames st
  end.

(** Lines 211-360. The scrape that precedes them (lines 141-209) fills the
    two maps: [discoblocks], from a pod to the configuration names its
    endpoints advertise, given here in the order the runtime iterates it,
    and [metrics], from a pod to its [node_filesystem_avail_bytes] lines. *)
Definition MonitorVolumes `{Utils} `{Resource} `{Client}
    (cl : Cluster)
    (discoblocks : list (NamespacedName * list string))
    (metrics : gmap NamespacedName (list string)) : MonitorState :=
  let st := {| msCluster := cl; diskConfigCache := ∅; msTrace := []; msPanicked := false |} in
  if bool_decide (size metrics = 0%nat) then logEvent st MetricsDataNotFound
  else forEach (monitorPod metrics) discoblocks st.

(** ** Text: [fmt.Sprintf], [strings.Join], [regexp.ReplaceAll] *)

Definition dq : string := String (ascii_of_nat 34) "".     (* a double quote *)
Definition tab : string := String (ascii_of_nat 9) "".
Definition nl : string := String (ascii_of_nat 10) "".

(** A Go raw string literal, written line by line. *)
Definition unlines (ls : list string) : string := String.concat nl ls.

(** [fmt.Sprintf] for formats whose only verbs are [%s] and [%%]. Every
    call in [kube.go] passes as many operands as its format has verbs. *)
Fixpoint Sprintf (format : string) (args : list string) : string :=
  match format with
  | EmptyString => EmptyString
  | String c rest =>
      if Ascii.eqb c "%" then
        match rest with
        | String verb rest' =>
            if Ascii.eqb verb "s" then
              match args with
              | a :: args' => a ++ Sprintf rest' args'
              | [] => "%!s(MISSING)" ++ Sprintf rest' []
              end
            else if Ascii.eqb verb "%" then String "%" (Sprintf rest' args)
            else String c (Sprintf rest args)
        | EmptyString => String c (Sprintf rest args)
        end
      else String c (Sprintf rest args)
  end.

(** The operands [Sprintf format args] leaves unused. *)
Fixpoint remaining (format : string) (args : list string) : list string :=
  match format with
  | EmptyString => args
  | String c rest =>
      if Ascii.eqb c "%" then
        match rest with
        | String verb rest' =>
            if Ascii.eqb verb "s" then remaining rest' (tail args)
            else if Ascii.eqb verb "%" then remaining rest' args
            else remaining rest args
        | EmptyString => args
        end
      else remaining rest args
  end.

(** The format ends in a [%] that a longer format could complete. *)
Fixpoint dangling (format : string) : bool :=
  match format with
  | EmptyString => false
  | String c rest =>
      if Ascii.eqb c "%" then
        match rest with
        | String verb rest' =>
            if Ascii.eqb verb "s" then dangling rest'
            else if Ascii.eqb verb "%" then dangling rest'
            else dangling rest
        | EmptyString => true
        end
      else dangling rest
  end.

(** How [Sprintf] reads the head of a format. *)
Inductive Head : string -> Type :=
| HeadEmpty : Head ""
| HeadPlain c rest : Ascii.eqb c "%" = false -> Head (String c rest)
| HeadString rest : Head (String "%" (String "s" rest))
| HeadPercent rest : Head (String "%" (String "%" rest))
| HeadOther verb rest :
    Ascii.eqb verb "s" = false -> Ascii.eqb verb "%" = false ->
    Head (String "%" (String verb rest))
| HeadDangling : Head (String "%" "").

(** [fmt.Sprintf("%d", n)] *)
Definition SprintfInt (n : Z) : string := NilZero.string_of_int (Z.to_int n).

(** [strings.Join] *)
Definition Join (elems : list string) (sep : string) : string := String.concat sep elems.

(** Used for Yaml indentation *)
Definition hostCommandPrefix : string := nl ++ "          ".

(** [hostCommandReplacePattern.ReplaceAll(s, repl)]: the pattern is a
    single line feed. *)
Fixpoint hostCommandReplaceAll (s repl : string) : string :=
  match s with
  | EmptyString => EmptyString
  | String c rest =>
      if Ascii.eqb c (ascii_of_nat 10) then repl ++ hostCommandReplaceAll rest repl
      else String c (hostCommandReplaceAll rest repl)
  end.

Definition lineFeed : ascii := ascii_of_nat 10.

(** [strings.Split(s, "\n")]: one more piece than [s] has line feeds. *)
Fixpoint SplitLines (s : string) : list string :=
  match s with
  | EmptyString => [EmptyString]
  | String c rest =>
      if Ascii.eqb c lineFeed then EmptyString :: SplitLines rest
      else match SplitLines rest with
           | line :: lines => String c line :: lines
           | [] => [String c EmptyString]
           end
  end.

(** ** The manifest templates of [kube.go] *)

Definition metricsTeamplate : string :=
  unlines [
    "name: discoblocks-metrics";
    "image: bitnami/node-exporter:1.4.0";
    "ports:";
    "- containerPort: 9100";
    "  protocol: TCP";
    "command:";
    "- /opt/bitnami/node-exporter/bin/node_exporter";
    "- --collector.disable-defaults";
    "- --collector.filesystem";
    "- --collector.filesystem.mount-points-exclude=" ++ dq ++ "*" ++ dq;
    "- --collector.filesystem.fs-types-exclude=" ++ dq ++ "^(ext[2-4]|btrfs|xfs)$" ++ dq;
    "securityContext:";
    "  privileged: false";
    ""
  ].

Definition attachJobTemplate : string :=
  unlines [
    "apiVersion: batch/v1";
    "kind: Job";
    "metadata:";
    "  name: " ++ dq ++ "%s" ++ dq;
    "  namespace: " ++ dq ++ "%s" ++ dq;
    "  labels:";
    "    app: discoblocks";
    "spec:";
    "  template:";
    "    spec:";
    "      affinity:";
    "        nodeAffinity:";
    "          requiredDuringSchedulingIgnoredDuringExecution:";
    "            nodeSelectorTerms:";
    "            - matchFields:";
    "              - key: metadata.name";
    "                operator: In";
    "                values:";
    "                - " ++ dq ++ "%s" ++ dq;
    "      containers:";
    "      - name: attach";
    "        image: redhat/ubi8-micro@sha256:4f6f8db9a6dc949d9779a57c43954b251957bd4d019a37edbbde8ed5228fe90a";
    "        command:";
    "        - ls";
    "        - /pvc";
    "        volumeMounts:";
    "        - mountPath: /pvc";
    "          name: attach";
    "          readOnly: true";
    "      restartPolicy: Never";
    "      volumes:";
    "      - name: attach";
    "        persistentVolumeClaim:";
    "          claimName: " ++ dq ++ "%s" ++ dq;
    "  backoffLimit: 0";
    "  ttlSecondsAfterFinished: 86400";
    ""
  ].

Definition hostJobTemplate : string :=
  unlines [
    "apiVersion: batch/v1";
    "kind: Job";
    "metadata:";
    "  name: " ++ dq ++ "%s" ++ dq;
    "  namespace: " ++ dq ++ "%s" ++ dq;
    "  labels:";
    "    app: discoblocks";
    "spec:";
    "  template:";
    "    spec:";
    "      hostPID: true";
    "      nodeName: " ++ dq ++ "%s" ++ dq;
    "      containers:";
    "      - name: mount";
    "        image: nixery.dev/shell/gawk/gnugrep/gnused/coreutils-full/cri-tools/docker-client";
    "        env:";
    "        - name: MOUNT_POINT";
    "          value: " ++ dq ++ "%s" ++ dq;
    "        - name: CONTAINER_IDS";
    "          value: " ++ dq ++ "%s" ++ dq;
    "        - name: PVC_NAME";
    "          value: " ++ dq ++ "%s" ++ dq;
    "        - name: PV_NAME";
    "          value: " ++ dq ++ "%s" ++ dq;
    "        - name: FS";
    "          value: " ++ dq ++ "%s" ++ dq;
    "        - name: VOLUME_ATTACHMENT_META";
    "          value: " ++ dq ++ "%s" ++ dq;
    "        command:";
    "        - bash";
    "        - -exc";
    "        - |";
    "          %s";
    "        volumeMounts:";
    "        - mountPath: /run/containerd/containerd.sock";
    "          name: containerd-socket";
    "          readOnly: true";
    "        - mountPath: /var/run/docker.sock";
    "          name: docker-socket";
    "          readOnly: true";
    "        - mountPath: /host";
    "          name: host";
    "        securityContext:";
    "          privileged: true";
    "      restartPolicy: Never";
    "      volumes:";
    "       - hostPath:";
    "          path: /run/containerd/containerd.sock";
    "         name: containerd-socket";
    "       - hostPath:";
    "          path: /var/run/docker.sock";
    "         name: docker-socket";
    "       - hostPath:";
    "          path: /";
    "         name: host";
    "  backoffLimit: 3";
    "  ttlSecondsAfterFinished: 86400";
    ""
  ].

Definition mountCommandTemplate : string :=
  unlines [
    "%s";
    "chroot /host nsenter --target 1 --mount mkdir -p /var/lib/kubelet/plugins/kubernetes.io/csi/pv/${PV_NAME}/globalmount &&";
    "chroot /host nsenter --target 1 --mount mount ${DEV} /var/lib/kubelet/plugins/kubernetes.io/csi/pv/${PV_NAME}/globalmount &&";
    "%s";
    "echo ok"
  ].

Definition mknodMountTemplate : string :=
  unlines [
    "DEV_MAJOR=$(chroot /host nsenter --target 1 --mount cat /proc/self/mountinfo | grep ${DEV} | awk '{print $3}'  | awk '{split($0,a," ++ dq ++ ":" ++ dq ++ "); print a[1]}') &&";
    "DEV_MINOR=$(chroot /host nsenter --target 1 --mount cat /proc/self/mountinfo | grep ${DEV} | awk '{print $3}'  | awk '{split($0,a," ++ dq ++ ":" ++ dq ++ "); print a[2]}') &&";
    "for CONTAINER_ID in ${CONTAINER_IDS}; do";
    tab ++ "PID=$(docker inspect -f '{{.State.Pid}}' ${CONTAINER_ID} || crictl inspect --output go-template --template '{{.info.pid}}' ${CONTAINER_ID}) &&";
    tab ++ "chroot /host nsenter --target ${PID} --mount mkdir -p /dev ${MOUNT_POINT} &&";
    tab ++ "chroot /host nsenter --target ${PID} --pid --mount mknod ${DEV} b ${DEV_MAJOR} ${DEV_MINOR} &&";
    tab ++ "chroot /host nsenter --target ${PID} --mount mount ${DEV} ${MOUNT_POINT}";
    "done &&"
  ].

Definition bindMountTemplate : string :=
  unlines [
    "chroot /host nsenter --target ${PID} --mount mount -o bind /var/lib/kubelet/plugins/kubernetes.io/csi/pv/${PV_NAME}/globalmount ${MOUNT_POINT} &&"
  ].

Definition resizeCommandTemplate : string :=
  unlines [
    "%s";
    "(:pvc:pvc";
    tab ++ "([ " ++ dq ++ "${FS}" ++ dq ++ " = " ++ dq ++ "ext3" ++ dq ++ " ] && chroot /host nsenter --target 1 --mount resize2fs ${DEV}) ||";
    tab ++ "([ " ++ dq ++ "${FS}" ++ dq ++ " = " ++ dq ++ "ext4" ++ dq ++ " ] && chroot /host nsenter --target 1 --mount resize2fs ${DEV}) ||";
    tab ++ "([ " ++ dq ++ "${FS}" ++ dq ++ " = " ++ dq ++ "xfs" ++ dq ++ " ] && chroot /host nsenter --target 1 --mount xfs_growfs -d ${DEV}) ||";
    tab ++ "([ " ++ dq ++ "${FS}" ++ dq ++ " = " ++ dq ++ "btrfs" ++ dq ++ " ] && chroot /host nsenter --target 1 --mount btrfs filesystem resize max ${DEV}) ||";
    tab ++ "echo unsupported file-system $FS";
    ") &&";
    "echo ok"
  ].


(** ** Documents in block style

    The manifests of [kube.go] are YAML documents in block style: a
    mapping is a run of lines at one indentation, each [key: value] or
    [key:] followed by the deeper lines of its value. What follows reads
    such a document line by line, and gives up on anything else. *)


Definition backslash : ascii := ascii_of_nat 92.
Definition doubleQuote : ascii := ascii_of_nat 34.



(** The number of blanks a line starts with. *)
Fixpoint indentation (line : string) : nat :=
  match line with
  | String c rest => if Ascii.eqb c " " then S (indentation rest) else O
  | EmptyString => O
  end.

Fixpoint dropBlanks (line : string) : string :=
  match line with
  | String c rest => if Ascii.eqb c " " then dropBlanks rest else line
  | EmptyString => EmptyString
  end.

(** A line that says nothing: blanks only, or a comment. *)
Definition ignored (line : string) : bool :=
  match dropBlanks line with
  | EmptyString => true
  | String c _ => Ascii.eqb c "#"
  end.

Definition isLetter (c : ascii) : bool :=
  let n := nat_of_ascii c in
  ((65 <=? n)%nat && (n <=? 90)%nat) || ((97 <=? n)%nat && (n <=? 122)%nat).

Definition isDigit (c : ascii) : bool :=
  let n := nat_of_ascii c in (48 <=? n)%nat && (n <=? 57)%nat.

Definition toLower (c : ascii) : ascii :=
  let n := nat_of_ascii c in
  if (65 <=? n)%nat && (n <=? 90)%nat then ascii_of_nat (n + 32) else c.

Fixpoint ToLower (s : string) : string :=
  match s with
  | EmptyString => EmptyString
  | String c rest => String (toLower c) (ToLower rest)
  end.

Fixpoint every (p : ascii -> bool) (s : string) : bool :=
  match s with
  | EmptyString => true
  | String c rest => p c && every p rest
  end.

(** [s] up to its first colon, and what follows that colon. *)
Fixpoint cutColon (s : string) : option (string * string) :=
  match s with
  | EmptyString => None
  | String c rest =>
      if Ascii.eqb c ":" then Some (EmptyString, rest)
      else match cutColon rest with
           | Some (key, value) => Some (String c key, value)
           | None => None
           end
  end.

(** A key written plainly: a letter followed by letters and digits. *)
Definition plainKey (key : string) : bool :=
  match key with
  | EmptyString => false
  | String c _ => isLetter c && every (fun c => isLetter c || isDigit c) key
  end.

(** The entry a line holds, [key:] or [key: value]: the key and the text
    of the value. *)
Definition entryOf (line : string) : option (string * string) :=
  match cutColon (dropBlanks line) with
  | Some (key, value) =>
      if plainKey key then
        match value with
        | EmptyString => Some (key, EmptyString)
        | String c value' =>
            if Ascii.eqb c " " then Some (key, dropBlanks value') else None
        end
      else None
  | None => None
  end.

(** The line is one of the mapping indented by [n]. *)
Definition atLevel (n : nat) (line : string) : bool :=
  (indentation line =? n)%nat && negb (ignored line).

(** The line belongs to what follows a line indented by [n]: it is
    indented deeper, or it says nothing. *)
Definition continues (n : nat) (line : string) : bool :=
  (n <? indentation line)%nat || ignored line.

(** The keys of the mapping indented by [n] that [lines] are the lines
    of, in their order; none when a line indented by [n] is no entry, or
    when a line that says something is indented by less. *)
Fixpoint keysAt (n : nat) (lines : list string) : option (list string) :=
  match lines with
  | [] => Some []
  | line :: rest =>
      if atLevel n line then
        match entryOf line, keysAt n rest with
        | Some (key, _), Some keys => Some (key :: keys)
        | _, _ => None
        end
      else if continues n line then keysAt n rest
      else None
  end.

(** The first entry of [key] among the lines indented by [n]: the text of
    its value and the lines that follow it. *)
Fixpoint entryAt (n : nat) (key : string) (lines : list string)
  : option (string * list string) :=
  match lines with
  | [] => None
  | line :: rest =>
      if atLevel n line then
        match entryOf line with
        | Some (key', value) =>
            if String.eqb key' key then Some (value, rest) else entryAt n key rest
        | None => entryAt n key rest
        end
      else entryAt n key rest
  end.

(** The entry of [key] in the mapping indented by [n], when the mapping
    has one key only that is [key] up to the case of its letters. *)
Definition onlyEntry (n : nat) (key : string) (lines : list string)
  : option (string * list string) :=
  match keysAt n lines with
  | Some keys =>
      if (length (List.filter (fun key' => String.eqb (ToLower key') (ToLower key)) keys)
          =? 1)%nat
      then entryAt n key lines
      else None
  | None => None
  end.

(** The lines that belong to a line indented by [n], of those that follow
    it: up to the first one that says something and is indented by [n] or
    less. *)
Fixpoint block (n : nat) (lines : list string) : list string :=
  match lines with
  | [] => []
  | line :: rest => if continues n line then line :: block n rest else []
  end.

(** The indentation of the first line that says something. *)
Fixpoint levelOf (lines : list string) : option nat :=
  match lines with
  | [] => None
  | line :: rest => if ignored line then levelOf rest else Some (indentation line)
  end.

(** The text of the scalar at [path] in the mapping indented by [n]: every
    key but the last has nothing on its line and a mapping under it, the
    last has the scalar on its line and nothing under it. *)
Fixpoint valueAt (path : list string) (n : nat) (lines : list string) : option string :=
  match path with
  | [] => None
  | key :: path' =>
      match onlyEntry n key lines with
      | None => None
      | Some (value, rest) =>
          match path' with
          | [] => if forallb ignored (block n rest) then Some value else None
          | _ :: _ =>
              if String.eqb value "" then
                match levelOf (block n rest) with
                | Some m => valueAt path' m (block n rest)
                | None => None
                end
              else None
          end
      end
  end.

Definition scalarAt (path : list string) (text : string) : option string :=
  match levelOf (SplitLines text) with
  | Some n => valueAt path n (SplitLines text)
  | None => None
  end.

(** [s] up to its first double quote, when no backslash comes before it,
    and what follows that quote. *)
Fixpoint cutQuote (s : string) : option (string * string) :=
  match s with
  | EmptyString => None
  | String c rest =>
      if Ascii.eqb c doubleQuote then Some (EmptyString, rest)
      else if Ascii.eqb c backslash then None
      else match cutQuote rest with
           | Some (inner, after) => Some (String c inner, after)
           | None => None
           end
  end.

(** The words that YAML 1.1 reads as a boolean or as null. *)
Definition reserved : list string :=
  ["y"; "Y"; "yes"; "Yes"; "YES"; "n"; "N"; "no"; "No"; "NO";
   "true"; "True"; "TRUE"; "false"; "False"; "FALSE";
   "on"; "On"; "ON"; "off"; "Off"; "OFF"; "null"; "Null"; "NULL"].

(** The string a scalar stands for, for the two ways the manifests write
    one: between double quotes, without an escape; or plainly, as a word
    that starts with a letter, is made of letters, digits, [/], [.], [-]
    and [_], and is not reserved. *)
Definition asString (value : string) : option string :=
  match value with
  | EmptyString => None
  | String c rest =>
      if Ascii.eqb c doubleQuote then
        match cutQuote rest with
        | Some (inner, EmptyString) => Some inner
        | _ => None
        end
      else if isLetter c
              && every (fun c => isLetter c || isDigit c
                               || Ascii.eqb c "/" || Ascii.eqb c "."
                               || Ascii.eqb c "-" || Ascii.eqb c "_") value
              && negb (existsb (String.eqb value) reserved)
      then Some value
      else None
  end.

(** The number a scalar stands for when it is written in decimal digits
    without a sign or a leading zero and fits an [int32]. *)
Definition asInt32 (value : string) : option Z :=
  match value with
  | EmptyString => None
  | String c rest =>
      if every isDigit value && (negb (Ascii.eqb c "0") || String.eqb rest "") then
        match NilZero.int_of_string value with
        | Some i => if Z.of_int i <? 2 ^ 31 then Some (Z.of_int i) else None
        | None => None
        end
      else None
  end.

Definition stringAt (path : list string) (text : string) : option string :=
  match scalarAt path text with
  | Some value => asString value
  | None => None
  end.

Definition int32At (path : list string) (text : string) : option Z :=
  match scalarAt path text with
  | Some value => asInt32 value
  | None => None
  end.

(** ** The job renderer of [kube.go] *)

Record Job := {
  jobAPIVersion : string;
  jobKind : string;
  jobMeta : ObjectMeta;
  jobBackoffLimit : option Z;                  (* Spec.BackoffLimit *)
  jobTTLSecondsAfterFinished : option Z        (* Spec.TTLSecondsAfterFinished *)
}.

(** The job holds what the document says at the paths of these fields,
    wherever the document can be read there. *)
Definition decodes (text : string) (job : Job) : Prop :=
  (forall s, stringAt ["apiVersion"] text = Some s -> jobAPIVersion job = s) /\
  (forall s, stringAt ["kind"] text = Some s -> jobKind job = s) /\
  (forall s, stringAt ["metadata"; "name"] text = Some s -> Name (jobMeta job) = s) /\
  (forall s,
      stringAt ["metadata"; "namespace"] text = Some s -> Namespace (jobMeta job) = s) /\
  (forall n,
      int32At ["spec"; "backoffLimit"] text = Some n -> jobBackoffLimit job = Some n) /\
  (forall n,
      int32At ["spec"; "ttlSecondsAfterFinished"] text = Some n ->
      jobTTLSecondsAfterFinished job = Some n).

(** [sigs.k8s.io/yaml.Unmarshal], at the two types [kube.go] decodes. The
    decoder is a library; what is taken of it is that a job it returns
    holds what the document says where the document is in plain block
    style: a scalar that is the only entry of its key, on a line of its
    own in a mapping of plainly written keys, is the value of the field at
    that path. *)
Class Yaml := {
  UnmarshalJob : string -> result Job;
  UnmarshalContainer : string -> result Container;
  UnmarshalJob_decodes : forall text job, UnmarshalJob text = Ok job -> decodes text job
}.

(** [job.OwnerReferences = []metav1.OwnerReference{owner}] *)
Definition setOwnerReferences (job : Job) (owners : list OwnerReference) : Job :=
  {| jobAPIVersion := jobAPIVersion job;
     jobKind := jobKind job;
     jobMeta :=
       {| Name := Name (jobMeta job);
          Namespace := Namespace (jobMeta job);
          Labels := Labels (jobMeta job);
          Finalizers := Finalizers (jobMeta job);
          DeletionTimestamp := DeletionTimestamp (jobMeta job);
          OwnerReferences := owners |};
     jobBackoffLimit := jobBackoffLimit job;
     jobTTLSecondsAfterFinished := jobTTLSecondsAfterFinished job |}.

(** The tail shared by the three renderers: decode the manifest and set
    the owner. *)
Definition unmarshalOwnedJob `{Yaml} (template : string) (owner : OwnerReference)
  : result Job :=
  match UnmarshalJob template with
  | Err e => Err ("unable to unmarshal job: " ++ e)
  | Ok job => Ok (setOwnerReferences job [owner])
  end.

(** The manifest [RenderAttachJob] hands to the decoder. *)
Definition attachJobManifest (jobName namespace nodeName pvcName : string) : string :=
  Sprintf attachJobTemplate [jobName; namespace; nodeName; pvcName].

(** [now] is [time.Now().UnixNano()]. *)
Definition RenderAttachJob `{Utils} `{Yaml}
    (now : Z) (pvcName namespace nodeName : string) (owner : OwnerReference)
  : result Job :=
  match RenderResourceName true (SprintfInt now) pvcName namespace with
  | Err e => Err ("unable to render resource name: " ++ e)
  | Ok jobName =>
      unmarshalOwnedJob (attachJobManifest jobName namespace nodeName pvcName) owner
  end.

(** Lines 237-247 of [RenderMountJob]. *)
Definition mountCommand (preMountCommand : string) (hostPID : bool) : string :=
  let bindMount := if hostPID then bindMountTemplate else mknodMountTemplate in
  let preMountCommand :=
    if negb (String.eqb preMountCommand "") then preMountCommand ++ " && "
    else preMountCommand in
  hostCommandReplaceAll
    (Sprintf mountCommandTemplate [preMountCommand; bindMount]) hostCommandPrefix.

Definition mountJobManifest
    (jobName pvcName pvName namespace nodeName fs mountPoint : string)
    (containerIDs : list string) (preMountCommand : string) (hostPID : bool)
    (volumeMeta : string) : string :=
  Sprintf hostJobTemplate
    [jobName; namespace; nodeName; mountPoint; Join containerIDs " "; pvcName; pvName;
     fs; volumeMeta; mountCommand preMountCommand hostPID].

Definition RenderMountJob `{Utils} `{Yaml}
    (now : Z) (pvcName pvName namespace nodeName fs mountPoint : string)
    (containerIDs : list string) (preMountCommand : string) (hostPID : bool)
    (volumeMeta : string) (owner : OwnerReference) : result Job :=
  match RenderResourceName true (SprintfInt now) pvcName namespace with
  | Err e => Err ("unable to render resource name: " ++ e)
  | Ok jobName =>
      unmarshalOwnedJob
        (mountJobManifest jobName pvcName pvName namespace nodeName fs mountPoint
           containerIDs preMountCommand hostPID volumeMeta) owner
  end.

(** Lines 271-276 of [RenderResizeJob]. *)
Definition resizeCommand (preResizeCommand : string) : string :=
  let preResizeCommand :=
    if negb (String.eqb preResizeCommand "") then preResizeCommand ++ " && "
    else preResizeCommand in
  hostCommandReplaceAll (Sprintf resizeCommandTemplate [preResizeCommand]) hostCommandPrefix.

Definition resizeJobManifest
    (jobName pvcName pvName namespace nodeName fs preResizeCommand volumeMeta : string)
  : string :=
  Sprintf hostJobTemplate
    [jobName; namespace; nodeName; ""; ""; pvcName; pvName; fs; volumeMeta;
     resizeCommand preResizeCommand].


(** [RenderMetricsSidecar] *)
Definition RenderMetricsSidecar `{Yaml} (privileged : bool) : result Container :=
  match UnmarshalContainer metricsTeamplate with
  | Err e => Err ("unable to unmarshal container: " ++ e)
  | Ok sidecar =>
      Ok {| cName := cName sidecar;
            cVolumeMounts :=
              if privileged
              then [ {| vmName := "varlibkubelet";
                        vmMountPath := "/var/lib/kubelet";
                        vmReadOnly := true |} ]
              else cVolumeMounts sidecar;
            cPrivileged := privileged |}
  end.

(** The one query of [drivers.Driver] that [kube.go] uses. *)
Class Driver := {
  GetPVCStub : string -> string -> string -> result PersistentVolumeClaim
}.

Definition ReadWriteOnce : string := "ReadWriteOnce".

(** [NewPVC] *)
Definition NewPVC `{Utils} `{Driver} (config : DiskConfig) (prefix : string)
  : result PersistentVolumeClaim :=
  match RenderResourceName true prefix (Name (dcMeta config)) (Namespace (dcMeta config)) with
  | Err e => Err ("unable to calculate hash: " ++ e)
  | Ok pvcName =>
      match GetPVCStub pvcName (Namespace (dcMeta config)) (dcStorageClassName config) with
      | Err e => Err ("unable to init a PVC: " ++ e)
      | Ok pvc =>
          Ok {| pvcMeta :=
                  {| Name := Name (pvcMeta pvc);
                     Namespace := Namespace (pvcMeta pvc);
                     Labels := {[ "discoblocks" := Name (dcMeta config) ]};
                     Finalizers := [RenderFinalizer (Name (dcMeta config))];
                     DeletionTimestamp := DeletionTimestamp (pvcMeta pvc);
                     OwnerReferences := OwnerReferences (pvcMeta pvc) |};
                pvcStorageClassName := pvcStorageClassName pvc;
                pvcAccessModes :=
                  if (length (dcAccessModes config) =? 0)%nat then [ReadWriteOnce]
                  else dcAccessModes config;
                pvcRequests := {[ ResourceStorage := dcCapacity config ]};
                pvcPhase := pvcPhase pvc;
                pvcCapacity := pvcCapacity pvc |}
      end
  end.

(** ** What the statements about manifests speak of *)








(** [s] up to the first occurrence of [marker], and [s] from there on. *)
Fixpoint breakAt (marker s : string) : string * string :=
  match s with
  | EmptyString => (EmptyString, EmptyString)
  | String c rest =>
      if String.prefix marker s then (EmptyString, s)
      else let '(before, after) := breakAt marker rest in (String c before, after)
  end.

(** The list entry of [hostJobTemplate] that holds the script. *)
Definition commandEntry : string := "        - |".

Definition hostJobHead : string := fst (breakAt commandEntry hostJobTemplate).
Definition hostJobCommand : string := snd (breakAt commandEntry hostJobTemplate).

(** The script of the manifest, the block under [commandEntry], begins
    with [command]. *)
Definition scriptBeginsWith (manifest command : string) : Prop :=
  exists front back,
    manifest = front ++ commandEntry ++ nl ++ "          " ++ command ++ back.

(** ** The pod admission handler ([PodMutator.Handle]) *)

Record AdmissionRequest := {
  arName : string;
  arNamespace : string;
  arRaw : string                       (* Object.Raw *)
}.

(** The decoder injected into the handler, and [json.Marshal] at [Pod]. *)
Class Codec := {
  Decode : AdmissionRequest -> result Pod;
  MarshalPod : Pod -> result string
}.

(** What a call of [Handle] ends with: one of the three responses of
    [admission], or no response at all. *)
Inductive Response : Type :=
| Allowed (reason : string)                          (* no patch *)
| Errored (code : Z) (err : option error)            (* a denial *)
| PatchResponseFromRaw (original current : string)
| NilError.                            (* the handler died in [admission.Errored] *)

Record PodMutator := { strict : bool }.

Definition StatusBadRequest : Z := 400.
Definition StatusNotFound : Z := 404.
Definition StatusInternalServerError : Z := 500.

(** [admission.Errored(code, err)] puts [err.Error()] into the response:
    with a nil [err] the call is a nil pointer dereference, and the handler
    panics instead of answering. [None] is Go's nil [error]. *)
Definition admissionErrored (code : Z) (err : option error) : Response :=
  match err with
  | Some e => Errored code (Some e)
  | None => NilError
  end.

(** The closure [errorMode] of lines 488-494. *)
Definition errorMode (a : PodMutator) (code : Z) (reason : string) (err : option error)
  : Response :=
  if strict a then admissionErrored code err else Allowed reason.

Definition setPodLabel (pod : Pod) (key value : string) : Pod :=
  {| podMeta :=
       {| Name := Name (podMeta pod);
          Namespace := Namespace (podMeta pod);
          Labels := <[key := value]> (Labels (podMeta pod));
          Finalizers := Finalizers (podMeta pod);
          DeletionTimestamp := DeletionTimestamp (podMeta pod);
          OwnerReferences := OwnerReferences (podMeta pod) |};
     podVolumes := podVolumes pod;
     podContainers := podContainers pod;
     podSchedulerName := podSchedulerName pod |}.

Definition appendPodVolume (pod : Pod) (v : Volume) : Pod :=
  {| podMeta := podMeta pod;
     podVolumes := podVolumes pod ++ [v];
     podContainers := podContainers pod;
     podSchedulerName := podSchedulerName pod |}.

(** Lines 548-553: is [mountpoint] already taken in this pass? *)
Definition mountPointTaken (volumes : gmap string string) (mountpoint : string) : bool :=
  existsb (fun entry => String.eqb (snd entry) mountpoint) (map_to_list volumes).

(** How one iteration of the loop over the configurations ends. *)
Inductive AttachStep `{Client} : Type :=
| Return (cl : Cluster) (response : Response)
| Next (cl : Cluster) (volumes : gmap string string) (pod : Pod).

(** One iteration of the loop of lines 497-564. *)
Definition attachVolume `{Utils} `{Driver} `{Client}
    (a : PodMutator) (cl : Cluster) (volumes : gmap string string) (pod : Pod)
    (config : DiskConfig) : AttachStep :=
  if bool_decide (DeletionTimestamp (dcMeta config) <> None) then Next cl volumes pod else
  if negb (IsContainsAll (Labels (podMeta pod)) (dcPodSelector config))
  then Next cl volumes pod else
  let pod := setPodLabel pod "discoblocks/metrics" (Name (dcMeta config)) in
  match GetStorageClass cl (dcStorageClassName config) with
  | NotFound e =>
      Return cl (errorMode a StatusNotFound
                   ("StorageClass not found: " ++ dcStorageClassName config) (Some e))
  | GetFailed e =>
      Return cl (Errored StatusInternalServerError
                   (Some ("unable to fetch StorageClass: " ++ e)))
  | Found sc =>
  match NewPVC config (scProvisioner sc) with
  | Err e => Return cl (errorMode a StatusInternalServerError e (Some e))
  | Ok pvc =>
  let '(cl, created) := CreatePersistentVolumeClaim cl pvc in
  match created with
  | CreateFailed e =>
      Return cl (Errored StatusInternalServerError (Some ("unable to create PVC: " ++ e)))
  | Created | AlreadyExists _ =>
  let err := match created with AlreadyExists e => Some e | _ => None end in
  let mountpoint :=
    RenderMountPoint (dcMountPointPattern config) (Name (pvcMeta pvc)) 0 in
  if mountPointTaken volumes mountpoint
  then Return cl (errorMode a StatusInternalServerError "Unable to init a PVC" err)
  else
    Next cl (<[Name (pvcMeta pvc) := mountpoint]> volumes)
      (appendPodVolume pod
         {| vName := Name (pvcMeta pvc); vClaimName := Name (pvcMeta pvc) |})
  end end end.

(** The loop of lines 497-564; a [return] in the body leaves it. *)
Fixpoint attachVolumes `{Utils} `{Driver} `{Client}
    (a : PodMutator) (cl : Cluster) (volumes : gmap string string) (pod : Pod)
    (diskConfigs : list DiskConfig) : AttachStep :=
  match diskConfigs with
  | [] => Next cl volumes pod
  | config :: rest =>
      match attachVolume a cl volumes pod config with
      | Return cl response => Return cl response
      | Next cl volumes pod => attachVolumes a cl volumes pod rest
      end
  end.

(** Lines 570-590: the scheduler name, the sidecar, and one volume mount
    per entry of [volumes] in every container. The order in which Go
    iterates [volumes] is not fixed; [map_to_list] picks one. *)
Definition attachSidecar (pod : Pod) (metricsSideCar : Container)
    (volumes : gmap string string) : Pod :=
  let mounts :=
    List.map (fun entry => {| vmName := fst entry; vmMountPath := snd entry;
                              vmReadOnly := false |})
      (map_to_list volumes) in
  {| podMeta := podMeta pod;
     podVolumes := podVolumes pod;
     podContainers :=
       List.map (fun c => {| cName := cName c;
                             cVolumeMounts := cVolumeMounts c ++ mounts;
                             cPrivileged := cPrivileged c |})
         (podContainers pod ++ [metricsSideCar]);
     podSchedulerName := "discoblocks-scheduler" |}.

(** [Handle]. The handler of this file calls [RenderMetricsSidecar]
    without an operand; the sidecar is rendered unprivileged, as its
    template has it. *)
Definition Handle `{Utils} `{Driver} `{Yaml} `{Codec} `{Client}
    (a : PodMutator) (cl : Cluster) (req : AdmissionRequest) : Cluster * Response :=
  match Decode req with
  | Err e => (cl, Errored StatusBadRequest (Some ("unable to decode request: " ++ e)))
  | Ok pod =>
  match ListDiskConfigs cl (Namespace (podMeta pod)) with
  | Err e =>
      (cl, Errored StatusInternalServerError (Some ("unable to fetch configs: " ++ e)))
  | Ok diskConfigs =>
  match attachVolumes a cl ∅ pod diskConfigs with
  | Return cl response => (cl, response)
  | Next cl volumes pod =>
  if (size volumes =? 0)%nat then (cl, Allowed "No sidecar injection") else
  match RenderMetricsSidecar false with
  | Err _ => (cl, Allowed "Metrics sidecar template invalid")
  | Ok metricsSideCar =>
  match MarshalPod (attachSidecar pod metricsSideCar volumes) with
  | Err e =>
      (cl, Errored StatusInternalServerError (Some ("unable to marshal pod: " ++ e)))
  | Ok marshaledPod => (cl, PatchResponseFromRaw (arRaw req) marshaledPod)
  end end end end end.

(** ** What the statements about the handler speak of *)

(** The configuration is not being deleted and selects the pod. *)
Definition selects `{Utils} (config : DiskConfig) (pod : Pod) : Prop :=
  DeletionTimestamp (dcMeta config) = None /\
  IsContainsAll (Labels (podMeta pod)) (dcPodSelector config) = true.

(** The three failures the [strict] flag decides on, met while [config] is
    attached on cluster [cl] after the claims of [volumes]; the mount point
    that is already given is the one of a claim that exists already. *)
Inductive AttachFailure `{Utils} `{Driver} `{Client}
    (cl : Cluster) (volumes : gmap string string) (config : DiskConfig) : Prop :=
| StorageClassNotFound (e : error) :
    GetStorageClass cl (dcStorageClassName config) = NotFound e ->
    AttachFailure cl volumes config
| StubConstructionFailed (sc : StorageClass) (e : error) :
    GetStorageClass cl (dcStorageClassName config) = Found sc ->
    NewPVC config (scProvisioner sc) = Err e ->
    AttachFailure cl volumes config
| MountPointCollision (sc : StorageClass) (pvc : PersistentVolumeClaim) (e : error)
      (earlier : string) :
    GetStorageClass cl (dcStorageClassName config) = Found sc ->
    NewPVC config (scProvisioner sc) = Ok pvc ->
    snd (CreatePersistentVolumeClaim cl pvc) = AlreadyExists e ->
    volumes !! earlier
    = Some (RenderMountPoint (dcMountPointPattern config) (Name (pvcMeta pvc)) 0) ->
    AttachFailure cl volumes config.

(** A denial when [strict] is set, the pod let through without a patch
    when it is not. *)
Definition failurePolicy (a : PodMutator) (response : Response) : Prop :=
  if strict a then exists code e, response = Errored code (Some e)
  else exists reason, response = Allowed reason.

(** Every mount point of [volumes] is the pattern of one of the
    configurations rendered with the name of the claim. *)
Definition renderedByClaimName `{Utils}
    (diskConfigs : list DiskConfig) (volumes : gmap string string) : Prop :=
  forall claimName mountpoint,
    volumes !! claimName = Some mountpoint ->
    exists config,
      In config diskConfigs /\
      mountpoint = RenderMountPoint (dcMountPointPattern config) claimName 0.

(** ** The EBS driver ([drivers/ebs.csi.aws.com/main.go]) *)

Module ebs.

(** Each exported entry point writes its answer to the standard output.
    [IsStorageClassValid], which reads the storage class with [fastjson],
    follows the module. *)

(** The standard streams of the driver process. *)
Record Streams := {
  Stdout : string;
  Stderr : string
}.

Definition noOutput : Streams := {| Stdout := ""; Stderr := "" |}.

(** [fmt.Fprint(os.Stdout, text)] *)
Definition printStdout (text : string) (io : Streams) : Streams :=
  {| Stdout := Stdout io ++ text; Stderr := Stderr io |}.

(** The environment of the driver process: [os.Getenv]. *)
Definition Environ := string -> string.

Definition GetPVCStub (getenv : Environ) (io : Streams) : Streams :=
  printStdout
    (Sprintf
       (unlines [
          "{";
          tab ++ dq ++ "apiVersion" ++ dq ++ ": " ++ dq ++ "v1" ++ dq ++ ",";
          tab ++ dq ++ "kind" ++ dq ++ ": " ++ dq ++ "PersistentVolumeClaim" ++ dq ++ ",";
          tab ++ dq ++ "metadata" ++ dq ++ ": {";
          tab ++ tab ++ dq ++ "name" ++ dq ++ ": " ++ dq ++ "%s" ++ dq ++ ",";
          tab ++ tab ++ dq ++ "namespace" ++ dq ++ ": " ++ dq ++ "%s" ++ dq;
          tab ++ "},";
          tab ++ dq ++ "spec" ++ dq ++ ": {";
          tab ++ tab ++ dq ++ "storageClassName" ++ dq ++ ": " ++ dq ++ "%s" ++ dq;
          tab ++ "}";
          "}" ])
       [getenv "PVC_NAME"; getenv "PVC_NAMESACE"; getenv "STORAGE_CLASS_NAME"])
    io.

Definition GetCSIDriverNamespace (io : Streams) : Streams :=
  printStdout "kube-system" io.

Definition GetCSIDriverPodLabels (io : Streams) : Streams :=
  printStdout ("{ " ++ dq ++ "app" ++ dq ++ ": " ++ dq ++ "ebs-csi-controller" ++ dq ++ " }") io.

Definition GetPreMountCommand (io : Streams) : Streams :=
  printStdout
    "sleep infinity ; DEV=$(chroot /host nsenter --target 1 --mount mount | grep ${PV_NAME} | awk '{print $1}')"
    io.

Definition GetPreResizeCommand (io : Streams) : Streams :=
  GetPreMountCommand io.

Definition IsFileSystemManaged (io : Streams) : Streams :=
  printStdout "false" io.

Definition WaitForVolumeAttachmentMeta (io : Streams) : Streams :=
  printStdout "devicePath" io.

End ebs.

(** Every sample of a trace is the outcome of the innermost loop body on
    some state of the cluster. *)
Definition sampledBy `{Utils} `{Resource} `{Client} (ev : MonitorEvent) : Prop :=
  match ev with
  | Sample _ config metric o =>
      exists cl pod, o = snd (monitorSample cl config pod metric)
  | _ => True
  end.

(** A state of the cycle whose trace holds such samples only. *)
Definition sound `{Utils} `{Resource} `{Client} (st : MonitorState) : Prop :=
  Forall sampledBy (msTrace st).

(** The claim as the monitor sends it back when it asks for more room. *)
Definition grown (pvc : PersistentVolumeClaim) (maxCapacity : Quantity)
  : PersistentVolumeClaim :=
  setStorageRequest pvc (Z.min (Storage (pvcCapacity pvc) + 2 ^ 30) maxCapacity).

(** The test of line 326, [treshold > actual - available] at [float64]:
    when it holds the claim is left alone with [Disk size ok]. *)
Definition diskSizeOk (config : DiskConfig) (actualCapacity : Quantity)
    (available : float64) : bool :=
  float64_gt (treshold config actualCapacity)
    (AsApproximateFloat64 actualCapacity - available)%float.

(** ** A reconcile and a monitor cycle side by side

    The reconcile worker and the monitor ticker are two goroutines
    ([SetupWithManager]). Each is followed through its entry and its exit;
    in between the other one may move. [Reconcile] enters through
    [controllerSemaphore] and releases the gate on leaving;
    [MonitorVolumes] has no call to it. *)

Inductive Activity : Type :=
| Idle                                 (* not called yet *)
| Running                              (* past its entry, not yet returned *)
| Busy                                 (* returned at once: the gate was taken *)
| Finished.

Record Controller := {
  held : Gate;
  reconciling : Activity;
  monitoring : Activity
}.

Inductive step : Controller -> Controller -> Prop :=
| reconcile_enters c lock g :
    reconciling c = Idle ->
    controllerSemaphore (held c) = (lock, g) ->
    step c {| held := g;
              reconciling := if lock then Running else Busy;
              monitoring := monitoring c |}
| reconcile_returns c :
    reconciling c = Running ->
    step c {| held := unlock (held c);
              reconciling := Finished;
              monitoring := monitoring c |}
| monitor_enters c :
    monitoring c = Idle ->
    step c {| held := held c;
              reconciling := reconciling c;
              monitoring := Running |}
| monitor_returns c :
    monitoring c = Running ->
    step c {| held := held c;
              reconciling := reconciling c;
              monitoring := Finished |}.

(** Both are about to be called; [g] tells whether someone else holds the
    gate. *)
Definition issued (g : Gate) : Controller :=
  {| held := g; reconciling := Idle; monitoring := Idle |}.

Definition reachable (g : Gate) (c : Controller) : Prop := rtc step (issued g) c.

(** Both calls are in progress or have reported busy. *)
Definition concurrent (c : Controller) : Prop :=
  (reconciling c = Running \/ reconciling c = Busy) /\
  (monitoring c = Running \/ monitoring c = Busy).

(** Exactly one of the two proceeds and the other one reports busy. *)
Definition oneProceedsOtherBusy (c : Controller) : Prop :=
  (reconciling c = Running /\ monitoring c = Busy) \/
  (reconciling c = Busy /\ monitoring c = Running).

(** What holds in every state the two goroutines can reach together. *)
Definition gateInvariant (g : Gate) (c : Controller) : Prop :=
  monitoring c <> Busy /\
  (reconciling c = Busy -> g = true) /\
  (held c = true -> g = true \/ reconciling c = Running).

(** The state in which the reconcile holds the gate and the monitor cycle
    runs next to it. *)
Definition bothRunning : Controller :=
  {| held := true; reconciling := Running; monitoring := Running |}.

(** ** The scrape of [MonitorVolumes] (lines 141-209) *)

(** [strings.HasPrefix] *)
Definition HasPrefix (s prefix : string) : bool := String.prefix prefix s.

(** [strings.Contains] *)
Fixpoint Contains (s substr : string) : bool :=
  String.prefix substr s
  || match s with
     | EmptyString => false
     | String _ rest => Contains rest substr
     end.

Record ObjectReference := {
  refNamespace : string;
  refName : string
}.

Record EndpointAddress := {
  IP : string;
  TargetRef : option ObjectReference   (* a pointer: may be nil *)
}.

Record EndpointSubset := { Addresses : list EndpointAddress }.

Record Endpoints := {
  epMeta : ObjectMeta;
  Subsets : list EndpointSubset
}.

(** What the scrape reaches besides the objects of [Client]: the endpoints
    that carry the label [discoblocks] (the [List] of line 149, with its
    selector), and the exporters. [HttpGet] stands for lines 174-195: the
    body of the response, or the first of the four errors. Within one
    cycle an exporter that is asked twice is taken to answer twice the
    same. *)
Class Network `{Client} := {
  ListEndpoints : Cluster -> result (list Endpoints);
  HttpGet : string -> result string
}.

Definition metricName : string := "node_filesystem_avail_bytes".

(** The two maps the scrape fills, and whether it died on a nil
    [TargetRef]. *)
Record Scrape := {
  scDiscoblocks : gmap NamespacedName (list string);
  scMetrics : gmap NamespacedName (list string);
  scPanicked : bool
}.

Definition noScrape : Scrape :=
  {| scDiscoblocks := ∅; scMetrics := ∅; scPanicked := false |}.

(** Lines 197-206: one line of a body. *)
Definition scrapeLine (podName : NamespacedName) (sc : Scrape) (line : string) : Scrape :=
  if HasPrefix line "#" || negb (Contains line metricName) then sc
  else
    {| scDiscoblocks := scDiscoblocks sc;
       scMetrics :=
         <[podName := (default [] (scMetrics sc !! podName) ++ [line])%list]> (scMetrics sc);
       scPanicked := scPanicked sc |}.

(** Lines 163-206: one address of a subset. *)
Definition scrapeAddress `{Network} (endpoint : Endpoints) (sc : Scrape)
    (ip : EndpointAddress) : Scrape :=
  match TargetRef ip with
  | None =>
      {| scDiscoblocks := scDiscoblocks sc; scMetrics := scMetrics sc;
         scPanicked := true |}
  | Some ref =>
      let podName := {| nnNamespace := refNamespace ref; nnName := refName ref |} in
      let sc :=
        {| scDiscoblocks :=
             <[podName := (default [] (scDiscoblocks sc !! podName)
                           ++ [label (epMeta endpoint) "discoblocks"])%list]>
               (scDiscoblocks sc);
           scMetrics := scMetrics sc;
           scPanicked := scPanicked sc |} in
      match HttpGet (Sprintf "http://%s:9100/metrics" [IP ip]) with
      | Err _ => sc
      | Ok rawBody => fold_left (scrapeLine podName) (SplitLines rawBody) sc
      end
  end.

(** A [for ... range] loop of the scrape; a panic in the body ends it. *)
Definition scrapeEach {A : Type} (body : Scrape -> A -> Scrape) (xs : list A) (sc : Scrape)
  : Scrape :=
  fold_left (fun sc x => if scPanicked sc then sc else body sc x) xs sc.

(** Lines 158-209. *)
Definition scrapeEndpoints `{Network} (endpoints : list Endpoints) : Scrape :=
  scrapeEach
    (fun sc endpoint =>
       scrapeEach
         (fun sc ss => scrapeEach (scrapeAddress endpoint) (Addresses ss) sc)
         (Subsets endpoint) sc)
    endpoints noScrape.

(** How a call of [MonitorVolumes] ends. *)
Inductive CycleOutcome `{Client} : Type :=
| UnableToFetchServices (e : error)
| NilTargetRef
| Monitored (st : MonitorState).

(** The whole of [MonitorVolumes]: the scrape, then the loop over what it
    found. Go iterates [discoblocks] in no fixed order; [map_to_list] picks
    one. *)
Definition MonitorVolumesCycle `{Utils} `{Resource} `{Network} (cl : Cluster)
  : CycleOutcome :=
  match ListEndpoints cl with
  | Err e => UnableToFetchServices e
  | Ok endpoints =>
      let sc := scrapeEndpoints endpoints in
      if scPanicked sc then NilTargetRef
      else Monitored (MonitorVolumes cl (map_to_list (scDiscoblocks sc)) (scMetrics sc))
  end.

(** *** What the statements about the scrape speak of *)

(** The addresses of the listed endpoints, each with the object it belongs
    to, in the order the three loops meet them. *)
Definition addressesOf (endpoints : list Endpoints) : list (Endpoints * EndpointAddress) :=
  flat_map
    (fun endpoint =>
       flat_map (fun ss => List.map (pair endpoint) (Addresses ss)) (Subsets endpoint))
    endpoints.

(** The scrape over a list of addresses. *)
Definition scrapeAddresses `{Network} (l : list (Endpoints * EndpointAddress)) (sc : Scrape)
  : Scrape :=
  scrapeEach (fun sc p => scrapeAddress (fst p) sc (snd p)) l sc.

(** The address points at the pod [podName]. *)
Definition targets (podName : NamespacedName) (ip : EndpointAddress) : bool :=
  match TargetRef ip with
  | Some ref =>
      bool_decide ({| nnNamespace := refNamespace ref; nnName := refName ref |} = podName)
  | None => false
  end.

(** A line that passes the test of line 198. *)
Definition keptLine (line : string) : bool :=
  negb (HasPrefix line "#" || negb (Contains line metricName)).

(** The lines kept from the exporter at [ip]: none when it cannot be
    read. *)
Definition keptLines `{Network} (ip : EndpointAddress) : list string :=
  match HttpGet (Sprintf "http://%s:9100/metrics" [IP ip]) with
  | Err _ => []
  | Ok rawBody => List.filter keptLine (SplitLines rawBody)
  end.

(** The configuration names advertised for a pod, one per address that
    points at it. *)
Definition advertised (podName : NamespacedName) (l : list (Endpoints * EndpointAddress))
  : list string :=
  List.map (fun p => label (epMeta (fst p)) "discoblocks")
    (List.filter (fun p => targets podName (snd p)) l).

(** The lines kept for a pod, address after address. *)
Definition scraped `{Network} (podName : NamespacedName)
    (l : list (Endpoints * EndpointAddress)) : list string :=
  flat_map (fun p => keptLines (snd p)) (List.filter (fun p => targets podName (snd p)) l).

(** An entry of a Go map of slices that comes to be with the first
    [append]. *)
Definition appended {A : Type} (l : list A) : option (list A) :=
  match l with
  | [] => None
  | _ :: _ => Some l
  end.

(** No sample of the trace ended in the index out of range. *)
Definition inRange (trace : list MonitorEvent) : Prop :=
  forall podName config metric, ~ In (Sample podName config metric IndexOutOfRange) trace.

(** The trace of a cycle that died: the sample it died on is the last
    event. *)
Definition diedOnLast (trace : list MonitorEvent) : Prop :=
  exists before podName config metric,
    trace = (before ++ [Sample podName config metric IndexOutOfRange])%list /\
    inRange before.

(** The cluster after the updates of a trace, sent one after the other. *)
Definition replayUpdates `{Client} (trace : list MonitorEvent) (cl : Cluster) : Cluster :=
  fold_left
    (fun cl ev =>
       match ev with
       | Sample _ _ _ (UpdatingPVC _ pvc _) => fst (UpdatePersistentVolumeClaim cl pvc)
       | _ => cl
       end)
    trace cl.

(** The labels of a family, in the order the loop of lines 262-268 meets
    them. *)
Definition labelsOf (family : MetricFamily) : list LabelPair := List.concat family.

Definition isMountpoint (l : LabelPair) : bool := String.eqb (lpName l) "mountpoint".

(** ** [IsOwnedByDaemonSet] and [GetTargetNodeByAffinity] of [kube.go] *)

(** [appsv1.SchemeGroupVersion.String()] *)
Definition appsv1 : string := "apps/v1".

(** The loop of lines 332-336 over the owner references. *)
Fixpoint ownedByDaemonSet (owners : list OwnerReference) : bool :=
  match owners with
  | [] => false
  | owner :: rest =>
      if String.eqb (orKind owner) "DaemonSet" && String.eqb (orAPIVersion owner) appsv1
      then true
      else ownedByDaemonSet rest
  end.

Definition IsOwnedByDaemonSet (pod : Pod) : bool :=
  ownedByDaemonSet (OwnerReferences (podMeta pod)).

Record NodeSelectorRequirement := {
  nsrKey : string;
  nsrOperator : string;
  nsrValues : list string
}.

Record NodeSelectorTerm := { MatchFields : list NodeSelectorRequirement }.

Record NodeSelector := { NodeSelectorTerms : list NodeSelectorTerm }.

Record NodeAffinity := {
  RequiredDuringSchedulingIgnoredDuringExecution : option NodeSelector
}.

Record Affinity := { affNodeAffinity : option NodeAffinity }.

Definition NodeSelectorOpIn : string := "In".

(** The test of line 351. *)
Definition pinsNode (mf : NodeSelectorRequirement) : bool :=
  String.eqb (nsrKey mf) "metadata.name"
  && String.eqb (nsrOperator mf) NodeSelectorOpIn
  && (0 <? length (nsrValues mf))%nat.

(** The inner loop of lines 350-355: [Some] is the [return]. *)
Fixpoint targetOfFields (mfs : list NodeSelectorRequirement) : option string :=
  match mfs with
  | [] => None
  | mf :: rest =>
      if pinsNode mf then Some (List.hd "" (nsrValues mf)) else targetOfFields rest
  end.

(** The outer loop of lines 349-356. *)
Fixpoint targetOfTerms (terms : list NodeSelectorTerm) : option string :=
  match terms with
  | [] => None
  | term :: rest =>
      match targetOfFields (MatchFields term) with
      | Some node => Some node
      | None => targetOfTerms rest
      end
  end.

Definition GetTargetNodeByAffinity (affinit : option Affinity) : string :=
  match affinit with
  | None => ""
  | Some a =>
      match affNodeAffinity a with
      | None => ""
      | Some na =>
          match RequiredDuringSchedulingIgnoredDuringExecution na with
          | None => ""
          | Some selector => default "" (targetOfTerms (NodeSelectorTerms selector))
          end
      end
  end.

(** ** [IsStorageClassValid] of the EBS driver *)

(** [fastjson.Exists], [fastjson.GetString] and [fastjson.GetBool] on a
    document and one key. *)
Class Fastjson := {
  Exists : string -> string -> bool;
  GetString : string -> string -> string;
  GetBool : string -> string -> bool
}.

(** [fmt.Fprint(os.Stderr, text)] *)
Definition printStderr (text : string) (io : ebs.Streams) : ebs.Streams :=
  {| ebs.Stdout := ebs.Stdout io; ebs.Stderr := ebs.Stderr io ++ text |}.

Definition IsStorageClassValid `{Fastjson} (getenv : ebs.Environ) (io : ebs.Streams)
  : ebs.Streams :=
  let json := getenv "STORAGE_CLASS_JSON" in
  if negb (Exists json "volumeBindingMode")
     || negb (String.eqb (GetString json "volumeBindingMode") "WaitForFirstConsumer")
  then
    ebs.printStdout "false"
      (printStderr "only volumeBindingMode WaitForFirstConsumer is supported" io)
  else if negb (Exists json "allowVolumeExpansion")
          || negb (GetBool json "allowVolumeExpansion")
  then
    ebs.printStdout "false"
      (printStderr "only allowVolumeExpansion true is supported" io)
  else ebs.printStdout "true" io.

(** The cluster of the state is the cluster [cl] after the updates of its
    trace. *)
Definition replayedFrom `{Client} (cl : Cluster) (st : MonitorState) : Prop :=
  msCluster st = replayUpdates (msTrace st) cl.

(** The cycle has died exactly on the last sample of its trace. *)
Definition alive `{Client} (st : MonitorState) : Prop :=
  if msPanicked st then diedOnLast (msTrace st) else inRange (msTrace st).

(** The sample is about a line kept for its pod, of a pod the scrape has
    entered, under a configuration that is not paused. *)
Definition sampledFrom (discoblocks : list (NamespacedName * list string))
    (metrics : gmap NamespacedName (list string)) (ev : MonitorEvent) : Prop :=
  match ev with
  | Sample podName config metric _ =>
      Pause (dcPolicy config) = false /\
      In metric (default [] (metrics !! podName)) /\
      exists diskConfigNames, In (podName, diskConfigNames) discoblocks
  | _ => True
  end.

(** ** The moments of a monitor cycle *)

(** [get] answered with [a] on the cluster as the updates of some events
    at the head of [before] had left it. *)
Definition fetchedBy `{Client} {A : Type} (get : Cluster -> GetResult A)
    (cl : Cluster) (before : list MonitorEvent) (a : A) : Prop :=
  exists earlier,
    earlier `prefix_of` before /\ get (replayUpdates earlier cl) = Found a.

(** What a sample that follows the events [before] in a cycle started on
    [cl] is: the outcome of the loop body, on the cluster as the updates
    before it have left it, for a line kept for the pod, the pod as it was
    fetched under its name and a configuration that one of the names
    advertised for the pod was fetched under, neither later than the
    sample, and that is not paused. *)
Definition sampledAt `{Utils} `{Resource} `{Client}
    (cl : Cluster) (discoblocks : list (NamespacedName * list string))
    (metrics : gmap NamespacedName (list string))
    (before : list MonitorEvent) (ev : MonitorEvent) : Prop :=
  match ev with
  | Sample podName config metric o =>
      exists pod diskConfigNames diskConfigName,
        In (podName, diskConfigNames) discoblocks /\
        In diskConfigName diskConfigNames /\
        In metric (default [] (metrics !! podName)) /\
        fetchedBy (fun cl => GetPod cl podName) cl before pod /\
        fetchedBy
          (fun cl => GetDiskConfig cl {| nnNamespace := Namespace (podMeta pod);
                                         nnName := diskConfigName |})
          cl before config /\
        Pause (dcPolicy config) = false /\
        o = snd (monitorSample (replayUpdates before cl) config pod metric)
  | _ => True
  end.

(** Every event of the trace is such a sample, or no sample. *)
Inductive explained `{Utils} `{Resource} `{Client}
    (cl : Cluster) (discoblocks : list (NamespacedName * list string))
    (metrics : gmap NamespacedName (list string)) : list MonitorEvent -> Prop :=
| explained_nil : explained cl discoblocks metrics []
| explained_snoc trace ev :
    explained cl discoblocks metrics trace ->
    sampledAt cl discoblocks metrics trace ev ->
    explained cl discoblocks metrics (trace ++ [ev]).

(** What a state of a cycle started on [cl] keeps: its cluster is [cl]
    after the updates of its trace, a cached configuration was fetched
    under its key, and its trace is explained. *)
Definition consistent `{Utils} `{Resource} `{Client}
    (cl : Cluster) (discoblocks : list (NamespacedName * list string))
    (metrics : gmap NamespacedName (list string)) (st : MonitorState) : Prop :=
  replayedFrom cl st /\
  (forall key config,
      diskConfigCache st !! key = Some config ->
      fetchedBy (fun cl => GetDiskConfig cl key) cl (msTrace st) config) /\
  explained cl discoblocks metrics (msTrace st).

(** What the loop over the lines of a pod keeps. *)
Definition reading `{Utils} `{Resource} `{Client}
    (cl : Cluster) (discoblocks : list (NamespacedName * list string))
    (metrics : gmap NamespacedName (list string))
    (podName : NamespacedName) (pod : Pod) (diskConfigName : string)
    (config : DiskConfig) (st : MonitorState) : Prop :=
  consistent cl discoblocks metrics st /\
  fetchedBy (fun cl => GetPod cl podName) cl (msTrace st) pod /\
  fetchedBy
    (fun cl => GetDiskConfig cl {| nnNamespace := Namespace (podMeta pod);
                                   nnName := diskConfigName |})
    cl (msTrace st) config.

(** What the loop over the names advertised for a pod keeps. *)
Definition visiting `{Utils} `{Resource} `{Client}
    (cl : Cluster) (discoblocks : list (NamespacedName * list string))
    (metrics : gmap NamespacedName (list string))
    (podName : NamespacedName) (pod : Pod) (st : MonitorState) : Prop :=
  consistent cl discoblocks metrics st /\
  fetchedBy (fun cl => GetPod cl podName) cl (msTrace st) pod.

(** What has become of a line kept for a pod in the trace of a cycle
    started on [cl], under a name advertised for the pod: the pod could not
    be fetched; or the configuration of that name in the namespace of the
    pod could not be fetched or is paused; or the trace holds the sample of
    the line, the outcome of the loop body on the cluster as the updates
    before the sample had left it. *)
Definition lineRead `{Utils} `{Resource} `{Client}
    (cl : Cluster) (trace : list MonitorEvent)
    (podName : NamespacedName) (diskConfigName metric : string) : Prop :=
  (exists e, In (FailedToFetchPod podName e) trace) \/
  exists pod,
    let key := {| nnNamespace := Namespace (podMeta pod); nnName := diskConfigName |} in
    fetchedBy (fun cl => GetPod cl podName) cl trace pod /\
    ((exists e, In (FailedToFetchDiskConfig key e) trace) \/
     In (AutoscalingPaused key) trace \/
     exists before config after,
       trace = (before
                ++ Sample podName config metric
                     (snd (monitorSample (replayUpdates before cl) config pod metric))
                :: after)%list /\
       fetchedBy (fun cl => GetPod cl podName) cl before pod /\
       fetchedBy (fun cl => GetDiskConfig cl key) cl before config /\
       Pause (dcPolicy config) = false).

(** ** What the further statements about the handler speak of *)

(** Every claim of [volumes] is a volume of the pod. *)
Definition attached (volumes : gmap string string) (pod : Pod) : Prop :=
  forall claimName mountpoint,
    volumes !! claimName = Some mountpoint ->
    In {| vName := claimName; vClaimName := claimName |} (podVolumes pod).

(** No two claims of [volumes] share a mount point. *)
Definition distinctMountPoints (volumes : gmap string string) : Prop :=
  forall claimName claimName' mountpoint,
    volumes !! claimName = Some mountpoint ->
    volumes !! claimName' = Some mountpoint ->
    claimName = claimName'.

(** Every line feed of [s] is followed by the indentation of the script
    block of [hostJobTemplate]. *)
Definition indented (s : string) : Prop :=
  forall front back, s = front ++ nl ++ back -> exists rest, back = "          " ++ rest.

(** ** A small cluster to run the definitions on

    One implementation of each interface above, kept simple, on which the
    controllers are evaluated in the examples that follow the theorems. *)

Module Fixture.

(** [s] up to the first [c], and what follows that [c]. *)
Fixpoint cut (c : ascii) (s : string) : option (string * string) :=
  match s with
  | EmptyString => None
  | String x rest =>
      if Ascii.eqb x c then Some (EmptyString, rest)
      else match cut c rest with
           | Some (before, after) => Some (String x before, after)
           | None => None
           end
  end.

Fixpoint stripPrefix (p s : string) : option string :=
  match p, s with
  | EmptyString, _ => Some s
  | String a p', String b s' => if Ascii.eqb a b then stripPrefix p' s' else None
  | String _ _, EmptyString => None
  end.

Fixpoint splitLines (fuel : nat) (s : string) : list string :=
  match fuel with
  | O => [s]
  | S fuel' =>
      match cut (ascii_of_nat 10) s with
      | None => [s]
      | Some (line, rest) => line :: splitLines fuel' rest
      end
  end.

Definition lines (s : string) : list string := splitLines (String.length s) s.

Definition parseInt (s : string) : option Z :=
  match NilZero.int_of_string s with
  | Some i => Some (Z.of_int i)
  | None => None
  end.

(** The first line that starts with [key]: what follows [key] on it. *)
Definition field (key : string) (ls : list string) : option string :=
  match List.filter (fun o => bool_decide (o <> None)) (List.map (stripPrefix key) ls) with
  | Some v :: _ => Some v
  | _ => None
  end.

Definition unquote (s : string) : string :=
  match stripPrefix dq s with
  | Some rest => match cut (ascii_of_nat 34) rest with
                 | Some (inner, _) => inner
                 | None => rest
                 end
  | None => s
  end.

(** A sample line with one label: [name{label="value"} number]. *)
Definition parseSample (line : string) : option (string * LabelPair * Z) :=
  match cut "{" line with
  | None => None
  | Some (name, r1) =>
  match cut "=" r1 with
  | None => None
  | Some (lname, r2) =>
  match stripPrefix dq r2 with
  | None => None
  | Some r3 =>
  match cut (ascii_of_nat 34) r3 with
  | None => None
  | Some (lvalue, r4) =>
  match stripPrefix "} " r4 with
  | None => None
  | Some number =>
  match parseInt number with
  | None => None
  | Some n => Some (name, {| lpName := lname; lpValue := lvalue |}, n)
  end end end end end end.

Definition utils : Utils := {|
  RenderFinalizer := fun name => "discoblocks.io/" ++ name;
  RenderMountPoint := fun pattern name index =>
    pattern ++ "/" ++ name ++ "-" ++ SprintfInt index;
  RenderResourceName := fun _ prefix name namespace =>
    Ok (prefix ++ "-" ++ name ++ "-" ++ namespace);
  IsContainsAll := fun labels selector =>
    forallb (fun entry => bool_decide (labels !! fst entry = Some (snd entry)))
      (map_to_list selector);
  ParsePrometheusMetric := fun line =>
    match parseSample line with
    | Some (name, l, _) => Ok {[ name := [[l]] ]}
    | None => Err "malformed line"
    end;
  ParsePrometheusMetricValue := fun line =>
    match parseSample line with
    | Some (_, _, n) => Ok (float64_of_Z n)
    | None => Err "malformed line"
    end
|}.

(** Whole numbers of bytes, or of [Gi]. *)
Definition parseQuantity (s : string) : result Quantity :=
  match cut "G" s with
  | Some (digits, "i") =>
      match parseInt digits with
      | Some n => Ok (n * 2 ^ 30)
      | None => Err "quantities must match the regular expression"
      end
  | _ =>
      match parseInt s with
      | Some n => Ok n
      | None => Err "quantities must match the regular expression"
      end
  end.

Definition resource : Resource.
Proof. refine {| ParseQuantity := parseQuantity |}. reflexivity. Defined.

Record Objects := {
  claims : gmap NamespacedName PersistentVolumeClaim;
  configs : gmap NamespacedName DiskConfig;
  pods : gmap NamespacedName Pod;
  classes : gmap string StorageClass
}.

Definition get {K A : Type} `{Countable K} (m : gmap K A) (key : K) : GetResult A :=
  match m !! key with
  | Some a => Found a
  | None => NotFound "not found"
  end.

Definition keyOf (m : ObjectMeta) : NamespacedName :=
  {| nnNamespace := Namespace m; nnName := Name m |}.

Definition client : Client := {|
  Cluster := Objects;
  GetPersistentVolumeClaim := fun cl key => get (claims cl) key;
  GetDiskConfig := fun cl key => get (configs cl) key;
  GetPod := fun cl key => get (pods cl) key;
  GetStorageClass := fun cl name => get (classes cl) name;
  ListDiskConfigs := fun cl namespace =>
    Ok (List.filter (fun c => String.eqb (Namespace (dcMeta c)) namespace)
          (List.map snd (map_to_list (configs cl))));
  CreatePersistentVolumeClaim := fun cl pvc =>
    match claims cl !! keyOf (pvcMeta pvc) with
    | Some _ => (cl, AlreadyExists "already exists")
    | None =>
        ({| claims := <[keyOf (pvcMeta pvc) := pvc]> (claims cl);
            configs := configs cl; pods := pods cl; classes := classes cl |},
         Created)
    end;
  UpdatePersistentVolumeClaim := fun cl pvc =>
    match claims cl !! keyOf (pvcMeta pvc) with
    | None => (cl, Some "not found")
    | Some _ =>
        ({| claims := <[keyOf (pvcMeta pvc) := pvc]> (claims cl);
            configs := configs cl; pods := pods cl; classes := classes cl |},
         None)
    end;
  UpdateDiskConfigStatus := fun cl config =>
    match configs cl !! keyOf (dcMeta config) with
    | None => (cl, Some "not found")
    | Some _ =>
        ({| claims := claims cl;
            configs := <[keyOf (dcMeta config) := config]> (configs cl);
            pods := pods cl; classes := classes cl |},
         None)
    end
|}.

(** Decodes what the document says at the paths of the fields of a
    job. *)
Definition decodeJob (text : string) : result Job :=
  match stringAt ["kind"] text with
  | None => Err "no kind"
  | Some kind =>
      Ok {| jobAPIVersion := default "" (stringAt ["apiVersion"] text);
            jobKind := kind;
            jobMeta :=
              {| Name := default "" (stringAt ["metadata"; "name"] text);
                 Namespace := default "" (stringAt ["metadata"; "namespace"] text);
                 Labels := ∅; Finalizers := []; DeletionTimestamp := None;
                 OwnerReferences := [] |};
            jobBackoffLimit := int32At ["spec"; "backoffLimit"] text;
            jobTTLSecondsAfterFinished :=
              int32At ["spec"; "ttlSecondsAfterFinished"] text |}
  end.

Definition yaml : Yaml.
Proof.
  refine {| UnmarshalJob := decodeJob;
            UnmarshalContainer := fun text =>
              match field "name: " (lines text) with
              | Some name => Ok {| cName := name; cVolumeMounts := []; cPrivileged := false |}
              | None => Err "no name"
              end |}.
  intros text job. unfold decodeJob, decodes.
  destruct (stringAt ["kind"] text) as [kind |]; [| discriminate].
  intros Hjob. injection Hjob as <-. simpl.
  repeat split; intros ? Hread; try rewrite Hread; try reflexivity.
  now injection Hread as <-.
Defined.

Definition driver : Driver := {|
  GetPVCStub := fun name namespace storageClassName =>
    Ok {| pvcMeta := {| Name := name; Namespace := namespace; Labels := ∅;
                        Finalizers := []; DeletionTimestamp := None;
                        OwnerReferences := [] |};
          pvcStorageClassName := storageClassName;
          pvcAccessModes := [];
          pvcRequests := ∅;
          pvcPhase := "";
          pvcCapacity := ∅ |}
|}.

(** A decoder that answers with [pod] whatever the request. *)
Definition codec (pod : Pod) : Codec := {|
  Decode := fun _ => Ok pod;
  MarshalPod := fun p => Ok (Name (podMeta p))
|}.

Definition meta (namespace name : string) : ObjectMeta :=
  {| Name := name; Namespace := namespace; Labels := ∅; Finalizers := [];
     DeletionTimestamp := None; OwnerReferences := [] |}.

(** A configuration [name] in namespace [default]. *)
Definition diskConfig (name pattern maximum : string) (percentage : Z) : DiskConfig :=
  {| dcMeta := meta "default" name;
     dcStorageClassName := "gp3";
     dcCapacity := 2 ^ 30;
     dcMountPointPattern := pattern;
     dcPodSelector := {[ "app" := "db" ]};
     dcAccessModes := [];
     dcPolicy := {| Pause := false; MaximumCapacityOfDisk := maximum;
                    UpscaleTriggerPercentage := percentage |};
     dcPersistentVolumeClaims := ∅ |}.

(** A bound claim [name] of configuration [config], of [capacity] bytes. *)
Definition claim (name config : string) (capacity : Quantity) (finalizers : list string)
  : PersistentVolumeClaim :=
  {| pvcMeta := {| Name := name; Namespace := "default";
                   Labels := {[ "discoblocks" := config ]};
                   Finalizers := finalizers;
                   DeletionTimestamp := None; OwnerReferences := [] |};
     pvcStorageClassName := "gp3";
     pvcAccessModes := [ReadWriteOnce];
     pvcRequests := {[ ResourceStorage := capacity ]};
     pvcPhase := "Bound";
     pvcCapacity := {[ ResourceStorage := capacity ]} |}.

(** A pod [name] whose first container mounts volume [volume] at [path]. *)
Definition pod (name volume path : string) : Pod :=
  {| podMeta := {| Name := name; Namespace := "default";
                   Labels := {[ "app" := "db" ]}; Finalizers := [];
                   DeletionTimestamp := None; OwnerReferences := [] |};
     podVolumes := [ {| vName := volume; vClaimName := volume |} ];
     podContainers :=
       [ {| cName := "main";
            cVolumeMounts := [ {| vmName := volume; vmMountPath := path;
                                  vmReadOnly := false |} ];
            cPrivileged := false |} ];
     podSchedulerName := "" |}.

Definition objects (cs : list PersistentVolumeClaim) (ds : list DiskConfig) (ps : list Pod)
  : Objects :=
  {| claims := list_to_map (List.map (fun c => (keyOf (pvcMeta c), c)) cs);
     configs := list_to_map (List.map (fun d => (keyOf (dcMeta d), d)) ds);
     pods := list_to_map (List.map (fun p => (keyOf (podMeta p), p)) ps);
     classes := {[ "gp3" := {| scName := "gp3"; scProvisioner := "ebs.csi.aws.com" |} ]} |}.

(** One line of a scrape: the free bytes of the file system at [path]. *)
Definition sampleLine (path : string) (available : Z) : string :=
  "node_filesystem_avail_bytes{mountpoint=" ++ dq ++ path ++ dq ++ "} "
  ++ SprintfInt available.

Definition Gi : Z := 2 ^ 30.

(** The scenario of the spec: trigger at 10 percent, at most [10Gi]. *)
Definition cfg : DiskConfig := diskConfig "cfg" "/media/discoblocks" "10Gi" 10.

Definition mountpoint : string :=
  @RenderMountPoint utils (dcMountPointPattern cfg) (Name (dcMeta cfg)) 0.

Definition vol : NamespacedName := {| nnNamespace := "default"; nnName := "vol" |}.

(** The claim [vol] of [cfg], of [n] Gi. *)
Definition volume (n : Z) : PersistentVolumeClaim :=
  claim "vol" "cfg" (n * Gi) [@RenderFinalizer utils "cfg"].

Definition db : Pod := pod "db-0" "vol" mountpoint.

Definition store (n : Z) : Objects := objects [volume n] [cfg] [db].

(** A claim of the same pod that no configuration has put a finalizer on. *)
Definition scratch : PersistentVolumeClaim := claim "scratch" "cfg" (5 * Gi) [].

(** The name the handler gives the claim of [cfg]. *)
Definition claimName : string := "ebs.csi.aws.com-cfg-default".

(** A configuration whose storage class does not exist. *)
Definition orphan : DiskConfig :=
  {| dcMeta := meta "default" "orphan";
     dcStorageClassName := "missing";
     dcCapacity := Gi;
     dcMountPointPattern := "/media/discoblocks";
     dcPodSelector := {[ "app" := "db" ]};
     dcAccessModes := [];
     dcPolicy := {| Pause := false; MaximumCapacityOfDisk := "10Gi";
                    UpscaleTriggerPercentage := 10 |};
     dcPersistentVolumeClaims := ∅ |}.

Definition request : AdmissionRequest :=
  {| arName := "db-0"; arNamespace := "default"; arRaw := "db-0" |}.

Definition owner : OwnerReference :=
  {| orAPIVersion := "v1"; orKind := "PersistentVolumeClaim";
     orName := "vol"; orUID := "5f2c" |}.

(** One cycle over [store n]: the pod [db-0] advertises [cfg] and its
    exporter reports [available] free bytes at [mountpoint]. *)
Definition cycle (n available : Z) : list MonitorEvent :=
  msTrace
    (@MonitorVolumes utils resource client (store n)
       [(keyOf (podMeta db), ["cfg"])]
       {[ keyOf (podMeta db) := [sampleLine mountpoint available] ]}).

(** A pod [db-0] that no configuration selects. *)
Definition stranger : Pod :=
  {| podMeta := meta "default" "db-0";
     podVolumes := [];
     podContainers := [ {| cName := "main"; cVolumeMounts := []; cPrivileged := false |} ];
     podSchedulerName := "" |}.

(** A pod [db-0] without containers. *)
Definition bare : Pod :=
  {| podMeta := meta "default" "db-0";
     podVolumes := [];
     podContainers := [];
     podSchedulerName := "" |}.

Definition dbRef : ObjectReference := {| refNamespace := "default"; refName := "db-0" |}.

(** The endpoints of a metrics service of configuration [config]. *)
Definition endpointsOf (config : string) (addresses : list EndpointAddress) : Endpoints :=
  {| epMeta := {| Name := "discoblocks-metrics"; Namespace := "default";
                  Labels := {[ "discoblocks" := config ]}; Finalizers := [];
                  DeletionTimestamp := None; OwnerReferences := [] |};
     Subsets := [ {| Addresses := addresses |} ] |}.

(** What the exporter of [db-0] answers: [available] bytes free at
    [mountpoint], among other lines. *)
Definition body (available : Z) : string :=
  unlines [
    "# HELP node_filesystem_avail_bytes Filesystem space available to non-root users in bytes.";
    "# TYPE node_filesystem_avail_bytes gauge";
    sampleLine mountpoint available;
    "node_filesystem_size_bytes{mountpoint=" ++ dq ++ mountpoint ++ dq ++ "} 5368709120"
  ].

(** The listed endpoints are [endpoints]; only the exporter at 10.0.0.7
    answers. *)
Definition network (endpoints : list Endpoints) (available : Z) : @Network client := {|
  ListEndpoints := fun _ => Ok endpoints;
  HttpGet := fun url =>
    if String.eqb url "http://10.0.0.7:9100/metrics" then Ok (body available)
    else Err "connection refused"
|}.

(** [db-0] behind the metrics service of [cfg], at [ip]. *)
Definition served (ip : string) : list Endpoints :=
  [endpointsOf "cfg" [ {| IP := ip; TargetRef := Some dbRef |} ]].

(** Helpers that render the mount point of a claim as the pattern itself,
    whatever the name of the claim. *)
Definition plain : Utils := {|
  RenderFinalizer := @RenderFinalizer utils;
  RenderMountPoint := fun pattern _ _ => pattern;
  RenderResourceName := @RenderResourceName utils;
  IsContainsAll := @IsContainsAll utils;
  ParsePrometheusMetric := @ParsePrometheusMetric utils;
  ParsePrometheusMetricValue := @ParsePrometheusMetricValue utils
|}.

(** Two configurations that select [db-0] and share a mount point
    pattern. *)
Definition logs : DiskConfig := diskConfig "logs" "/data" "10Gi" 10.
Definition data : DiskConfig := diskConfig "data" "/data" "10Gi" 10.
(** A storage class document reduced to the two keys the driver reads. *)
Definition fastjson (volumeBindingMode : option string) (allowVolumeExpansion : option bool)
  : Fastjson := {|
  Exists := fun _ key =>
    if String.eqb key "volumeBindingMode" then bool_decide (volumeBindingMode <> None)
    else if String.eqb key "allowVolumeExpansion"
         then bool_decide (allowVolumeExpansion <> None)
         else false;
  GetString := fun _ key =>
    if String.eqb key "volumeBindingMode" then default "" volumeBindingMode else "";
  GetBool := fun _ key =>
    if String.eqb key "allowVolumeExpansion" then default false allowVolumeExpansion
    else false
|}.

End Fixture.

(** * Properties *)

(** ** The claim event filter *)

Section EventFilter.
Context `{Utils}.

Lemma ContainsFinalizer_In (m : ObjectMeta) (finalizer : string) :
  ContainsFinalizer m finalizer = true <-> In finalizer (Finalizers m).
Proof.
  unfold ContainsFinalizer. rewrite existsb_exists. split.
  - intros (f & Hin & Heq). apply String.eqb_eq in Heq. now subst.
  - intros Hin. exists finalizer. split; [assumption | apply String.eqb_refl].
Qed.

Lemma Create_spec (e : CreateEvent) :
  pvcEventFilter.Create e = true <->
  exists pvc, ceObject e = ObjPersistentVolumeClaim pvc /\ managed pvc.
Proof.
  unfold pvcEventFilter.Create, managed. destruct (ceObject e) as [pvc | kind]; simpl.
  - split; [intros Hm; exists pvc; auto | intros (pvc' & Heq & Hm); congruence].
  - split; [discriminate | intros (pvc' & Heq & _); discriminate].
Qed.

Lemma Update_spec (e : UpdateEvent) :
  pvcEventFilter.Update e = true <->
  exists oldObj newObj,
    ObjectOld e = ObjPersistentVolumeClaim oldObj /\
    ObjectNew e = ObjPersistentVolumeClaim newObj /\
    managed newObj /\
    (DeletionTimestamp (pvcMeta oldObj) <> None \/
     DeletionTimestamp (pvcMeta newObj) <> None \/
     pvcPhase oldObj <> pvcPhase newObj).
Proof.
  unfold pvcEventFilter.Update, managed.
  destruct (ObjectNew e) as [newObj | kind]; simpl.
  2: { split; [discriminate | intros (? & ? & _ & Heq & _); discriminate]. }
  destruct (ContainsFinalizer (pvcMeta newObj) _) eqn:Hfin; simpl.
  2: { split; [discriminate | intros (? & n & _ & Heq & Hm & _)].
       injection Heq as <-. congruence. }
  destruct (ObjectOld e) as [oldObj | kind]; simpl.
  2: { split; [discriminate | intros (? & ? & Heq & _); discriminate]. }
  rewrite !orb_true_iff, !bool_decide_eq_true, negb_true_iff, String.eqb_neq.
  split.
  - intros Hcases. exists oldObj, newObj. repeat split; auto. tauto.
  - intros (o & n & Ho & Hn & _ & Hcases).
    injection Ho as <-. injection Hn as <-. tauto.
Qed.

End EventFilter.

(** C6, as stated, fails. A claim that is being deleted keeps its deletion
    timestamp from one update to the next; an update that changes neither
    the timestamp nor the phase still passes the filter. *)
Lemma C6_update_passes_without_change :
  let pvc :=
    {| pvcMeta := {| Name := "vol"; Namespace := "default";
                     Labels := {[ "discoblocks" := "cfg" ]};
                     Finalizers := [@RenderFinalizer Fixture.utils "cfg"];
                     DeletionTimestamp := Some 1667220000;
                     OwnerReferences := [] |};
       pvcStorageClassName := "gp3"; pvcAccessModes := [];
       pvcRequests := ∅; pvcPhase := "Bound"; pvcCapacity := ∅ |} in
  let e := {| ObjectOld := ObjPersistentVolumeClaim pvc;
              ObjectNew := ObjPersistentVolumeClaim pvc |} in
  @pvcEventFilter.Update Fixture.utils e = true /\
  ~ (DeletionTimestamp (pvcMeta pvc) <> DeletionTimestamp (pvcMeta pvc) \/
     pvcPhase pvc <> pvcPhase pvc).
Proof.
  split; [vm_compute; reflexivity | intros [Hne | Hne]; apply Hne; reflexivity].
Qed.

(** C6 (amended). The filter lets a create event through exactly when its
    object is a claim that carries the finalizer of the configuration named
    by its label; it lets an update event through exactly when the new
    object carries that finalizer and the old or the new object has a
    deletion timestamp set or the phase differs between them; it lets no
    delete and no generic event through. *)
Theorem C6_event_filter `{Utils} :
  (forall e, pvcEventFilter.Create e = true <->
             exists pvc, ceObject e = ObjPersistentVolumeClaim pvc /\ managed pvc) /\
  (forall e, pvcEventFilter.Update e = true <->
             exists oldObj newObj,
               ObjectOld e = ObjPersistentVolumeClaim oldObj /\
               ObjectNew e = ObjPersistentVolumeClaim newObj /\
               managed newObj /\
               (DeletionTimestamp (pvcMeta oldObj) <> None \/
                DeletionTimestamp (pvcMeta newObj) <> None \/
                pvcPhase oldObj <> pvcPhase newObj)) /\
  (forall e, pvcEventFilter.Delete e = false) /\
  (forall e, pvcEventFilter.Generic e = false).
Proof.
  split; [exact Create_spec |].
  split; [exact Update_spec |].
  split; reflexivity.
Qed.

(** ** The gate *)

Lemma controllerSemaphore_free : controllerSemaphore false = (true, true).
Proof. reflexivity. Qed.

Lemma controllerSemaphore_held : controllerSemaphore true = (false, true).
Proof. reflexivity. Qed.

(** A reconcile that finds the gate taken returns at once: it asks for a
    requeue, reports no error and leaves gate and cluster as they were. *)
Lemma Reconcile_busy `{Client} (w : World) (req : Request) :
  gate w = true -> Reconcile w req = ({| Requeue := true |}, None, w).
Proof. intros Hheld. unfold Reconcile. rewrite Hheld. reflexivity. Qed.

(** A reconcile that finds the gate free runs its body and leaves the gate
    free. *)
Lemma Reconcile_proceeds `{Client} (w : World) (req : Request) :
  gate w = false ->
  Reconcile w req =
    (fst (reconcileLocked (cluster w) req),
     {| gate := false; cluster := snd (reconcileLocked (cluster w) req) |}).
Proof.
  intros Hfree. unfold Reconcile. rewrite Hfree. simpl.
  destruct (reconcileLocked (cluster w) req) as [[res err] cl]. reflexivity.
Qed.

Lemma gateInvariant_issued (g : Gate) : gateInvariant g (issued g).
Proof.
  unfold gateInvariant, issued; simpl.
  split; [discriminate |]. split; [discriminate |]. intros ->. now left.
Qed.

Lemma gateInvariant_step (g : Gate) (c c' : Controller) :
  gateInvariant g c -> step c c' -> gateInvariant g c'.
Proof.
  intros (Hmon & Hbusy & Hheld) Hstep.
  inversion Hstep as [c0 lock g' Hidle Hsem | c0 Hrun | c0 Hidle | c0 Hrun];
    subst; unfold gateInvariant; simpl.
  - unfold controllerSemaphore in Hsem.
    destruct (held c) eqn:Hh; injection Hsem as <- <-.
    + split; [assumption |]. split; [intros _ | intros _].
      * destruct (Hheld eq_refl) as [Hg | Hr]; [assumption | congruence].
      * destruct (Hheld eq_refl) as [Hg | Hr]; [now left | congruence].
    + split; [assumption |]. split; [discriminate | intros _; now right].
  - split; [assumption |]. split; discriminate.
  - split; [discriminate |]. split; assumption.
  - split; [discriminate |]. split; assumption.
Qed.

Lemma gateInvariant_reachable (g : Gate) (c : Controller) :
  reachable g c -> gateInvariant g c.
Proof.
  unfold reachable. revert c. apply rtc_ind_r.
  - apply gateInvariant_issued.
  - intros c c' _ Hstep IH. exact (gateInvariant_step g c c' IH Hstep).
Qed.

(** Entering never waits: a call that has not started can always start. *)
Lemma entry_enabled (c : Controller) :
  (reconciling c = Idle -> exists c', step c c' /\ reconciling c' <> Idle) /\
  (monitoring c = Idle -> exists c', step c c' /\ monitoring c' = Running).
Proof.
  split; intros Hidle.
  - destruct (controllerSemaphore (held c)) as [lock g] eqn:Hsem.
    eexists. split; [exact (reconcile_enters c lock g Hidle Hsem) |].
    simpl. destruct lock; discriminate.
  - eexists. split; [exact (monitor_enters c Hidle) | reflexivity].
Qed.

Lemma bothRunning_reachable : reachable false bothRunning.
Proof.
  unfold reachable. eapply rtc_l.
  - exact (reconcile_enters (issued false) true true eq_refl eq_refl).
  - apply rtc_once.
    exact (monitor_enters
             {| held := true; reconciling := Running; monitoring := Idle |} eq_refl).
Qed.

(** C4, as stated, fails. With the gate free, the reconcile takes it and
    the monitor cycle, which never asks for it, starts next to it: both
    proceed and neither reports busy. *)
Lemma C4_both_proceed :
  exists c, reachable false c /\ concurrent c /\ ~ oneProceedsOtherBusy c.
Proof.
  exists bothRunning. split; [exact bothRunning_reachable |].
  split; [split; now left |].
  intros [[_ Hm] | [Hr _]]; discriminate.
Qed.

(** C4 (amended). When a reconcile and a monitor cycle are issued
    concurrently, only the reconcile asks for the process-wide non-blocking
    gate: it proceeds when it gets the gate, and otherwise -- which needs
    some other holder, since the monitor never takes the gate -- it returns
    at once and requests a requeue, leaving gate and cluster untouched. The
    monitor cycle does not consult the gate: it always proceeds and never
    reports busy. Neither call ever waits: each can start in every state. *)
Theorem C4_gate `{Client} (g : Gate) (c : Controller) :
  reachable g c ->
  monitoring c <> Busy /\
  (reconciling c = Busy -> g = true) /\
  (held c = true -> g = true \/ reconciling c = Running) /\
  (reconciling c = Idle -> exists c', step c c' /\ reconciling c' <> Idle) /\
  (monitoring c = Idle -> exists c', step c c' /\ monitoring c' = Running) /\
  (forall (w : World) (req : Request),
      gate w = true -> Reconcile w req = ({| Requeue := true |}, None, w)).
Proof.
  intros Hreach.
  destruct (gateInvariant_reachable g c Hreach) as (Hmon & Hbusy & Hheld).
  destruct (entry_enabled c) as [Hrec Hmonitor].
  repeat split; auto using Reconcile_busy.
Qed.

Lemma C4_gate_witness :
  monitoring bothRunning <> Busy /\
  (reconciling bothRunning = Busy -> false = true) /\
  (held bothRunning = true -> false = true \/ reconciling bothRunning = Running).
Proof.
  pose proof (@C4_gate Fixture.client false bothRunning bothRunning_reachable)
    as (Hmon & Hbusy & Hheld & _).
  exact (conj Hmon (conj Hbusy Hheld)).
Defined.

(** ** The growth policy of the monitor *)

Lemma Cmp_zero (q y : Quantity) : (Cmp q y =? 0) = true <-> q = y.
Proof.
  unfold Cmp. destruct (Z.compare_spec q y); simpl; split; intros; try lia; discriminate.
Qed.

Lemma Cmp_minus_one (q y : Quantity) : (Cmp q y =? -1) = true <-> q < y.
Proof.
  unfold Cmp. destruct (Z.compare_spec q y); simpl; split; intros; try lia; discriminate.
Qed.

Section Monitor.
Context `{Utils} `{Resource} `{Client}.

Lemma resizeSample_ok cl config pvcName pvc available maxCapacity :
  diskSizeOk config (Storage (pvcCapacity pvc)) available = true ->
  resizeSample cl config pvcName pvc available maxCapacity = (cl, DiskSizeOk).
Proof.
  unfold diskSizeOk. intros Hroom. unfold resizeSample. now rewrite Hroom.
Qed.

Lemma resizeSample_ceiling cl config pvcName pvc available maxCapacity :
  diskSizeOk config (Storage (pvcCapacity pvc)) available = false ->
  Storage (pvcCapacity pvc) = maxCapacity ->
  resizeSample cl config pvcName pvc available maxCapacity = (cl, NewDiskNeeded).
Proof.
  unfold diskSizeOk. intros Hfull Hmax. unfold resizeSample. rewrite Hfull.
  apply Cmp_zero in Hmax. now rewrite Hmax.
Qed.

Lemma resizeSample_update cl config pvcName pvc available maxCapacity :
  diskSizeOk config (Storage (pvcCapacity pvc)) available = false ->
  Storage (pvcCapacity pvc) <> maxCapacity ->
  resizeSample cl config pvcName pvc available maxCapacity =
    (fst (UpdatePersistentVolumeClaim cl (grown pvc maxCapacity)),
     UpdatingPVC pvcName (grown pvc maxCapacity)
       (snd (UpdatePersistentVolumeClaim cl (grown pvc maxCapacity)))).
Proof.
  unfold diskSizeOk. intros Hfull Hmax. unfold resizeSample, grown. rewrite Hfull.
  destruct (Cmp (Storage (pvcCapacity pvc)) maxCapacity =? 0) eqn:Hcmp.
  { apply Cmp_zero in Hcmp. contradiction. }
  rewrite ParseQuantity_1Gi.
  replace (if Cmp maxCapacity (2 ^ 30 + Storage (pvcCapacity pvc)) =? -1
           then maxCapacity else 2 ^ 30 + Storage (pvcCapacity pvc))
    with (Z.min (Storage (pvcCapacity pvc) + 2 ^ 30) maxCapacity).
  - destruct (UpdatePersistentVolumeClaim cl _) as [cl' failed]. reflexivity.
  - destruct (Cmp maxCapacity (2 ^ 30 + Storage (pvcCapacity pvc)) =? -1) eqn:Hlt.
    + apply Cmp_minus_one in Hlt. lia.
    + assert (~ maxCapacity < 2 ^ 30 + Storage (pvcCapacity pvc)) as Hge.
      { intros Hlt'. apply Cmp_minus_one in Hlt'. congruence. }
      lia.
Qed.

(** The three ways the policy can go, and when. *)
Lemma resizeSample_cases cl config pvcName pvc available maxCapacity :
  let actual := Storage (pvcCapacity pvc) in
  (resizeSample cl config pvcName pvc available maxCapacity = (cl, DiskSizeOk) /\
   diskSizeOk config actual available = true) \/
  (resizeSample cl config pvcName pvc available maxCapacity = (cl, NewDiskNeeded) /\
   diskSizeOk config actual available = false /\
   actual = maxCapacity) \/
  (resizeSample cl config pvcName pvc available maxCapacity =
     (fst (UpdatePersistentVolumeClaim cl (grown pvc maxCapacity)),
      UpdatingPVC pvcName (grown pvc maxCapacity)
        (snd (UpdatePersistentVolumeClaim cl (grown pvc maxCapacity)))) /\
   diskSizeOk config actual available = false /\
   actual <> maxCapacity).
Proof.
  intros actual.
  destruct (diskSizeOk config actual available) eqn:Hroom; [| rename Hroom into Hfull].
  - left. split; [now apply resizeSample_ok | reflexivity].
  - destruct (Z.eq_dec actual maxCapacity) as [Heq | Hne].
    + right; left. split; [now apply resizeSample_ceiling | auto].
    + right; right. split; [now apply resizeSample_update | auto].
Qed.

(** A request leaves the status of the claim, its capacity included, and
    its metadata as they were fetched. *)
Lemma grown_capacity pvc maxCapacity : pvcCapacity (grown pvc maxCapacity) = pvcCapacity pvc.
Proof. reflexivity. Qed.

Lemma grown_meta pvc maxCapacity : pvcMeta (grown pvc maxCapacity) = pvcMeta pvc.
Proof. reflexivity. Qed.

Lemma grown_request pvc maxCapacity :
  Storage (pvcRequests (grown pvc maxCapacity))
  = Z.min (Storage (pvcCapacity pvc) + 2 ^ 30) maxCapacity.
Proof.
  unfold grown, setStorageRequest, Storage; simpl. now rewrite lookup_insert_eq.
Qed.

Lemma grown_request_lookup pvc maxCapacity :
  pvcRequests (grown pvc maxCapacity) !! ResourceStorage
  = Some (Z.min (Storage (pvcCapacity pvc) + 2 ^ 30) maxCapacity).
Proof. unfold grown, setStorageRequest; simpl. apply lookup_insert_eq. Qed.

End Monitor.

(** ** From a scraped line to a claim *)

Ltac break_match :=
  repeat match goal with
         | H : context [match ?x with _ => _ end] |- _ =>
             destruct x eqn:?; try discriminate H
         end.

Section Resolve.
Context `{Utils} `{Resource} `{Client}.

Lemma resolveSample_inv cl config pod metric pvcName pvc available maxCapacity :
  resolveSample cl config pod metric = inr (pvcName, pvc, available, maxCapacity) ->
  exists mf family container0 rest,
    ParsePrometheusMetric metric = Ok mf /\
    mf !! "node_filesystem_avail_bytes" = Some family /\
    mountpointOf family <> "" /\
    mountpointOf family
    = RenderMountPoint (dcMountPointPattern config) (Name (dcMeta config)) 0 /\
    podContainers pod = container0 :: rest /\
    pvcName = {| nnNamespace := Namespace (podMeta pod);
                 nnName := volumeMountedAt (mountpointOf family)
                             (cVolumeMounts container0) |} /\
    nnName pvcName <> "" /\
    GetPersistentVolumeClaim cl pvcName = Found pvc /\
    ContainsFinalizer (pvcMeta pvc) (RenderFinalizer (Name (dcMeta config))) = true /\
    ParsePrometheusMetricValue metric = Ok available /\
    ParseQuantity (MaximumCapacityOfDisk (dcPolicy config)) = Ok maxCapacity.
Proof.
  unfold resolveSample. intros Hres. cbv zeta in Hres. simpl nnName in Hres.
  break_match. injection Hres as <- <- <- <-.
  repeat match goal with
         | Hb : negb _ = false |- _ => apply negb_false_iff in Hb
         | Hb : String.eqb _ _ = true |- _ => apply String.eqb_eq in Hb
         | Hb : String.eqb _ _ = false |- _ => apply String.eqb_neq in Hb
         end.
  do 4 eexists. repeat split; try eassumption; try reflexivity.
Qed.

(** The mount point the monitor looks for is the pattern rendered with the
    name of the configuration; a line about any other mount point is left
    at once. *)
Lemma resolveSample_other_mountpoint cl config pod metric mf family :
  ParsePrometheusMetric metric = Ok mf ->
  mf !! "node_filesystem_avail_bytes" = Some family ->
  mountpointOf family
  <> RenderMountPoint (dcMountPointPattern config) (Name (dcMeta config)) 0 ->
  resolveSample cl config pod metric = inl OtherMountpoint \/
  resolveSample cl config pod metric = inl FailedToFindMountpoint.
Proof.
  intros Hparse Hfam Hne. unfold resolveSample. rewrite Hparse, Hfam. cbv zeta.
  destruct (String.eqb (mountpointOf family) "") eqn:Hempty; [now right |].
  apply String.eqb_neq in Hne. rewrite Hne. now left.
Qed.

Lemma volumeMountedAt_In mountpoint vms :
  volumeMountedAt mountpoint vms <> "" ->
  exists vm, In vm vms /\ vmMountPath vm = mountpoint /\
             vmName vm = volumeMountedAt mountpoint vms.
Proof.
  unfold volumeMountedAt. intros Hfound.
  destruct (List.find _ vms) as [vm |] eqn:Hfind; [| contradiction].
  apply List.find_some in Hfind as [Hin Hpath].
  apply String.eqb_eq in Hpath. now exists vm.
Qed.

Lemma monitorSample_resolved cl config pod metric pvcName pvc available maxCapacity :
  resolveSample cl config pod metric = inr (pvcName, pvc, available, maxCapacity) ->
  monitorSample cl config pod metric
  = resizeSample cl config pvcName pvc available maxCapacity.
Proof. intros Hres. unfold monitorSample. now rewrite Hres. Qed.

(** What an update tells about the line it came from. *)
Lemma monitorSample_update_inv cl config pod metric pvcName sent failed :
  snd (monitorSample cl config pod metric) = UpdatingPVC pvcName sent failed ->
  exists pvc available maxCapacity,
    resolveSample cl config pod metric = inr (pvcName, pvc, available, maxCapacity) /\
    diskSizeOk config (Storage (pvcCapacity pvc)) available = false /\
    Storage (pvcCapacity pvc) <> maxCapacity /\
    sent = grown pvc maxCapacity /\
    failed = snd (UpdatePersistentVolumeClaim cl (grown pvc maxCapacity)).
Proof.
  unfold monitorSample.
  destruct (resolveSample cl config pod metric) as [o | [[[key pvc] available] maxCapacity]] eqn:Hres.
  - simpl. intros ->.
    unfold resolveSample in Hres. cbv zeta in Hres. break_match.
  - destruct (resizeSample_cases cl config key pvc available maxCapacity)
      as [[-> _] | [[-> _] | [-> [Hfull Hne]]]]; simpl; try discriminate.
    intros Hupd. injection Hupd as <- <- <-.
    exists pvc, available, maxCapacity. auto.
Qed.

End Resolve.

(** ** The trace of a monitor cycle *)

Section Trace.
Context `{Utils} `{Resource} `{Client}.

(** A property of the state that every loop body keeps is kept by the
    loop. *)
Lemma forEach_invariant {A : Type} (P : MonitorState -> Prop)
    (body : MonitorState -> A -> MonitorState) (xs : list A) :
  (forall st x, P st -> P (body st x)) ->
  forall st, P st -> P (forEach body xs st).
Proof.
  intros Hbody. unfold forEach.
  induction xs as [| x xs IH]; intros st Hst; simpl; [assumption |].
  apply IH. destruct (msPanicked st); auto.
Qed.

Lemma logEvent_sound st ev : sound st -> sampledBy ev -> sound (logEvent st ev).
Proof.
  unfold sound, logEvent; simpl. intros Hst Hev.
  apply Forall_app. split; [assumption | now constructor].
Qed.

Lemma monitorMetric_sound podName pod config st metric :
  sound st -> sound (monitorMetric podName pod config st metric).
Proof.
  unfold sound, monitorMetric. intros Hst.
  destruct (monitorSample (msCluster st) config pod metric) as [cl o] eqn:Hsample; simpl.
  apply Forall_app. split; [assumption |].
  constructor; [| constructor].
  exists (msCluster st), pod. now rewrite Hsample.
Qed.

Lemma monitorDiskConfig_sound podName pod metricsOfPod st diskConfigName :
  sound st -> sound (monitorDiskConfig podName pod metricsOfPod st diskConfigName).
Proof.
  intros Hst. unfold monitorDiskConfig. cbv zeta.
  destruct (diskConfigCache st !! _) as [config |].
  - destruct (Pause (dcPolicy config)).
    + now apply logEvent_sound.
    + apply forEach_invariant; [intros; now apply monitorMetric_sound | assumption].
  - destruct (GetDiskConfig (msCluster st) _) as [config | e | e].
    + destruct (Pause (dcPolicy config)).
      * now apply logEvent_sound.
      * apply forEach_invariant; [intros; now apply monitorMetric_sound | assumption].
    + now apply logEvent_sound.
    + now apply logEvent_sound.
Qed.

Lemma monitorPod_sound metrics st entry :
  sound st -> sound (monitorPod metrics st entry).
Proof.
  intros Hst. unfold monitorPod. destruct entry as [podName diskConfigNames].
  destruct (GetPod (msCluster st) podName) as [pod | e | e].
  - apply forEach_invariant; [intros; now apply monitorDiskConfig_sound | assumption].
  - now apply logEvent_sound.
  - now apply logEvent_sound.
Qed.

Lemma MonitorVolumes_sound cl discoblocks metrics :
  Forall sampledBy (msTrace (MonitorVolumes cl discoblocks metrics)).
Proof.
  unfold MonitorVolumes. cbv zeta.
  destruct (bool_decide (size metrics = 0%nat)).
  - apply logEvent_sound; [constructor | exact I].
  - apply (forEach_invariant sound); [intros; now apply monitorPod_sound | constructor].
Qed.

(** Every update of a cycle comes from a line that passed all the checks
    of the loop body on the cluster as it was then. *)
Lemma MonitorVolumes_update cl discoblocks metrics podName config metric pvcName sent failed :
  In (Sample podName config metric (UpdatingPVC pvcName sent failed))
     (msTrace (MonitorVolumes cl discoblocks metrics)) ->
  exists cl' pod pvc available maxCapacity,
    resolveSample cl' config pod metric = inr (pvcName, pvc, available, maxCapacity) /\
    diskSizeOk config (Storage (pvcCapacity pvc)) available = false /\
    Storage (pvcCapacity pvc) <> maxCapacity /\
    sent = grown pvc maxCapacity.
Proof.
  intros Hin.
  pose proof (MonitorVolumes_sound cl discoblocks metrics) as Hall.
  rewrite List.Forall_forall in Hall. specialize (Hall _ Hin).
  destruct Hall as (cl' & pod & Ho). symmetry in Ho.
  apply monitorSample_update_inv in Ho
    as (pvc & available & maxCapacity & Hres & Hfull & Hne & Hsent & _).
  exists cl', pod, pvc, available, maxCapacity. auto.
Qed.

End Trace.

(** ** The writes of a cycle *)

Section Writes.
Context `{Utils} `{Resource} `{Client}.

(** A property that every iteration keeps while the cycle is alive is
    kept by the loop. *)
Lemma forEach_invariant_in {A : Type} (P : MonitorState -> Prop)
    (body : MonitorState -> A -> MonitorState) (xs : list A) :
  (forall st x, In x xs -> msPanicked st = false -> P st -> P (body st x)) ->
  forall st, P st -> P (forEach body xs st).
Proof.
  unfold forEach. induction xs as [| x xs IH]; intros Hbody st Hst; simpl; [assumption |].
  apply IH.
  - intros st' x' Hin. apply Hbody. now right.
  - destruct (msPanicked st) eqn:Hp; [assumption |]. apply Hbody; auto. now left.
Qed.

Lemma resolveSample_no_update cl config pod metric pvcName sent failed :
  resolveSample cl config pod metric <> inl (UpdatingPVC pvcName sent failed).
Proof.
  intros Hres. unfold resolveSample in Hres. cbv zeta in Hres. break_match.
Qed.

Lemma resolveSample_out_of_range cl config pod metric :
  resolveSample cl config pod metric = inl IndexOutOfRange -> podContainers pod = [].
Proof.
  intros Hres. unfold resolveSample in Hres. cbv zeta in Hres. break_match. reflexivity.
Qed.

(** The cluster after a line is the cluster before it, or that cluster
    after the update the line led to. *)
Lemma monitorSample_cluster cl config pod metric :
  fst (monitorSample cl config pod metric)
  = match snd (monitorSample cl config pod metric) with
    | UpdatingPVC _ pvc _ => fst (UpdatePersistentVolumeClaim cl pvc)
    | _ => cl
    end.
Proof.
  unfold monitorSample.
  destruct (resolveSample cl config pod metric)
    as [o | [[[pvcName pvc] available] maxCapacity]] eqn:Hres.
  - simpl. destruct o; try reflexivity.
    exfalso. exact (resolveSample_no_update _ _ _ _ _ _ _ Hres).
  - destruct (resizeSample_cases cl config pvcName pvc available maxCapacity)
      as [[-> _] | [[-> _] | [-> _]]]; reflexivity.
Qed.

Lemma replayUpdates_snoc trace ev cl :
  replayUpdates (trace ++ [ev]) cl
  = match ev with
    | Sample _ _ _ (UpdatingPVC _ pvc _) =>
        fst (UpdatePersistentVolumeClaim (replayUpdates trace cl) pvc)
    | _ => replayUpdates trace cl
    end.
Proof. unfold replayUpdates. rewrite fold_left_app. reflexivity. Qed.

Lemma replayUpdates_no_update trace cl :
  (forall podName config metric pvcName sent failed,
      ~ In (Sample podName config metric (UpdatingPVC pvcName sent failed)) trace) ->
  replayUpdates trace cl = cl.
Proof.
  induction trace as [| ev trace IH] using rev_ind; intros Hnone; [reflexivity |].
  rewrite replayUpdates_snoc.
  assert (replayUpdates trace cl = cl) as ->.
  { apply IH. intros podName config metric pvcName sent failed Hin.
    apply (Hnone podName config metric pvcName sent failed). apply in_or_app. now left. }
  destruct ev as [| | | | podName config metric o]; try reflexivity.
  destruct o; try reflexivity.
  exfalso. apply (Hnone podName config metric pvcName pvc failed).
  apply in_or_app. right. now left.
Qed.

Lemma monitorMetric_replayed cl0 podName pod config st metric :
  replayedFrom cl0 st -> replayedFrom cl0 (monitorMetric podName pod config st metric).
Proof.
  unfold replayedFrom, monitorMetric. intros Hst.
  pose proof (monitorSample_cluster (msCluster st) config pod metric) as Hcl.
  destruct (monitorSample (msCluster st) config pod metric) as [cl o]. simpl in Hcl |- *.
  rewrite replayUpdates_snoc, <- Hst, Hcl. now destruct o.
Qed.

Lemma monitorDiskConfig_replayed cl0 podName pod metricsOfPod st diskConfigName :
  replayedFrom cl0 st -> replayedFrom cl0 (monitorDiskConfig podName pod metricsOfPod st diskConfigName).
Proof.
  intros Hst. unfold monitorDiskConfig. cbv zeta.
  destruct (diskConfigCache st !! _) as [config |].
  - destruct (Pause (dcPolicy config)).
    + unfold replayedFrom, logEvent; simpl. now rewrite replayUpdates_snoc.
    + apply forEach_invariant; [intros; now apply monitorMetric_replayed | assumption].
  - destruct (GetDiskConfig (msCluster st) _) as [config | e | e].
    + destruct (Pause (dcPolicy config)).
      * unfold replayedFrom, logEvent; simpl. now rewrite replayUpdates_snoc.
      * apply forEach_invariant; [intros; now apply monitorMetric_replayed | assumption].
    + unfold replayedFrom, logEvent; simpl. now rewrite replayUpdates_snoc.
    + unfold replayedFrom, logEvent; simpl. now rewrite replayUpdates_snoc.
Qed.

Lemma monitorPod_replayed cl0 metrics st entry :
  replayedFrom cl0 st -> replayedFrom cl0 (monitorPod metrics st entry).
Proof.
  intros Hst. unfold monitorPod. destruct entry as [podName diskConfigNames].
  destruct (GetPod (msCluster st) podName) as [pod | e | e].
  - apply forEach_invariant; [intros; now apply monitorDiskConfig_replayed | assumption].
  - unfold replayedFrom, logEvent; simpl. now rewrite replayUpdates_snoc.
  - unfold replayedFrom, logEvent; simpl. now rewrite replayUpdates_snoc.
Qed.

Lemma replayUpdates_app before after cl :
  replayUpdates (before ++ after) cl = replayUpdates after (replayUpdates before cl).
Proof. apply fold_left_app. Qed.

End Writes.

Section Moments.
Context `{Utils} `{Resource} `{Client}.
Variable cl : Cluster.
Variable discoblocks : list (NamespacedName * list string).
Variable metrics : gmap NamespacedName (list string).

Lemma fetchedBy_now {A : Type} (get : Cluster -> GetResult A) st a :
  replayedFrom cl st -> get (msCluster st) = Found a -> fetchedBy get cl (msTrace st) a.
Proof.
  unfold replayedFrom. intros Hst Hget. exists (msTrace st).
  split; [reflexivity | now rewrite <- Hst].
Qed.

Lemma fetchedBy_later {A : Type} (get : Cluster -> GetResult A) before more a :
  fetchedBy get cl before a -> fetchedBy get cl (before ++ more) a.
Proof.
  intros (earlier & Hprefix & Hget). exists earlier.
  split; [now apply prefix_app_r | assumption].
Qed.

Lemma fetchedBy_prefix {A : Type} (get : Cluster -> GetResult A) before after a :
  before `prefix_of` after -> fetchedBy get cl before a -> fetchedBy get cl after a.
Proof. intros [more ->]. apply fetchedBy_later. Qed.

(** An event that is no sample keeps a state consistent. *)
Lemma logEvent_consistent st ev :
  (forall podName config metric o, ev <> Sample podName config metric o) ->
  consistent cl discoblocks metrics st ->
  consistent cl discoblocks metrics (logEvent st ev).
Proof.
  intros Hev (Hcl & Hcache & Htrace). unfold consistent, logEvent, replayedFrom; simpl.
  split; [| split].
  - rewrite replayUpdates_snoc, <- Hcl. destruct ev; try reflexivity.
    exfalso. eapply Hev. reflexivity.
  - intros key config Hkey. apply fetchedBy_later. now apply Hcache.
  - constructor; [assumption |]. destruct ev; try exact I.
    exfalso. eapply Hev. reflexivity.
Qed.

Lemma monitorMetric_trace podName pod config st metric :
  msTrace (monitorMetric podName pod config st metric)
  = (msTrace st
     ++ [Sample podName config metric
           (snd (monitorSample (msCluster st) config pod metric))])%list.
Proof.
  unfold monitorMetric. now destruct (monitorSample (msCluster st) config pod metric).
Qed.

Lemma monitorMetric_cache podName pod config st metric :
  diskConfigCache (monitorMetric podName pod config st metric) = diskConfigCache st.
Proof.
  unfold monitorMetric. now destruct (monitorSample (msCluster st) config pod metric).
Qed.

Lemma monitorMetric_reading podName pod diskConfigNames diskConfigName config st metric :
  In (podName, diskConfigNames) discoblocks ->
  In diskConfigName diskConfigNames ->
  In metric (default [] (metrics !! podName)) ->
  Pause (dcPolicy config) = false ->
  reading cl discoblocks metrics podName pod diskConfigName config st ->
  reading cl discoblocks metrics podName pod diskConfigName config (monitorMetric podName pod config st metric).
Proof.
  intros Hpod Hname Hline Hrun ((Hcl & Hcache & Htrace) & Hfpod & Hfconfig).
  unfold reading, consistent.
  rewrite monitorMetric_trace, monitorMetric_cache.
  repeat split.
  - now apply monitorMetric_replayed.
  - intros key config' Hkey. apply fetchedBy_later. now apply Hcache.
  - constructor; [assumption |]. simpl.
    exists pod, diskConfigNames, diskConfigName.
    unfold replayedFrom in Hcl. rewrite <- Hcl. auto 10.
  - now apply fetchedBy_later.
  - now apply fetchedBy_later.
Qed.

Lemma reading_visiting podName pod diskConfigName config st :
  reading cl discoblocks metrics podName pod diskConfigName config st -> visiting cl discoblocks metrics podName pod st.
Proof. intros (Hst & Hpod & _). now split. Qed.

Lemma monitorDiskConfig_visiting podName pod diskConfigNames st diskConfigName :
  In (podName, diskConfigNames) discoblocks ->
  In diskConfigName diskConfigNames ->
  visiting cl discoblocks metrics podName pod st ->
  visiting cl discoblocks metrics podName pod
    (monitorDiskConfig podName pod (default [] (metrics !! podName)) st diskConfigName).
Proof.
  intros Hpod Hname [Hst Hfpod]. unfold monitorDiskConfig. cbv zeta.
  set (key := {| nnNamespace := Namespace (podMeta pod); nnName := diskConfigName |}).
  assert (forall ev,
             (forall podName config metric o, ev <> Sample podName config metric o) ->
             visiting cl discoblocks metrics podName pod (logEvent st ev)) as Hlog.
  { intros ev Hev. split; [now apply logEvent_consistent |].
    unfold logEvent; simpl. now apply fetchedBy_later. }
  destruct (diskConfigCache st !! key) as [config |] eqn:Hcached.
  - destruct (Pause (dcPolicy config)) eqn:Hpause; [apply Hlog; discriminate |].
    apply (reading_visiting _ _ diskConfigName config).
    apply (forEach_invariant_in (reading cl discoblocks metrics podName pod diskConfigName config)).
    + intros st' metric Hin _. now apply (monitorMetric_reading _ _ diskConfigNames).
    + split; [assumption |]. split; [assumption |].
      destruct Hst as (_ & Hcache & _). now apply Hcache.
  - destruct (GetDiskConfig (msCluster st) key) as [config | e | e] eqn:Hget;
      [| apply Hlog; discriminate | apply Hlog; discriminate].
    assert (fetchedBy (fun cl => GetDiskConfig cl key) cl (msTrace st) config) as Hfconfig.
    { destruct Hst as (Hcl & _). now apply fetchedBy_now. }
    assert (consistent cl discoblocks metrics
              {| msCluster := msCluster st;
                 diskConfigCache := <[key := config]> (diskConfigCache st);
                 msTrace := msTrace st;
                 msPanicked := msPanicked st |}) as Hst'.
    { destruct Hst as (Hcl & Hcache & Htrace). split; [exact Hcl |]. split; [| exact Htrace].
      simpl. intros key' config' Hkey.
      destruct (decide (key = key')) as [<- | Hne].
      - rewrite lookup_insert_eq in Hkey. now injection Hkey as <-.
      - rewrite lookup_insert_ne in Hkey by assumption. now apply Hcache. }
    destruct (Pause (dcPolicy config)) eqn:Hpause.
    + split; [apply logEvent_consistent; [discriminate | exact Hst'] |].
      unfold logEvent; simpl. now apply fetchedBy_later.
    + apply (reading_visiting _ _ diskConfigName config).
      apply (forEach_invariant_in (reading cl discoblocks metrics podName pod diskConfigName config)).
      * intros st' metric Hin _. now apply (monitorMetric_reading _ _ diskConfigNames).
      * split; [exact Hst' |]. split; assumption.
Qed.

Lemma monitorPod_consistent st entry :
  In entry discoblocks ->
  consistent cl discoblocks metrics st ->
  consistent cl discoblocks metrics (monitorPod metrics st entry).
Proof.
  intros Hentry Hst. unfold monitorPod. destruct entry as [podName diskConfigNames].
  destruct (GetPod (msCluster st) podName) as [pod | e | e] eqn:Hget;
    [| apply logEvent_consistent; [discriminate | assumption]
     | apply logEvent_consistent; [discriminate | assumption]].
  enough (visiting cl discoblocks metrics podName pod
            (forEach (monitorDiskConfig podName pod (default [] (metrics !! podName)))
               diskConfigNames st)) as [Hend _] by exact Hend.
  apply (forEach_invariant_in (visiting cl discoblocks metrics podName pod)).
  - intros st' name Hin _. now apply (monitorDiskConfig_visiting _ _ diskConfigNames).
  - split; [assumption |]. destruct Hst as (Hcl & _). now apply fetchedBy_now.
Qed.

Lemma MonitorVolumes_consistent :
  consistent cl discoblocks metrics (MonitorVolumes cl discoblocks metrics).
Proof.
  assert (consistent cl discoblocks metrics
            {| msCluster := cl; diskConfigCache := ∅; msTrace := []; msPanicked := false |})
    as Hstart.
  { split; [reflexivity |]. split; [| constructor].
    intros key config Hkey. simpl in Hkey. rewrite lookup_empty in Hkey. discriminate. }
  unfold MonitorVolumes. cbv zeta.
  destruct (bool_decide (size metrics = 0%nat)).
  - apply logEvent_consistent; [discriminate | exact Hstart].
  - apply (forEach_invariant_in (consistent cl discoblocks metrics)); [| exact Hstart].
    intros st entry Hin _. now apply monitorPod_consistent.
Qed.

(** An explained trace, cut at any of its events. *)
Lemma explained_at trace :
  explained cl discoblocks metrics trace ->
  forall before ev after,
    trace = (before ++ ev :: after)%list -> sampledAt cl discoblocks metrics before ev.
Proof.
  induction 1 as [| trace ev' Htrace IH Hev']; intros before ev after Hcut.
  - destruct before; discriminate.
  - destruct after as [| ev'' after _] using rev_ind.
    + change (before ++ [ev])%list with (before ++ [ev])%list in Hcut.
      apply app_inj_tail in Hcut as [-> ->]. exact Hev'.
    + change (before ++ ev :: after ++ [ev''])%list
        with (before ++ (ev :: after) ++ [ev''])%list in Hcut.
      rewrite app_assoc in Hcut. apply app_inj_tail in Hcut as [-> _].
      now apply (IH before ev after).
Qed.

End Moments.

(** ** Every line has its turn *)

Section EveryLine.
Context `{Utils} `{Resource} `{Client}.

Lemma forEach_cons {A : Type} (body : MonitorState -> A -> MonitorState) x xs st :
  forEach body (x :: xs) st = forEach body xs (if msPanicked st then st else body st x).
Proof. reflexivity. Qed.

(** Once the cycle has died nothing more is done. *)
Lemma forEach_panicked {A : Type} (body : MonitorState -> A -> MonitorState) xs st :
  msPanicked st = true -> forEach body xs st = st.
Proof.
  intros Hp. induction xs as [| x xs IH]; [reflexivity |].
  rewrite forEach_cons, Hp. exact IH.
Qed.

(** A loop whose body only adds to the trace only adds to the trace. *)
Lemma forEach_grows {A : Type} (body : MonitorState -> A -> MonitorState) xs :
  (forall st x, msTrace st `prefix_of` msTrace (body st x)) ->
  forall st, msTrace st `prefix_of` msTrace (forEach body xs st).
Proof.
  intros Hbody. induction xs as [| x xs IH]; intros st; [reflexivity |].
  rewrite forEach_cons. destruct (msPanicked st); [apply IH |].
  etransitivity; [apply Hbody | apply IH].
Qed.

(** In a loop that is left alive every element has had its turn: the body
    ran for it on a state that was alive and had what the loop keeps, it
    did not die, and what it added to the trace is still there. *)
Lemma forEach_reaches {A : Type} (P : MonitorState -> Prop)
    (body : MonitorState -> A -> MonitorState) (xs : list A) :
  (forall st x, In x xs -> msPanicked st = false -> P st -> P (body st x)) ->
  (forall st x, msTrace st `prefix_of` msTrace (body st x)) ->
  forall st,
    P st ->
    msPanicked (forEach body xs st) = false ->
    forall x,
      In x xs ->
      exists st',
        P st' /\ msPanicked st' = false /\ msPanicked (body st' x) = false /\
        msTrace (body st' x) `prefix_of` msTrace (forEach body xs st).
Proof.
  intros Hkeeps Hgrows. induction xs as [| x0 xs IH]; intros st Hst Halive x Hin;
    [destruct Hin |].
  rewrite forEach_cons in Halive |- *.
  destruct (msPanicked st) eqn:Hp.
  { rewrite forEach_panicked in Halive by assumption. congruence. }
  destruct (msPanicked (body st x0)) eqn:Hp0.
  { rewrite forEach_panicked in Halive by assumption. congruence. }
  destruct Hin as [<- | Hin].
  - exists st. repeat split; try assumption. now apply forEach_grows.
  - apply IH; try assumption.
    + intros st' x' Hin'. apply Hkeeps. now right.
    + apply Hkeeps; [now left | assumption | assumption].
Qed.

Lemma monitorMetric_grows podName pod config st metric :
  msTrace st `prefix_of` msTrace (monitorMetric podName pod config st metric).
Proof. rewrite monitorMetric_trace. now apply prefix_app_r. Qed.

Lemma logEvent_grows st ev : msTrace st `prefix_of` msTrace (logEvent st ev).
Proof. unfold logEvent; simpl. now apply prefix_app_r. Qed.

Lemma monitorDiskConfig_grows podName pod metricsOfPod st diskConfigName :
  msTrace st `prefix_of` msTrace (monitorDiskConfig podName pod metricsOfPod st diskConfigName).
Proof.
  unfold monitorDiskConfig. cbv zeta.
  destruct (diskConfigCache st !! _) as [config |].
  - destruct (Pause (dcPolicy config)); [apply logEvent_grows |].
    apply forEach_grows. intros. apply monitorMetric_grows.
  - destruct (GetDiskConfig (msCluster st) _) as [config | e | e];
      [| apply logEvent_grows | apply logEvent_grows].
    destruct (Pause (dcPolicy config));
      [unfold logEvent; simpl; now apply prefix_app_r |].
    match goal with
    | |- _ `prefix_of` msTrace (forEach ?body ?xs ?s) =>
        change (msTrace st) with (msTrace s); apply forEach_grows;
        intros; apply monitorMetric_grows
    end.
Qed.

Lemma monitorPod_grows metrics st entry :
  msTrace st `prefix_of` msTrace (monitorPod metrics st entry).
Proof.
  unfold monitorPod. destruct entry as [podName diskConfigNames].
  destruct (GetPod (msCluster st) podName) as [pod | e | e];
    [| apply logEvent_grows | apply logEvent_grows].
  apply forEach_grows. intros. apply monitorDiskConfig_grows.
Qed.

Lemma monitorPod_eq metrics st podName diskConfigNames :
  monitorPod metrics st (podName, diskConfigNames)
  = match GetPod (msCluster st) podName with
    | NotFound e | GetFailed e => logEvent st (FailedToFetchPod podName e)
    | Found pod =>
        forEach (monitorDiskConfig podName pod (default [] (metrics !! podName)))
          diskConfigNames st
    end.
Proof. reflexivity. Qed.

Lemma prefix_In {A : Type} (l k : list A) (x : A) : l `prefix_of` k -> In x l -> In x k.
Proof. intros [more ->] Hin. apply in_or_app. now left. Qed.

Lemma logEvent_In st ev : In ev (msTrace (logEvent st ev)).
Proof. unfold logEvent; simpl. apply in_or_app. right. now left. Qed.

Variable cl : Cluster.
Variable discoblocks : list (NamespacedName * list string).
Variable metrics : gmap NamespacedName (list string).

(** Every line kept for a pod is read under every name advertised for the
    pod, unless the cycle dies, the pod or the configuration cannot be
    fetched, or the configuration is paused. *)
Lemma MonitorVolumes_every_line podName diskConfigNames diskConfigName metric :
  size metrics <> 0%nat ->
  msPanicked (MonitorVolumes cl discoblocks metrics) = false ->
  In (podName, diskConfigNames) discoblocks ->
  In diskConfigName diskConfigNames ->
  In metric (default [] (metrics !! podName)) ->
  let trace := msTrace (MonitorVolumes cl discoblocks metrics) in
  (exists e, In (FailedToFetchPod podName e) trace) \/
  exists pod,
    let key := {| nnNamespace := Namespace (podMeta pod); nnName := diskConfigName |} in
    fetchedBy (fun cl => GetPod cl podName) cl trace pod /\
    ((exists e, In (FailedToFetchDiskConfig key e) trace) \/
     In (AutoscalingPaused key) trace \/
     exists before config after,
       trace = (before
                ++ Sample podName config metric
                     (snd (monitorSample (replayUpdates before cl) config pod metric))
                :: after)%list /\
       fetchedBy (fun cl => GetPod cl podName) cl before pod /\
       fetchedBy (fun cl => GetDiskConfig cl key) cl before config /\
       Pause (dcPolicy config) = false).
Proof.
  intros Hsome Halive Hpod Hname Hline trace. subst trace.
  unfold MonitorVolumes in Halive |- *. cbv zeta in Halive |- *.
  rewrite bool_decide_eq_false_2 in Halive |- * by assumption.
  set (st0 := {| msCluster := cl; diskConfigCache := ∅; msTrace := []; msPanicked := false |})
    in *.
  set (final := forEach (monitorPod metrics) discoblocks st0) in *.
  assert (consistent cl discoblocks metrics st0) as Hstart.
  { split; [reflexivity |]. split; [| constructor].
    intros key config Hkey. simpl in Hkey. rewrite lookup_empty in Hkey. discriminate. }
  destruct (forEach_reaches (consistent cl discoblocks metrics) (monitorPod metrics) discoblocks
              (fun st entry Hin _ => monitorPod_consistent cl discoblocks metrics st entry Hin)
              (monitorPod_grows metrics) st0 Hstart Halive _ Hpod)
    as (st1 & Hst1 & _ & Halive1 & Hfinal1).
  rewrite monitorPod_eq in Halive1, Hfinal1.
  destruct (GetPod (msCluster st1) podName) as [pod | e | e] eqn:Hget.
  2, 3: left; exists e; apply (prefix_In _ _ _ Hfinal1), logEvent_In.
  right. exists pod. cbv zeta.
  set (key := {| nnNamespace := Namespace (podMeta pod); nnName := diskConfigName |}).
  set (lines := default [] (metrics !! podName)) in *.
  assert (visiting cl discoblocks metrics podName pod st1) as Hvisit1.
  { split; [assumption |]. destruct Hst1 as (Hcl & _). now apply fetchedBy_now. }
  split.
  { apply (fetchedBy_prefix cl _ (msTrace st1)); [| apply Hvisit1].
    etransitivity; [| exact Hfinal1]. apply forEach_grows. intros. apply monitorDiskConfig_grows. }
  destruct (forEach_reaches (visiting cl discoblocks metrics podName pod)
              (monitorDiskConfig podName pod lines) diskConfigNames
              (fun st name Hin _ =>
                 monitorDiskConfig_visiting cl discoblocks metrics podName pod diskConfigNames
                   st name Hpod Hin)
              (monitorDiskConfig_grows podName pod lines) st1 Hvisit1 Halive1 _ Hname)
    as (st2 & [Hst2 Hfpod2] & _ & Halive2 & Hfinal2).
  assert (forall st config,
             consistent cl discoblocks metrics st ->
             fetchedBy (fun cl => GetPod cl podName) cl (msTrace st) pod ->
             fetchedBy (fun cl => GetDiskConfig cl key) cl (msTrace st) config ->
             Pause (dcPolicy config) = false ->
             msPanicked (forEach (monitorMetric podName pod config) lines st) = false ->
             msTrace (forEach (monitorMetric podName pod config) lines st)
               `prefix_of` msTrace final ->
             exists before config after,
               msTrace final
               = (before
                  ++ Sample podName config metric
                       (snd (monitorSample (replayUpdates before cl) config pod metric))
                  :: after)%list /\
               fetchedBy (fun cl => GetPod cl podName) cl before pod /\
               fetchedBy (fun cl => GetDiskConfig cl key) cl before config /\
               Pause (dcPolicy config) = false) as Hread.
  { intros st config Hst Hfpod Hfconfig Hrun Halive3 Hfinal3.
    destruct (forEach_reaches (reading cl discoblocks metrics podName pod diskConfigName config)
                (monitorMetric podName pod config) lines
                (fun st' line Hin _ =>
                   monitorMetric_reading cl discoblocks metrics podName pod diskConfigNames
                     diskConfigName config st' line Hpod Hname Hin Hrun)
                (monitorMetric_grows podName pod config) st
                (conj Hst (conj Hfpod Hfconfig)) Halive3 _ Hline)
      as (st4 & ((Hcl4 & _) & Hfpod4 & Hfconfig4) & _ & _ & Hfinal4).
    rewrite monitorMetric_trace in Hfinal4.
    destruct (transitivity Hfinal4 Hfinal3) as [after Hcut].
    exists (msTrace st4), config, after.
    unfold replayedFrom in Hcl4. rewrite <- Hcl4, Hcut, <- app_assoc. auto. }
  assert (forall ev, In ev (msTrace (logEvent st2 ev)) ) as Hlogged by (intros; apply logEvent_In).
  unfold monitorDiskConfig in Halive2, Hfinal2. cbv zeta in Halive2, Hfinal2. fold key in Halive2, Hfinal2.
  pose proof (transitivity Hfinal2 Hfinal1) as Hfinal.
  clear Hfinal2.
  destruct (diskConfigCache st2 !! key) as [config |] eqn:Hcached.
  - destruct (Pause (dcPolicy config)) eqn:Hpause.
    + right; left. apply (prefix_In _ _ _ Hfinal), logEvent_In.
    + right; right. apply (Hread st2 config); try assumption.
      destruct Hst2 as (_ & Hcache & _). now apply Hcache.
  - destruct (GetDiskConfig (msCluster st2) key) as [config | e | e] eqn:Hgetc.
    2, 3: left; exists e; apply (prefix_In _ _ _ Hfinal), logEvent_In.
    destruct (Pause (dcPolicy config)) eqn:Hpause.
    + right; left. apply (prefix_In _ _ _ Hfinal), logEvent_In.
    + right; right.
      assert (fetchedBy (fun cl => GetDiskConfig cl key) cl (msTrace st2) config) as Hfconfig.
      { destruct Hst2 as (Hcl & _). now apply fetchedBy_now. }
      assert (consistent cl discoblocks metrics
                {| msCluster := msCluster st2;
                   diskConfigCache := <[key := config]> (diskConfigCache st2);
                   msTrace := msTrace st2;
                   msPanicked := msPanicked st2 |}) as Hst2'.
      { destruct Hst2 as (Hcl & Hcache & Htrace).
        split; [exact Hcl |]. split; [| exact Htrace].
        simpl. intros key' config' Hkey.
        destruct (decide (key = key')) as [<- | Hne].
        - rewrite lookup_insert_eq in Hkey. now injection Hkey as <-.
        - rewrite lookup_insert_ne in Hkey by assumption. now apply Hcache. }
      exact (Hread _ config Hst2' Hfpod2 Hfconfig Hpause Halive2 Hfinal).
Qed.

End EveryLine.

(** ** The claims about the monitor *)

Section MonitorClaims.
Context `{Utils} `{Resource} `{Client}.

Lemma MonitorVolumes_reads_every_line cl discoblocks metrics
    podName diskConfigNames diskConfigName metric :
  size metrics <> 0%nat ->
  msPanicked (MonitorVolumes cl discoblocks metrics) = false ->
  In (podName, diskConfigNames) discoblocks ->
  In diskConfigName diskConfigNames ->
  In metric (default [] (metrics !! podName)) ->
  lineRead cl (msTrace (MonitorVolumes cl discoblocks metrics)) podName diskConfigName metric.
Proof. apply MonitorVolumes_every_line. Qed.

Lemma MonitorVolumes_sampledAt cl discoblocks metrics before ev after :
  msTrace (MonitorVolumes cl discoblocks metrics) = (before ++ ev :: after)%list ->
  sampledAt cl discoblocks metrics before ev.
Proof.
  apply explained_at. apply MonitorVolumes_consistent.
Qed.

(** C1 (amended). The threshold and the used bytes are computed in
    [float64]: threshold = capacity x upscaleTriggerPercentage / 100 and
    used = capacity - available, every operation rounded to the nearest
    binary64. For every line that resolves to a managed claim: unless
    threshold > used holds, and if the capacity does not equal the
    configured maximum, an update that sets the storage request of the
    claim to min(capacity + 1Gi, maximum) is sent to the cluster; whenever
    threshold > used holds, nothing is sent and the cluster is left as it
    is. In every monitor cycle the cluster that is left is the cluster the
    cycle started on after the updates of its trace; every sample of the
    trace is the outcome of this loop body on the cluster as the updates
    before it had left it, for a line kept for the pod, the pod fetched
    under its name and a configuration advertised for it that is not
    paused; in a cycle that does not die every such line of every pod is
    read, unless the pod or the configuration cannot be fetched or the
    configuration is paused; and every update of the trace is for a claim
    for which threshold > used did not hold and whose capacity was not the
    maximum. *)
Theorem C1_resize_request :
  (forall cl config pod metric pvcName pvc available maxCapacity,
      resolveSample cl config pod metric = inr (pvcName, pvc, available, maxCapacity) ->
      let actual := Storage (pvcCapacity pvc) in
      (diskSizeOk config actual available = false ->
       actual <> maxCapacity ->
       monitorSample cl config pod metric =
         (fst (UpdatePersistentVolumeClaim cl (grown pvc maxCapacity)),
          UpdatingPVC pvcName (grown pvc maxCapacity)
            (snd (UpdatePersistentVolumeClaim cl (grown pvc maxCapacity)))) /\
       pvcRequests (grown pvc maxCapacity) !! ResourceStorage
       = Some (Z.min (actual + 2 ^ 30) maxCapacity)) /\
      (diskSizeOk config actual available = true ->
       monitorSample cl config pod metric = (cl, DiskSizeOk))) /\
  (forall cl discoblocks metrics,
      let st := MonitorVolumes cl discoblocks metrics in
      msCluster st = replayUpdates (msTrace st) cl /\
      (forall before ev after,
          msTrace st = (before ++ ev :: after)%list ->
          sampledAt cl discoblocks metrics before ev) /\
      (size metrics <> 0%nat ->
       msPanicked st = false ->
       forall podName diskConfigNames diskConfigName metric,
         In (podName, diskConfigNames) discoblocks ->
         In diskConfigName diskConfigNames ->
         In metric (default [] (metrics !! podName)) ->
         lineRead cl (msTrace st) podName diskConfigName metric)) /\
  (forall cl discoblocks metrics podName config metric pvcName sent failed,
      In (Sample podName config metric (UpdatingPVC pvcName sent failed))
         (msTrace (MonitorVolumes cl discoblocks metrics)) ->
      exists cl' pod pvc available maxCapacity,
        resolveSample cl' config pod metric = inr (pvcName, pvc, available, maxCapacity) /\
        diskSizeOk config (Storage (pvcCapacity pvc)) available = false /\
        Storage (pvcCapacity pvc) <> maxCapacity /\
        sent = grown pvc maxCapacity).
Proof.
  split; [| split].
  - intros cl config pod metric pvcName pvc available maxCapacity Hres actual.
    rewrite (monitorSample_resolved _ _ _ _ _ _ _ _ Hres). split.
    + intros Hlow Hne. split.
      * now apply resizeSample_update.
      * apply grown_request_lookup.
    + intros Hroom. now apply resizeSample_ok.
  - intros cl discoblocks metrics st. split; [| split].
    + apply (MonitorVolumes_consistent cl discoblocks metrics).
    + intros before ev after. apply MonitorVolumes_sampledAt.
    + intros Hsome Halive podName diskConfigNames diskConfigName metric.
      now apply MonitorVolumes_reads_every_line.
  - intros cl discoblocks metrics podName config metric pvcName sent failed Hin.
    apply MonitorVolumes_update in Hin
      as (cl' & pod & pvc & available & maxCapacity & Hres & Hfull & Hne & Hsent).
    exists cl', pod, pvc, available, maxCapacity. auto.
Qed.

(** C2. Once the capacity of a claim equals the maximum of the
    configuration, the policy ends in one of the two branches that only log
    and leave the cluster as it is, whatever the available bytes; and no
    update in the trace of any monitor cycle is for a claim whose capacity
    equals the maximum of the configuration it was found under. *)
Theorem C2_no_resize_at_ceiling :
  (forall cl config pvcName pvc available maxCapacity,
      Storage (pvcCapacity pvc) = maxCapacity ->
      resizeSample cl config pvcName pvc available maxCapacity = (cl, DiskSizeOk) \/
      resizeSample cl config pvcName pvc available maxCapacity = (cl, NewDiskNeeded)) /\
  (forall cl discoblocks metrics podName config metric pvcName sent failed maxCapacity,
      In (Sample podName config metric (UpdatingPVC pvcName sent failed))
         (msTrace (MonitorVolumes cl discoblocks metrics)) ->
      ParseQuantity (MaximumCapacityOfDisk (dcPolicy config)) = Ok maxCapacity ->
      Storage (pvcCapacity sent) <> maxCapacity).
Proof.
  split.
  - intros cl config pvcName pvc available maxCapacity Hmax.
    destruct (resizeSample_cases cl config pvcName pvc available maxCapacity)
      as [[Hok _] | [[Hnew _] | [_ [_ Hne]]]]; auto. contradiction.
  - intros cl discoblocks metrics podName config metric pvcName sent failed maxCapacity
      Hin Hmax.
    apply MonitorVolumes_update in Hin
      as (cl' & pod & pvc & available & maxCapacity' & Hres & _ & Hne & ->).
    apply resolveSample_inv in Hres
      as (? & ? & ? & ? & _ & _ & _ & _ & _ & _ & _ & _ & _ & _ & Hmax').
    rewrite grown_capacity. congruence.
Qed.

(** The monitor half of C3: an update is only ever sent for a claim that
    carries the finalizer of the configuration the line was found under. *)
Lemma MonitorVolumes_update_finalizer
    cl discoblocks metrics podName config metric pvcName sent failed :
  In (Sample podName config metric (UpdatingPVC pvcName sent failed))
     (msTrace (MonitorVolumes cl discoblocks metrics)) ->
  ContainsFinalizer (pvcMeta sent) (RenderFinalizer (Name (dcMeta config))) = true.
Proof.
  intros Hin.
  apply MonitorVolumes_update in Hin
    as (cl' & pod & pvc & available & maxCapacity & Hres & _ & _ & ->).
  apply resolveSample_inv in Hres
    as (? & ? & ? & ? & _ & _ & _ & _ & _ & _ & _ & _ & Hfin & _).
  now rewrite grown_meta.
Qed.

(** C3. A claim without the rendered finalizer of the configuration is
    never updated by the monitor, in any cycle and for any scraped line:
    no update of a trace is for a claim with its metadata. And the
    reconciler is never triggered for a claim without the finalizer of the
    configuration its label names: its create and update events are
    filtered out, like every delete and generic event. *)
Theorem C3_unmanaged_claim_untouched (pvc : PersistentVolumeClaim) :
  (forall config,
      ContainsFinalizer (pvcMeta pvc) (RenderFinalizer (Name (dcMeta config))) = false ->
      forall cl discoblocks metrics podName metric pvcName sent failed,
        In (Sample podName config metric (UpdatingPVC pvcName sent failed))
           (msTrace (MonitorVolumes cl discoblocks metrics)) ->
        pvcMeta sent <> pvcMeta pvc) /\
  (~ managed pvc ->
   pvcEventFilter.Create {| ceObject := ObjPersistentVolumeClaim pvc |} = false /\
   (forall old, pvcEventFilter.Update
                  {| ObjectOld := old; ObjectNew := ObjPersistentVolumeClaim pvc |} = false) /\
   (forall e, pvcEventFilter.Delete e = false) /\
   (forall e, pvcEventFilter.Generic e = false)).
Proof.
  split.
  - intros config Hnot cl discoblocks metrics podName metric pvcName sent failed Hin Hmeta.
    apply MonitorVolumes_update_finalizer in Hin. rewrite Hmeta in Hin. congruence.
  - unfold managed. intros Hnot. apply not_true_is_false in Hnot.
    split; [| split; [| split]]; try reflexivity.
    + unfold pvcEventFilter.Create; simpl. exact Hnot.
    + intros old. unfold pvcEventFilter.Update; simpl. now rewrite Hnot.
Qed.

Lemma setStorageRequest_grown pvc maxCapacity :
  maxCapacity < Storage (pvcCapacity pvc) ->
  grown pvc maxCapacity = setStorageRequest pvc maxCapacity.
Proof. intros Hover. unfold grown. f_equal. lia. Qed.

(** C8. When the capacity of a managed claim is above the configured
    maximum and threshold > capacity - available does not hold in
    [float64], the loop body sends an update of the claim whose storage
    request is exactly the maximum, less than the capacity of the claim,
    and the cluster it leaves is the one that update has left. The branch
    that stops at the ceiling is taken only when capacity and maximum are
    equal. In a monitor cycle, a sample whose line so resolves on the
    cluster as the updates before it had left it is that update, and the
    cluster the cycle leaves is the one the update has left after the
    later updates of the trace; and in a cycle that does not die every
    line kept for a pod is read, unless the pod or the configuration
    cannot be fetched or the configuration is paused. *)
Theorem C8_request_below_capacity :
  (forall cl config pod metric pvcName pvc available maxCapacity,
      resolveSample cl config pod metric = inr (pvcName, pvc, available, maxCapacity) ->
      maxCapacity < Storage (pvcCapacity pvc) ->
      diskSizeOk config (Storage (pvcCapacity pvc)) available = false ->
      let sent := setStorageRequest pvc maxCapacity in
      monitorSample cl config pod metric
      = (fst (UpdatePersistentVolumeClaim cl sent),
         UpdatingPVC pvcName sent (snd (UpdatePersistentVolumeClaim cl sent))) /\
      pvcRequests sent !! ResourceStorage = Some maxCapacity /\
      pvcCapacity sent = pvcCapacity pvc /\
      Storage (pvcRequests sent) < Storage (pvcCapacity sent)) /\
  (forall cl config pvcName pvc available maxCapacity,
      snd (resizeSample cl config pvcName pvc available maxCapacity) = NewDiskNeeded ->
      Storage (pvcCapacity pvc) = maxCapacity) /\
  (forall cl discoblocks metrics before podName config metric o after,
      let st := MonitorVolumes cl discoblocks metrics in
      let now := replayUpdates before cl in
      msTrace st = (before ++ Sample podName config metric o :: after)%list ->
      exists pod,
        fetchedBy (fun cl => GetPod cl podName) cl before pod /\
        o = snd (monitorSample now config pod metric) /\
        forall pvcName pvc available maxCapacity,
          resolveSample now config pod metric = inr (pvcName, pvc, available, maxCapacity) ->
          maxCapacity < Storage (pvcCapacity pvc) ->
          diskSizeOk config (Storage (pvcCapacity pvc)) available = false ->
          let sent := setStorageRequest pvc maxCapacity in
          o = UpdatingPVC pvcName sent (snd (UpdatePersistentVolumeClaim now sent)) /\
          msCluster st = replayUpdates after (fst (UpdatePersistentVolumeClaim now sent))) /\
  (forall cl discoblocks metrics podName diskConfigNames diskConfigName metric,
      size metrics <> 0%nat ->
      msPanicked (MonitorVolumes cl discoblocks metrics) = false ->
      In (podName, diskConfigNames) discoblocks ->
      In diskConfigName diskConfigNames ->
      In metric (default [] (metrics !! podName)) ->
      lineRead cl (msTrace (MonitorVolumes cl discoblocks metrics))
        podName diskConfigName metric).
Proof.
  assert (forall cl config pod metric pvcName pvc available maxCapacity,
             resolveSample cl config pod metric = inr (pvcName, pvc, available, maxCapacity) ->
             maxCapacity < Storage (pvcCapacity pvc) ->
             diskSizeOk config (Storage (pvcCapacity pvc)) available = false ->
             monitorSample cl config pod metric
             = (fst (UpdatePersistentVolumeClaim cl (setStorageRequest pvc maxCapacity)),
                UpdatingPVC pvcName (setStorageRequest pvc maxCapacity)
                  (snd (UpdatePersistentVolumeClaim cl (setStorageRequest pvc maxCapacity)))))
    as Hline.
  { intros cl config pod metric pvcName pvc available maxCapacity Hres Hover Hlow.
    rewrite (monitorSample_resolved _ _ _ _ _ _ _ _ Hres).
    rewrite (resizeSample_update _ _ _ _ available) by (assumption || lia).
    now rewrite setStorageRequest_grown. }
  split; [| split; [| split]].
  - intros cl config pod metric pvcName pvc available maxCapacity Hres Hover Hlow sent.
    split; [now apply (Hline _ _ _ _ _ _ available) |].
    split; [apply lookup_insert_eq |]. split; [reflexivity |].
    unfold sent, setStorageRequest, Storage at 1; simpl. now rewrite lookup_insert_eq.
  - intros cl config pvcName pvc available maxCapacity.
    destruct (resizeSample_cases cl config pvcName pvc available maxCapacity)
      as [[-> _] | [[_ [_ Heq]] | [-> _]]]; simpl; try discriminate. auto.
  - intros cl discoblocks metrics before podName config metric o after st now Hcut.
    pose proof (MonitorVolumes_sampledAt _ _ _ _ _ _ Hcut) as Hev. simpl in Hev.
    destruct Hev as (pod & names & name & _ & _ & _ & Hfpod & _ & _ & Ho).
    exists pod. split; [assumption |]. split; [assumption |].
    intros pvcName pvc available maxCapacity Hres Hover Hlow sent.
    pose proof (Hline _ _ _ _ _ _ _ _ Hres Hover Hlow) as Hsample.
    fold now in Ho. rewrite Hsample in Ho. simpl in Ho. split; [exact Ho |].
    pose proof (MonitorVolumes_consistent cl discoblocks metrics) as (Hcl & _).
    unfold replayedFrom in Hcl. fold st in Hcl. rewrite Hcl, Hcut.
    change (before ++ Sample podName config metric o :: after)%list
      with (before ++ [Sample podName config metric o] ++ after)%list.
    rewrite app_assoc, replayUpdates_app, replayUpdates_snoc. now rewrite Ho.
  - intros cl discoblocks metrics podName diskConfigNames diskConfigName metric.
    apply MonitorVolumes_reads_every_line.
Qed.

End MonitorClaims.

(** ** The pod admission handler *)

Section Mutator.
Context `{Utils} `{Driver} `{Yaml} `{Codec} `{Client}.

Lemma mountPointTaken_spec (volumes : gmap string string) (mountpoint : string) :
  mountPointTaken volumes mountpoint = true <->
  exists earlier, volumes !! earlier = Some mountpoint.
Proof.
  unfold mountPointTaken. rewrite existsb_exists. split.
  - intros ([name mp] & Hin & Heq). simpl in Heq. apply String.eqb_eq in Heq. subst mp.
    exists name. apply elem_of_map_to_list. now apply list_elem_of_In.
  - intros (name & Hlookup). exists (name, mountpoint). split.
    + apply list_elem_of_In. now apply elem_of_map_to_list.
    + simpl. apply String.eqb_refl.
Qed.

Lemma errorMode_policy (a : PodMutator) code reason e :
  failurePolicy a (errorMode a code reason (Some e)).
Proof.
  unfold failurePolicy, errorMode. destruct (strict a); simpl; eauto.
Qed.

(** One of the three failures ends the loop with the response [errorMode]
    builds. *)
Lemma attachVolume_failure a cl volumes pod config :
  selects config pod ->
  AttachFailure cl volumes config ->
  exists cl' response,
    attachVolume a cl volumes pod config = Return cl' response /\
    failurePolicy a response.
Proof.
  intros [Hlive Hsel] Hfail. unfold attachVolume.
  rewrite bool_decide_eq_false_2 by (rewrite Hlive; auto).
  rewrite Hsel. simpl negb. cbv iota zeta.
  destruct Hfail as [e Hsc | sc e Hsc Hstub | sc pvc e earlier Hsc Hstub Hcreate Hmp].
  - rewrite Hsc. eauto using errorMode_policy.
  - rewrite Hsc, Hstub. eauto using errorMode_policy.
  - rewrite Hsc, Hstub.
    destruct (CreatePersistentVolumeClaim cl pvc) as [cl' created] eqn:Hc.
    assert (mountPointTaken volumes
              (RenderMountPoint (dcMountPointPattern config) (Name (pvcMeta pvc)) 0) = true)
      as Htaken by (apply mountPointTaken_spec; eauto).
    simpl in Hcreate. subst created. rewrite Htaken. eauto using errorMode_policy.
Qed.

(** On a collision the error handed to [errorMode] is the one of the
    [Create] before it: nil when the claim has just been created, and then
    [admission.Errored] panics when [strict] is set. *)
Lemma attachVolume_collision_of_created_claim a cl volumes pod config sc pvc earlier :
  selects config pod ->
  GetStorageClass cl (dcStorageClassName config) = Found sc ->
  NewPVC config (scProvisioner sc) = Ok pvc ->
  snd (CreatePersistentVolumeClaim cl pvc) = Created ->
  volumes !! earlier
  = Some (RenderMountPoint (dcMountPointPattern config) (Name (pvcMeta pvc)) 0) ->
  attachVolume a cl volumes pod config =
    Return (fst (CreatePersistentVolumeClaim cl pvc))
      (if strict a then NilError else Allowed "Unable to init a PVC").
Proof.
  intros [Hlive Hsel] Hsc Hstub Hcreate Hmp. unfold attachVolume.
  rewrite bool_decide_eq_false_2 by (rewrite Hlive; auto).
  rewrite Hsel. simpl negb. cbv iota zeta. rewrite Hsc, Hstub.
  destruct (CreatePersistentVolumeClaim cl pvc) as [cl' created]. simpl in Hcreate.
  subst created.
  assert (mountPointTaken volumes
            (RenderMountPoint (dcMountPointPattern config) (Name (pvcMeta pvc)) 0) = true)
    as -> by (apply mountPointTaken_spec; eauto).
  reflexivity.
Qed.

Lemma attachVolumes_app a cl volumes pod before after :
  attachVolumes a cl volumes pod (before ++ after) =
  match attachVolumes a cl volumes pod before with
  | Return cl' response => Return cl' response
  | Next cl' volumes' pod' => attachVolumes a cl' volumes' pod' after
  end.
Proof.
  revert cl volumes pod.
  induction before as [| config before IH]; intros cl volumes pod; simpl; [reflexivity |].
  destruct (attachVolume a cl volumes pod config); [reflexivity | apply IH].
Qed.

(** A claim enters [volumes] under its name, at the pattern rendered with
    that name. *)
Lemma attachVolume_rendered a cl volumes pod config cl' volumes' pod' diskConfigs :
  attachVolume a cl volumes pod config = Next cl' volumes' pod' ->
  In config diskConfigs ->
  renderedByClaimName diskConfigs volumes ->
  renderedByClaimName diskConfigs volumes'.
Proof.
  unfold attachVolume. intros Hstep Hin Hprev.
  destruct (bool_decide _); [injection Hstep as <- <- <-; assumption |].
  destruct (negb _); [injection Hstep as <- <- <-; assumption |].
  cbv zeta in Hstep.
  destruct (GetStorageClass cl _) as [sc | e | e]; try discriminate.
  destruct (NewPVC config (scProvisioner sc)) as [pvc | e]; try discriminate.
  destruct (CreatePersistentVolumeClaim cl pvc) as [cl1 created].
  destruct created as [| e | e]; try discriminate;
    (destruct (mountPointTaken volumes _); [discriminate |];
     injection Hstep as <- <- <-;
     intros claimName mountpoint Hlookup;
     destruct (decide (Name (pvcMeta pvc) = claimName)) as [<- | Hne];
     [ rewrite lookup_insert_eq in Hlookup; injection Hlookup as <-; eauto
     | rewrite lookup_insert_ne in Hlookup by assumption; eauto ]).
Qed.

Lemma attachVolumes_rendered_from a diskConfigs :
  forall todo cl volumes pod cl' volumes' pod',
    (forall config, In config todo -> In config diskConfigs) ->
    renderedByClaimName diskConfigs volumes ->
    attachVolumes a cl volumes pod todo = Next cl' volumes' pod' ->
    renderedByClaimName diskConfigs volumes'.
Proof.
  induction todo as [| config todo IH]; intros cl volumes pod cl' volumes' pod' Hsub Hprev;
    simpl.
  - intros Hloop. injection Hloop as <- <- <-. assumption.
  - destruct (attachVolume a cl volumes pod config) as [| cl1 volumes1 pod1] eqn:Hstep;
      [discriminate |].
    apply IH; [intros c Hc; apply Hsub; now right |].
    eapply attachVolume_rendered; eauto. apply Hsub. now left.
Qed.

Lemma attachVolumes_rendered a cl pod diskConfigs cl' volumes pod' :
  attachVolumes a cl ∅ pod diskConfigs = Next cl' volumes pod' ->
  renderedByClaimName diskConfigs volumes.
Proof.
  apply attachVolumes_rendered_from; [auto |].
  intros claimName mountpoint Hlookup. rewrite lookup_empty in Hlookup. discriminate.
Qed.

(** The mounts the handler adds to a container are the entries of
    [volumes]. *)
Lemma attachSidecar_mounts pod metricsSideCar volumes c' vm :
  In c' (podContainers (attachSidecar pod metricsSideCar volumes)) ->
  In vm (cVolumeMounts c') ->
  (exists c, In c (podContainers pod ++ [metricsSideCar]) /\ In vm (cVolumeMounts c)) \/
  volumes !! vmName vm = Some (vmMountPath vm).
Proof.
  unfold attachSidecar; simpl. intros Hc Hvm.
  apply List.in_map_iff in Hc as (c & <- & Hc). simpl in Hvm.
  apply List.in_app_or in Hvm as [Hold | Hnew].
  - left. eauto.
  - right. apply List.in_map_iff in Hnew as ([name mp] & <- & Hentry). simpl.
    apply elem_of_map_to_list. now apply list_elem_of_In.
Qed.

(** What the [strict] flag decides on. Whatever the pod and wherever in
    the pass: when a configuration that selects the pod meets a storage
    class that is not found, a claim stub that cannot be built, or, for a
    claim that exists already, a mount point given to a claim assigned
    earlier in the same pass, the response of the handler is a denial if
    [strict] is set and lets the pod through without a patch if it is
    not. *)
Lemma Handle_failure_policy a cl req pod (before : list DiskConfig) config after
    cl1 volumes1 pod1 :
  Decode req = Ok pod ->
  ListDiskConfigs cl (Namespace (podMeta pod)) = Ok (before ++ config :: after)%list ->
  attachVolumes a cl ∅ pod before = Next cl1 volumes1 pod1 ->
  selects config pod1 ->
  AttachFailure cl1 volumes1 config ->
  failurePolicy a (snd (Handle a cl req)).
Proof.
  intros Hdecode Hlist Hbefore Hsel Hfail.
  destruct (attachVolume_failure a cl1 volumes1 pod1 config Hsel Hfail)
    as (cl2 & response & Hstep & Hpolicy).
  unfold Handle. rewrite Hdecode, Hlist, attachVolumes_app, Hbefore.
  simpl. rewrite Hstep. exact Hpolicy.
Qed.

(** C5 fails where the claim whose mount point is taken has just been
    created. Whatever the pod and wherever in the pass: when a
    configuration that selects the pod has its claim created and the mount
    point of the claim is already given to a claim assigned earlier in the
    same pass, line 551 hands the nil error of [Create] to [errorMode]:
    with [strict] set the handler dies in [admission.Errored] and denies
    nothing; with [strict] unset it lets the pod through without a patch.
    The claim stays created in both cases. *)
Theorem C5_collision_of_created_claim a cl req pod (before : list DiskConfig) config after
    cl1 volumes1 pod1 sc pvc earlier :
  Decode req = Ok pod ->
  ListDiskConfigs cl (Namespace (podMeta pod)) = Ok (before ++ config :: after)%list ->
  attachVolumes a cl ∅ pod before = Next cl1 volumes1 pod1 ->
  selects config pod1 ->
  GetStorageClass cl1 (dcStorageClassName config) = Found sc ->
  NewPVC config (scProvisioner sc) = Ok pvc ->
  snd (CreatePersistentVolumeClaim cl1 pvc) = Created ->
  volumes1 !! earlier
  = Some (RenderMountPoint (dcMountPointPattern config) (Name (pvcMeta pvc)) 0) ->
  Handle a cl req
  = (fst (CreatePersistentVolumeClaim cl1 pvc),
     if strict a then NilError else Allowed "Unable to init a PVC").
Proof.
  intros Hdecode Hlist Hbefore Hsel Hsc Hstub Hcreate Hmp.
  unfold Handle. rewrite Hdecode, Hlist, attachVolumes_app, Hbefore. simpl.
  now rewrite (attachVolume_collision_of_created_claim a cl1 volumes1 pod1 config sc pvc
                 earlier Hsel Hsc Hstub Hcreate Hmp).
Qed.

End Mutator.

(** ** Where the handler mounts and where the monitor looks *)

Section MountPoints.
Context `{Utils} `{Resource} `{Driver} `{Client}.

(** A line about the mount point of the claim is left at the comparison
    of line 274 when the two renderings differ. *)
Lemma monitorSample_claim_mountpoint cl config pod metric mf family claimName :
  RenderMountPoint (dcMountPointPattern config) (Name (dcMeta config)) 0
  <> RenderMountPoint (dcMountPointPattern config) claimName 0 ->
  ParsePrometheusMetric metric = Ok mf ->
  mf !! "node_filesystem_avail_bytes" = Some family ->
  mountpointOf family = RenderMountPoint (dcMountPointPattern config) claimName 0 ->
  monitorSample cl config pod metric = (cl, OtherMountpoint) \/
  monitorSample cl config pod metric = (cl, FailedToFindMountpoint).
Proof.
  intros Hdiffer Hparse Hfam Hmp. unfold monitorSample.
  destruct (resolveSample_other_mountpoint cl config pod metric mf family Hparse Hfam)
    as [-> | ->]; [congruence | now left | now right].
Qed.

(** Whatever the line, the claim an update is for is not the one mounted
    at the other rendering. *)
Lemma monitorSample_other_claim cl config pod metric claimName pvcName sent failed :
  RenderMountPoint (dcMountPointPattern config) (Name (dcMeta config)) 0
  <> RenderMountPoint (dcMountPointPattern config) claimName 0 ->
  (forall container0 rest vm,
      podContainers pod = container0 :: rest ->
      In vm (cVolumeMounts container0) ->
      vmName vm = claimName ->
      vmMountPath vm = RenderMountPoint (dcMountPointPattern config) claimName 0) ->
  snd (monitorSample cl config pod metric) = UpdatingPVC pvcName sent failed ->
  nnName pvcName <> claimName.
Proof.
  intros Hdiffer Hmounted Hupdate Hsame.
  apply monitorSample_update_inv in Hupdate as (pvc & available & maxCapacity & Hres & _).
  apply resolveSample_inv in Hres
    as (mf & family & container0 & rest & _ & _ & _ & Hmp & Hpod & Hname & Hfound & _).
  rewrite Hname in Hfound, Hsame. simpl in Hfound, Hsame.
  apply volumeMountedAt_In in Hfound as (vm & Hin & Hpath & Hvm).
  apply Hdiffer. rewrite <- Hmp, <- Hpath.
  apply (Hmounted container0 rest vm Hpod Hin). congruence.
Qed.

(** C9. The handler gives every claim it attaches the mount point
    [RenderMountPoint(pattern, pvc.Name, 0)] and mounts it there in every
    container; the monitor compares the mountpoint label of a line with
    [RenderMountPoint(pattern, config.Name, 0)]. For every configuration
    and claim name for which the two differ: a line about the mount point
    of the claim never passes the comparison, and for a pod that mounts the
    claim only where the handler put it, no line at all makes the monitor
    update that claim. *)
Theorem C9_monitor_misses_attached_volume :
  (forall a cl pod diskConfigs cl' volumes pod',
      attachVolumes a cl ∅ pod diskConfigs = Next cl' volumes pod' ->
      renderedByClaimName diskConfigs volumes) /\
  (forall pod metricsSideCar volumes c' vm,
      In c' (podContainers (attachSidecar pod metricsSideCar volumes)) ->
      In vm (cVolumeMounts c') ->
      (exists c, In c (podContainers pod ++ [metricsSideCar]) /\ In vm (cVolumeMounts c)) \/
      volumes !! vmName vm = Some (vmMountPath vm)) /\
  (forall config claimName,
      RenderMountPoint (dcMountPointPattern config) (Name (dcMeta config)) 0
      <> RenderMountPoint (dcMountPointPattern config) claimName 0 ->
      (forall cl pod metric mf family,
          ParsePrometheusMetric metric = Ok mf ->
          mf !! "node_filesystem_avail_bytes" = Some family ->
          mountpointOf family
          = RenderMountPoint (dcMountPointPattern config) claimName 0 ->
          monitorSample cl config pod metric = (cl, OtherMountpoint) \/
          monitorSample cl config pod metric = (cl, FailedToFindMountpoint)) /\
      (forall cl pod metric pvcName sent failed,
          (forall container0 rest vm,
              podContainers pod = container0 :: rest ->
              In vm (cVolumeMounts container0) ->
              vmName vm = claimName ->
              vmMountPath vm
              = RenderMountPoint (dcMountPointPattern config) claimName 0) ->
          snd (monitorSample cl config pod metric) = UpdatingPVC pvcName sent failed ->
          nnName pvcName <> claimName)).
Proof.
  split; [exact attachVolumes_rendered |].
  split; [exact attachSidecar_mounts |].
  intros config claimName Hdiffer. split.
  - intros cl pod metric mf family.
    now apply monitorSample_claim_mountpoint.
  - intros cl pod metric pvcName sent failed Hmounted.
    now apply monitorSample_other_claim.
Qed.

End MountPoints.

(** ** Text *)

Section Text.

Lemma append_cons (c : ascii) (r f : string) : String c r ++ f = String c (r ++ f).
Proof. reflexivity. Qed.

Lemma append_assoc (a b c : string) : (a ++ b) ++ c = a ++ (b ++ c).
Proof.
  induction a as [| x a IH]; [reflexivity |].
  rewrite !append_cons. now rewrite IH.
Qed.

Lemma append_cancel_l (x a b : string) : a = b -> x ++ a = x ++ b.
Proof. now intros ->. Qed.

Lemma Head_of (format : string) : Head format.
Proof.
  destruct format as [| c rest]; [exact HeadEmpty |].
  destruct (Ascii.eqb c "%") eqn:Hc; [| exact (HeadPlain c rest Hc)].
  apply Ascii.eqb_eq in Hc as ->.
  destruct rest as [| verb rest]; [exact HeadDangling |].
  destruct (Ascii.eqb verb "s") eqn:Hs;
    [apply Ascii.eqb_eq in Hs as ->; exact (HeadString rest) |].
  destruct (Ascii.eqb verb "%") eqn:Hp;
    [apply Ascii.eqb_eq in Hp as ->; exact (HeadPercent rest) |].
  exact (HeadOther verb rest Hs Hp).
Qed.

Lemma Sprintf_plain c rest args :
  Ascii.eqb c "%" = false -> Sprintf (String c rest) args = String c (Sprintf rest args).
Proof. intros Hc. cbn [Sprintf]. now rewrite Hc. Qed.

Lemma Sprintf_other verb rest args :
  Ascii.eqb verb "s" = false -> Ascii.eqb verb "%" = false ->
  Sprintf (String "%" (String verb rest)) args
  = String "%" (Sprintf (String verb rest) args).
Proof.
  intros Hs Hp.
  change (Sprintf (String "%" (String verb rest)) args)
    with (if Ascii.eqb verb "s"
          then match args with
               | a :: args' => a ++ Sprintf rest args'
               | [] => "%!s(MISSING)" ++ Sprintf rest []
               end
          else if Ascii.eqb verb "%" then String "%" (Sprintf rest args)
               else String "%" (Sprintf (String verb rest) args)).
  now rewrite Hs, Hp.
Qed.

Lemma remaining_plain c rest args :
  Ascii.eqb c "%" = false -> remaining (String c rest) args = remaining rest args.
Proof. intros Hc. cbn [remaining]. now rewrite Hc. Qed.

Lemma remaining_other verb rest args :
  Ascii.eqb verb "s" = false -> Ascii.eqb verb "%" = false ->
  remaining (String "%" (String verb rest)) args = remaining (String verb rest) args.
Proof.
  intros Hs Hp.
  change (remaining (String "%" (String verb rest)) args)
    with (if Ascii.eqb verb "s" then remaining rest (tail args)
          else if Ascii.eqb verb "%" then remaining rest args
               else remaining (String verb rest) args).
  now rewrite Hs, Hp.
Qed.

Lemma dangling_plain c rest :
  Ascii.eqb c "%" = false -> dangling (String c rest) = dangling rest.
Proof. intros Hc. cbn [dangling]. now rewrite Hc. Qed.

Lemma dangling_other verb rest :
  Ascii.eqb verb "s" = false -> Ascii.eqb verb "%" = false ->
  dangling (String "%" (String verb rest)) = dangling (String verb rest).
Proof.
  intros Hs Hp.
  change (dangling (String "%" (String verb rest)))
    with (if Ascii.eqb verb "s" then dangling rest
          else if Ascii.eqb verb "%" then dangling rest
               else dangling (String verb rest)).
  now rewrite Hs, Hp.
Qed.

Lemma Sprintf_app_le (n : nat) :
  forall f1, (String.length f1 <= n)%nat -> dangling f1 = false ->
  forall f2 args,
    Sprintf (f1 ++ f2) args = Sprintf f1 args ++ Sprintf f2 (remaining f1 args).
Proof.
  induction n as [| n IH]; intros f1 Hlen Hd f2 args.
  { destruct f1; [reflexivity | simpl in Hlen; lia]. }
  destruct (Head_of f1) as [| c rest Hc | rest | rest | verb rest Hs Hp |].
  - reflexivity.
  - rewrite append_cons, !Sprintf_plain, remaining_plain by assumption.
    rewrite dangling_plain in Hd by assumption. simpl in Hlen.
    rewrite (IH rest) by (assumption || lia). reflexivity.
  - simpl in Hlen.
    change (dangling rest = false) in Hd.
    change (Sprintf (String "%" (String "s" rest) ++ f2) args)
      with (match args with
            | a :: args' => a ++ Sprintf (rest ++ f2) args'
            | [] => "%!s(MISSING)" ++ Sprintf (rest ++ f2) []
            end).
    change (Sprintf (String "%" (String "s" rest)) args)
      with (match args with
            | a :: args' => a ++ Sprintf rest args'
            | [] => "%!s(MISSING)" ++ Sprintf rest []
            end).
    change (remaining (String "%" (String "s" rest)) args)
      with (remaining rest (tail args)).
    destruct args as [| a args]; rewrite (IH rest) by (assumption || lia);
      now rewrite append_assoc.
  - simpl in Hlen.
    change (dangling rest = false) in Hd.
    change (Sprintf (String "%" (String "%" rest) ++ f2) args)
      with (String "%" (Sprintf (rest ++ f2) args)).
    change (Sprintf (String "%" (String "%" rest)) args)
      with (String "%" (Sprintf rest args)).
    change (remaining (String "%" (String "%" rest)) args) with (remaining rest args).
    rewrite (IH rest) by (assumption || lia). reflexivity.
  - simpl in Hlen.
    rewrite !append_cons, !Sprintf_other, remaining_other by assumption.
    rewrite <- (append_cons verb rest f2).
    rewrite dangling_other in Hd by assumption.
    rewrite (IH (String verb rest)) by (assumption || (simpl; lia)). reflexivity.
  - discriminate Hd.
Qed.

(** Rendering a format in two parts: the second part is given the
    operands the first part leaves. *)
Lemma Sprintf_app (f1 f2 : string) (args : list string) :
  dangling f1 = false ->
  Sprintf (f1 ++ f2) args = Sprintf f1 args ++ Sprintf f2 (remaining f1 args).
Proof. intros Hd. now apply (Sprintf_app_le (String.length f1)). Qed.

Lemma Sprintf_hostJobTemplate (args : list string) :
  Sprintf hostJobTemplate args
  = Sprintf hostJobHead args ++ Sprintf hostJobCommand (remaining hostJobHead args).
Proof.
  replace hostJobTemplate with (hostJobHead ++ hostJobCommand) at 1
    by (vm_compute; reflexivity).
  apply Sprintf_app. vm_compute. reflexivity.
Qed.

End Text.

(** ** The rendered manifests *)

Section Manifests.

(** With the pre-command of the EBS driver the script of the job begins
    with the sleep. *)
Lemma mountJobManifest_ebs
    jobName pvcName pvName namespace nodeName fs mountPoint containerIDs hostPID volumeMeta :
  scriptBeginsWith
    (mountJobManifest jobName pvcName pvName namespace nodeName fs mountPoint containerIDs
       (ebs.Stdout (ebs.GetPreMountCommand ebs.noOutput)) hostPID volumeMeta)
    "sleep infinity ; ".
Proof.
  unfold scriptBeginsWith, mountJobManifest. rewrite Sprintf_hostJobTemplate.
  destruct hostPID; eexists; eexists; apply append_cancel_l; vm_compute; reflexivity.
Qed.

Lemma resizeJobManifest_ebs jobName pvcName pvName namespace nodeName fs volumeMeta :
  scriptBeginsWith
    (resizeJobManifest jobName pvcName pvName namespace nodeName fs
       (ebs.Stdout (ebs.GetPreResizeCommand ebs.noOutput)) volumeMeta)
    "sleep infinity ; ".
Proof.
  unfold scriptBeginsWith, resizeJobManifest. rewrite Sprintf_hostJobTemplate.
  eexists; eexists; apply append_cancel_l; vm_compute; reflexivity.
Qed.

(** C10. For the EBS driver [GetPreResizeCommand] writes exactly what
    [GetPreMountCommand] writes: the text [sleep infinity ; ] followed by
    the pipeline that computes [DEV]. Every mount and every resize manifest
    rendered with that pre-command has a script that begins with
    [sleep infinity ; ]. *)
Theorem C10_ebs_pre_command :
  (forall io, ebs.GetPreResizeCommand io = ebs.GetPreMountCommand io) /\
  (forall io,
      ebs.Stdout (ebs.GetPreMountCommand io) =
      ebs.Stdout io ++ "sleep infinity ; " ++
      "DEV=$(chroot /host nsenter --target 1 --mount mount | grep ${PV_NAME} | awk '{print $1}')") /\
  (forall io, ebs.Stderr (ebs.GetPreMountCommand io) = ebs.Stderr io) /\
  (forall jobName pvcName pvName namespace nodeName fs mountPoint containerIDs hostPID
          volumeMeta,
      scriptBeginsWith
        (mountJobManifest jobName pvcName pvName namespace nodeName fs mountPoint
           containerIDs (ebs.Stdout (ebs.GetPreMountCommand ebs.noOutput)) hostPID
           volumeMeta)
        "sleep infinity ; ") /\
  (forall jobName pvcName pvName namespace nodeName fs volumeMeta,
      scriptBeginsWith
        (resizeJobManifest jobName pvcName pvName namespace nodeName fs
           (ebs.Stdout (ebs.GetPreResizeCommand ebs.noOutput)) volumeMeta)
        "sleep infinity ; ").
Proof.
  split; [reflexivity |]. split; [reflexivity |]. split; [reflexivity |].
  split; [exact mountJobManifest_ebs | exact resizeJobManifest_ebs].
Qed.

End Manifests.

(** ** The mountpoint label of a line *)

Section Mountpoint.

Lemma last_cons_default {A : Type} (l : list A) (a d : A) :
  List.last (a :: l) d = List.last l a.
Proof.
  revert a d. induction l as [| b l IH]; intros a d; [reflexivity |].
  change (List.last (a :: b :: l) d) with (List.last (b :: l) d).
  now rewrite !IH.
Qed.

Lemma fold_left_concat {A B : Type} (f : A -> B -> A) (ls : list (list B)) :
  forall init,
    fold_left (fun acc l => fold_left f l acc) ls init = fold_left f (List.concat ls) init.
Proof.
  induction ls as [| l ls IH]; intros init; simpl; [reflexivity |].
  now rewrite fold_left_app, IH.
Qed.

Lemma mountpoint_fold (labels : list LabelPair) :
  forall init,
    fold_left
      (fun mountpoint l =>
         if String.eqb (lpName l) "mountpoint" then lpValue l else mountpoint)
      labels init
    = List.last (List.map lpValue (List.filter isMountpoint labels)) init.
Proof.
  induction labels as [| l labels IH]; intros init; [reflexivity |].
  cbn [fold_left List.filter]. rewrite IH.
  change (isMountpoint l) with (String.eqb (lpName l) "mountpoint").
  destruct (String.eqb (lpName l) "mountpoint"); [| reflexivity].
  cbn [List.map]. now rewrite last_cons_default.
Qed.

(** X1. The mountpoint of a line is the value of the last label named
    [mountpoint] among all the labels of all the metrics of the family,
    and the empty string when there is no such label. *)
Theorem mountpointOf_last (family : MetricFamily) :
  mountpointOf family
  = List.last (List.map lpValue (List.filter isMountpoint (labelsOf family))) "".
Proof.
  unfold mountpointOf, labelsOf.
  rewrite (fold_left_concat
             (fun mountpoint (l : LabelPair) =>
                if String.eqb (lpName l) "mountpoint" then lpValue l else mountpoint)).
  apply mountpoint_fold.
Qed.

End Mountpoint.


(** ** The lines of a body *)

Section Lines.

Lemma SplitLines_nonempty (s : string) : SplitLines s <> [].
Proof.
  destruct s as [| c s]; [discriminate |]. simpl.
  destruct (Ascii.eqb c lineFeed); [discriminate |].
  destruct (SplitLines s); discriminate.
Qed.

(** [strings.Split] and [strings.Join] on the line feed are inverse to
    each other: the lines of a body, joined again, are the body. *)
Lemma SplitLines_Join (s : string) : Join (SplitLines s) nl = s.
Proof.
  unfold Join. induction s as [| c s IH]; [reflexivity |].
  pose proof (SplitLines_nonempty s) as Hsome. cbn [SplitLines].
  destruct (Ascii.eqb c lineFeed) eqn:Hc.
  - apply Ascii.eqb_eq in Hc as ->.
    destruct (SplitLines s) as [| line lines]; [contradiction |].
    change (String.concat nl ("" :: line :: lines))
      with (String lineFeed (String.concat nl (line :: lines))).
    now rewrite IH.
  - destruct (SplitLines s) as [| line lines]; [contradiction |].
    destruct lines as [| line' lines].
    + simpl in IH |- *. now rewrite IH.
    + change (String.concat nl (String c line :: line' :: lines))
        with (String c (String.concat nl (line :: line' :: lines))).
      now rewrite IH.
Qed.

End Lines.

Section Substrings.

Lemma HasPrefix_spec (s prefix : string) :
  HasPrefix s prefix = true <-> exists back, s = prefix ++ back.
Proof.
  unfold HasPrefix. revert s.
  induction prefix as [| a p IH]; intros s.
  - split; [intros _; now exists s | now destruct s].
  - destruct s as [| b s]; simpl.
    + split; [discriminate | intros (back & Hs); discriminate Hs].
    + destruct (ascii_dec a b) as [<- | Hne].
      * rewrite IH. split.
        -- intros (back & ->). now exists back.
        -- intros (back & Hs). rewrite append_cons in Hs. injection Hs as ->. now exists back.
      * split; [discriminate |].
        intros (back & Hs). rewrite append_cons in Hs. injection Hs as -> _. contradiction.
Qed.

(** [strings.Contains]: the text occurs somewhere in the line. *)
Lemma Contains_spec (s substr : string) :
  Contains s substr = true <-> exists front back, s = front ++ substr ++ back.
Proof.
  induction s as [| c s IH].
  - cbn [Contains]. rewrite orb_false_r. fold (HasPrefix "" substr). rewrite HasPrefix_spec.
    split.
    + intros (back & Hs). now exists "", back.
    + intros (front & back & Hs). destruct front; [now exists back | discriminate Hs].
  - cbn [Contains]. rewrite orb_true_iff, IH.
    fold (HasPrefix (String c s) substr). rewrite HasPrefix_spec. split.
    + intros [(back & Hs) | (front & back & ->)].
      * now exists "", back.
      * now exists (String c front), back.
    + intros (front & back & Hs). destruct front as [| c' front].
      * left. now exists back.
      * right. rewrite append_cons in Hs. injection Hs as _ ->. now exists front, back.
Qed.

End Substrings.

(** ** The scrape *)

Section Scrape.
Context `{Network}.

Lemma scrapeEach_cons {A : Type} (body : Scrape -> A -> Scrape) x xs sc :
  scrapeEach body (x :: xs) sc
  = scrapeEach body xs (if scPanicked sc then sc else body sc x).
Proof. reflexivity. Qed.

Lemma scrapeEach_app {A : Type} (body : Scrape -> A -> Scrape) xs ys sc :
  scrapeEach body (xs ++ ys)%list sc = scrapeEach body ys (scrapeEach body xs sc).
Proof. apply fold_left_app. Qed.

(** Once the scrape has died nothing more is done. *)
Lemma scrapeEach_panicked {A : Type} (body : Scrape -> A -> Scrape) xs sc :
  scPanicked sc = true -> scrapeEach body xs sc = sc.
Proof.
  intros Hp. induction xs as [| x xs IH]; [reflexivity |].
  rewrite scrapeEach_cons, Hp. exact IH.
Qed.

Lemma scrapeEach_ext {A : Type} (body body' : Scrape -> A -> Scrape) xs :
  (forall sc x, body sc x = body' sc x) ->
  forall sc, scrapeEach body xs sc = scrapeEach body' xs sc.
Proof.
  intros Hext. induction xs as [| x xs IH]; intros sc; [reflexivity |].
  rewrite !scrapeEach_cons, Hext. apply IH.
Qed.

Lemma scrapeEach_map {A B : Type} (g : A -> B) (body : Scrape -> B -> Scrape) xs :
  forall sc, scrapeEach body (List.map g xs) sc = scrapeEach (fun sc x => body sc (g x)) xs sc.
Proof.
  induction xs as [| x xs IH]; intros sc; [reflexivity |].
  simpl List.map. rewrite !scrapeEach_cons. apply IH.
Qed.

(** A loop in a loop is one loop over the elements in the order they are
    met. *)
Lemma scrapeEach_flat_map {A B : Type} (f : A -> list B) (body : Scrape -> B -> Scrape) xs :
  forall sc,
    scrapeEach (fun sc x => scrapeEach body (f x) sc) xs sc
    = scrapeEach body (flat_map f xs) sc.
Proof.
  induction xs as [| x xs IH]; intros sc; [reflexivity |].
  simpl flat_map. rewrite scrapeEach_cons, scrapeEach_app.
  destruct (scPanicked sc) eqn:Hp; [| apply IH].
  rewrite IH. now rewrite (scrapeEach_panicked body (f x) sc Hp).
Qed.

Lemma scrapeEndpoints_addresses (endpoints : list Endpoints) :
  scrapeEndpoints endpoints = scrapeAddresses (addressesOf endpoints) noScrape.
Proof.
  unfold scrapeEndpoints, scrapeAddresses, addressesOf.
  rewrite <- scrapeEach_flat_map. apply scrapeEach_ext. intros sc endpoint.
  rewrite <- scrapeEach_flat_map. apply scrapeEach_ext. intros sc' ss.
  now rewrite scrapeEach_map.
Qed.

Lemma scrapeAddresses_snoc l p sc :
  scrapeAddresses (l ++ [p])%list sc
  = if scPanicked (scrapeAddresses l sc) then scrapeAddresses l sc
    else scrapeAddress (fst p) (scrapeAddresses l sc) (snd p).
Proof. unfold scrapeAddresses. now rewrite scrapeEach_app. Qed.

Lemma appended_default {A : Type} (l : list A) : default [] (appended l) = l.
Proof. now destruct l. Qed.

Lemma appended_snoc {A : Type} (l : list A) (x : A) : appended (l ++ [x])%list = Some (l ++ [x])%list.
Proof. now destruct l. Qed.

Lemma scrapeLine_kept podName sc line :
  scrapeLine podName sc line
  = if keptLine line
    then {| scDiscoblocks := scDiscoblocks sc;
            scMetrics :=
              <[podName := (default [] (scMetrics sc !! podName) ++ [line])%list]>
                (scMetrics sc);
            scPanicked := scPanicked sc |}
    else sc.
Proof. unfold scrapeLine, keptLine. now destruct (_ || _). Qed.

(** The lines of one body: the kept ones are appended to the entry of the
    pod, and nothing else changes. *)
Lemma scrapeLines podName lines :
  forall sc kept,
    scMetrics sc !! podName = appended kept ->
    let sc' := fold_left (scrapeLine podName) lines sc in
    scMetrics sc' !! podName = appended (kept ++ List.filter keptLine lines)%list /\
    (forall other, other <> podName -> scMetrics sc' !! other = scMetrics sc !! other) /\
    scDiscoblocks sc' = scDiscoblocks sc /\
    scPanicked sc' = scPanicked sc.
Proof.
  induction lines as [| line lines IH]; intros sc kept Hentry; simpl.
  - rewrite app_nil_r. auto.
  - rewrite scrapeLine_kept. destruct (keptLine line).
    + rewrite Hentry, appended_default.
      match goal with
      | |- context [fold_left _ lines ?s] =>
          destruct (IH s (kept ++ [line])%list) as (Hpod & Hother & Hdisco & Hpanic)
      end.
      { simpl. rewrite lookup_insert_eq. symmetry. apply appended_snoc. }
      rewrite <- app_assoc in Hpod. simpl in Hpod.
      split; [exact Hpod |]. split; [| split; assumption].
      intros other Hne. rewrite (Hother other Hne). now apply lookup_insert_ne.
    + now apply IH.
Qed.

Lemma advertised_snoc podName l p :
  advertised podName (l ++ [p])
  = (advertised podName l
     ++ if targets podName (snd p) then [label (epMeta (fst p)) "discoblocks"] else [])%list.
Proof.
  unfold advertised. rewrite List.filter_app, List.map_app. simpl.
  now destruct (targets podName (snd p)).
Qed.

Lemma scraped_snoc podName l p :
  scraped podName (l ++ [p])
  = (scraped podName l ++ if targets podName (snd p) then keptLines (snd p) else [])%list.
Proof.
  unfold scraped. rewrite List.filter_app, flat_map_app. simpl.
  destruct (targets podName (snd p)); simpl; now rewrite ?app_nil_r.
Qed.

(** What the scrape of the addresses of [l] has entered for every pod,
    unless it has died. *)
Lemma scrapeAddresses_entries l :
  scPanicked (scrapeAddresses l noScrape) = false ->
  forall podName,
    scDiscoblocks (scrapeAddresses l noScrape) !! podName = appended (advertised podName l) /\
    scMetrics (scrapeAddresses l noScrape) !! podName = appended (scraped podName l).
Proof.
  induction l as [| p l IH] using rev_ind.
  - intros _ podName. split; apply lookup_empty.
  - rewrite scrapeAddresses_snoc.
    destruct (scPanicked (scrapeAddresses l noScrape)) eqn:Hbefore; [congruence |].
    specialize (IH eq_refl). intros Hafter podName.
    rewrite advertised_snoc, scraped_snoc. unfold targets.
    unfold scrapeAddress in Hafter |- *.
    destruct (TargetRef (snd p)) as [ref |]; [| discriminate Hafter].
    set (target := {| nnNamespace := refNamespace ref; nnName := refName ref |}) in *.
    set (before := scrapeAddresses l noScrape) in *.
    set (sc := {| scDiscoblocks := _; scMetrics := scMetrics before;
                  scPanicked := scPanicked before |}) in *.
    assert (exists sc',
              match HttpGet (Sprintf "http://%s:9100/metrics" [IP (snd p)]) with
              | Ok rawBody => fold_left (scrapeLine target) (SplitLines rawBody) sc
              | Err _ => sc
              end = sc' /\
              scDiscoblocks sc' = scDiscoblocks sc /\
              scMetrics sc' !! target
              = appended (scraped target l ++ keptLines (snd p))%list /\
              (forall other, other <> target ->
                             scMetrics sc' !! other = scMetrics before !! other))
      as (sc' & -> & Hdisco & Hpod & Hother).
    { eexists. split; [reflexivity |]. unfold keptLines.
      destruct (HttpGet _) as [rawBody | e].
      - destruct (scrapeLines target (SplitLines rawBody) sc (scraped target l))
          as (Hpod & Hother & Hdisco & _); [apply IH |]. auto.
      - rewrite app_nil_r. split; [reflexivity |]. split; [apply IH | auto]. }
    rewrite Hdisco. subst sc. cbn [scDiscoblocks].
    destruct (bool_decide (target = podName)) eqn:Hsame.
    + apply bool_decide_eq_true in Hsame. subst podName.
      rewrite lookup_insert_eq. rewrite (proj1 (IH target)), appended_default.
      split; [| exact Hpod]. symmetry. apply appended_snoc.
    + apply bool_decide_eq_false in Hsame.
      rewrite lookup_insert_ne by assumption.
      rewrite !app_nil_r. rewrite (Hother podName) by congruence. apply IH.
Qed.

Lemma scrapeLines_frame podName lines :
  forall sc,
    scDiscoblocks (fold_left (scrapeLine podName) lines sc) = scDiscoblocks sc /\
    scPanicked (fold_left (scrapeLine podName) lines sc) = scPanicked sc.
Proof.
  induction lines as [| line lines IH]; intros sc; simpl; [auto |].
  destruct (IH (scrapeLine podName sc line)) as [-> ->].
  unfold scrapeLine. now destruct (_ || _).
Qed.

Lemma scrapeAddress_panicked endpoint sc ip :
  scPanicked (scrapeAddress endpoint sc ip)
  = match TargetRef ip with
    | None => true
    | Some _ => scPanicked sc
    end.
Proof.
  unfold scrapeAddress. destruct (TargetRef ip) as [ref |]; [| reflexivity].
  destruct (HttpGet _) as [rawBody | e]; [| reflexivity].
  now rewrite (proj2 (scrapeLines_frame _ _ _)).
Qed.

(** The scrape dies exactly when it meets an address without a target. *)
Lemma scrapeAddresses_panicked l :
  scPanicked (scrapeAddresses l noScrape) = true <->
  exists p, In p l /\ TargetRef (snd p) = None.
Proof.
  induction l as [| p l IH] using rev_ind.
  - split; [discriminate | intros (p & [] & _)].
  - rewrite scrapeAddresses_snoc.
    destruct (scPanicked (scrapeAddresses l noScrape)) eqn:Hbefore.
    + rewrite Hbefore. split; [| reflexivity].
      intros _. destruct (proj1 IH eq_refl) as (q & Hin & Hnil).
      exists q. split; [apply in_or_app; now left | assumption].
    + rewrite scrapeAddress_panicked, Hbefore.
      destruct (TargetRef (snd p)) as [ref |] eqn:Href.
      * split; [discriminate |]. intros (q & Hin & Hnil).
        apply in_app_or in Hin as [Hin | [<- | []]]; [| congruence].
        apply IH. eauto.
      * split; [| reflexivity]. intros _. exists p.
        split; [apply in_or_app; right; now left | assumption].
Qed.

End Scrape.

(** ** A monitor cycle from the scrape to the last update *)

Section Cycle.
Context `{Utils} `{Resource} `{Client}.

(** X2. The only writes of a monitor cycle are the claim updates its trace
    shows: the cluster it leaves is the cluster it started on after those
    updates, sent in that order. A cycle without an update leaves the
    cluster as it found it. *)
Theorem MonitorVolumes_replay cl discoblocks metrics :
  msCluster (MonitorVolumes cl discoblocks metrics)
  = replayUpdates (msTrace (MonitorVolumes cl discoblocks metrics)) cl /\
  ((forall podName config metric pvcName sent failed,
       ~ In (Sample podName config metric (UpdatingPVC pvcName sent failed))
           (msTrace (MonitorVolumes cl discoblocks metrics))) ->
   msCluster (MonitorVolumes cl discoblocks metrics) = cl).
Proof.
  assert (msCluster (MonitorVolumes cl discoblocks metrics)
          = replayUpdates (msTrace (MonitorVolumes cl discoblocks metrics)) cl) as Hreplay.
  { unfold MonitorVolumes. cbv zeta.
    destruct (bool_decide (size metrics = 0%nat)); [reflexivity |].
    apply (forEach_invariant (replayedFrom cl));
      [intros; now apply monitorPod_replayed | reflexivity]. }
  split; [exact Hreplay |].
  intros Hnone. rewrite Hreplay. now apply replayUpdates_no_update.
Qed.

(** *** A pod without containers *)

Lemma inRange_snoc trace ev :
  inRange trace ->
  (forall podName config metric, ev <> Sample podName config metric IndexOutOfRange) ->
  inRange (trace ++ [ev]).
Proof.
  intros Htrace Hev podName config metric Hin.
  apply in_app_or in Hin as [Hin | [Heq | []]].
  - exact (Htrace _ _ _ Hin).
  - exact (Hev _ _ _ Heq).
Qed.

Lemma logEvent_alive st ev :
  msPanicked st = false ->
  (forall podName config metric, ev <> Sample podName config metric IndexOutOfRange) ->
  alive st -> alive (logEvent st ev).
Proof.
  unfold alive, logEvent; simpl. intros -> Hev Hst. now apply inRange_snoc.
Qed.

Lemma monitorMetric_alive podName pod config st metric :
  msPanicked st = false -> alive st -> alive (monitorMetric podName pod config st metric).
Proof.
  unfold alive, monitorMetric. intros -> Hst.
  destruct (monitorSample (msCluster st) config pod metric) as [cl o]; simpl.
  destruct o; try (apply inRange_snoc; [assumption | intros ? ? ?; discriminate]).
  exists (msTrace st), podName, config, metric. auto.
Qed.

Lemma monitorDiskConfig_alive podName pod metricsOfPod st diskConfigName :
  msPanicked st = false ->
  alive st -> alive (monitorDiskConfig podName pod metricsOfPod st diskConfigName).
Proof.
  intros Hrun Hst. unfold monitorDiskConfig. cbv zeta.
  destruct (diskConfigCache st !! _) as [config |].
  - destruct (Pause (dcPolicy config)).
    + apply logEvent_alive; [assumption | intros ? ? ?; discriminate | assumption].
    + apply forEach_invariant_in; [| assumption].
      intros; now apply monitorMetric_alive.
  - destruct (GetDiskConfig (msCluster st) _) as [config | e | e].
    + destruct (Pause (dcPolicy config)).
      * apply logEvent_alive; [assumption | intros ? ? ?; discriminate | assumption].
      * apply forEach_invariant_in; [| assumption].
        intros; now apply monitorMetric_alive.
    + apply logEvent_alive; [assumption | intros ? ? ?; discriminate | assumption].
    + apply logEvent_alive; [assumption | intros ? ? ?; discriminate | assumption].
Qed.

Lemma monitorPod_alive metrics st entry :
  msPanicked st = false -> alive st -> alive (monitorPod metrics st entry).
Proof.
  intros Hrun Hst. unfold monitorPod. destruct entry as [podName diskConfigNames].
  destruct (GetPod (msCluster st) podName) as [pod | e | e].
  - apply forEach_invariant_in; [| assumption].
    intros; now apply monitorDiskConfig_alive.
  - apply logEvent_alive; [assumption | intros ? ? ?; discriminate | assumption].
  - apply logEvent_alive; [assumption | intros ? ? ?; discriminate | assumption].
Qed.

Lemma MonitorVolumes_alive cl discoblocks metrics :
  alive (MonitorVolumes cl discoblocks metrics).
Proof.
  unfold MonitorVolumes. cbv zeta.
  destruct (bool_decide (size metrics = 0%nat)).
  - apply logEvent_alive; [reflexivity | intros ? ? ?; discriminate |].
    intros ? ? ? [].
  - apply forEach_invariant_in; [intros; now apply monitorPod_alive |].
    intros ? ? ? [].
Qed.

(** X3. A line that is read for a pod without containers ends the cycle:
    its sample is the last event of the trace, whatever pods, configurations
    and lines were still to come, and it is the only one of its kind. *)
Theorem MonitorVolumes_dies_on_last cl discoblocks metrics before podName config metric after :
  msTrace (MonitorVolumes cl discoblocks metrics)
  = (before ++ Sample podName config metric IndexOutOfRange :: after)%list ->
  after = [] /\ inRange before /\
  msPanicked (MonitorVolumes cl discoblocks metrics) = true.
Proof.
  intros Htrace.
  pose proof (MonitorVolumes_alive cl discoblocks metrics) as Halive.
  unfold alive in Halive.
  destruct (msPanicked (MonitorVolumes cl discoblocks metrics)).
  - destruct Halive as (before' & podName' & config' & metric' & Hlast & Hrange).
    rewrite Hlast in Htrace.
    destruct after as [| ev after _] using rev_ind.
    + apply app_inj_tail in Htrace as [-> _]. auto.
    + exfalso. change (before ++ Sample podName config metric IndexOutOfRange :: after ++ [ev])%list
        with (before ++ (Sample podName config metric IndexOutOfRange :: after) ++ [ev])%list
        in Htrace.
      rewrite app_assoc in Htrace. apply app_inj_tail in Htrace as [-> _].
      apply (Hrange podName config metric). apply in_or_app. right. now left.
  - exfalso. apply (Halive podName config metric). rewrite Htrace.
    apply in_or_app. right. now left.
Qed.

End Cycle.

Section Provenance.
Context `{Utils} `{Resource} `{Client}.
Variable discoblocks : list (NamespacedName * list string).
Variable metrics : gmap NamespacedName (list string).

Lemma logEvent_from st ev :
  sampledFrom discoblocks metrics ev ->
  Forall (sampledFrom discoblocks metrics) (msTrace st) ->
  Forall (sampledFrom discoblocks metrics) (msTrace (logEvent st ev)).
Proof.
  intros Hev Hst. unfold logEvent; simpl.
  apply Forall_app. split; [assumption | now constructor].
Qed.

Lemma monitorMetric_from podName pod config st metric :
  Pause (dcPolicy config) = false ->
  In metric (default [] (metrics !! podName)) ->
  (exists diskConfigNames, In (podName, diskConfigNames) discoblocks) ->
  Forall (sampledFrom discoblocks metrics) (msTrace st) ->
  Forall (sampledFrom discoblocks metrics)
    (msTrace (monitorMetric podName pod config st metric)).
Proof.
  intros Hrun Hline Hpod Hst. unfold monitorMetric.
  destruct (monitorSample (msCluster st) config pod metric) as [cl o]; simpl.
  apply Forall_app. split; [assumption |].
  constructor; [| constructor]. simpl. auto.
Qed.

Lemma monitorDiskConfig_from podName pod st diskConfigName :
  (exists diskConfigNames, In (podName, diskConfigNames) discoblocks) ->
  Forall (sampledFrom discoblocks metrics) (msTrace st) ->
  Forall (sampledFrom discoblocks metrics)
    (msTrace (monitorDiskConfig podName pod (default [] (metrics !! podName)) st
                diskConfigName)).
Proof.
  intros Hpod Hst. unfold monitorDiskConfig. cbv zeta.
  destruct (diskConfigCache st !! _) as [config |].
  - destruct (Pause (dcPolicy config)) eqn:Hpause.
    + now apply logEvent_from.
    + apply (forEach_invariant_in
               (fun st => Forall (sampledFrom discoblocks metrics) (msTrace st)));
        [| assumption].
      intros st' metric Hin _. now apply monitorMetric_from.
  - destruct (GetDiskConfig (msCluster st) _) as [config | e | e].
    + destruct (Pause (dcPolicy config)) eqn:Hpause.
      * now apply logEvent_from.
      * apply (forEach_invariant_in
                 (fun st => Forall (sampledFrom discoblocks metrics) (msTrace st)));
          [| assumption].
        intros st' metric Hin _. now apply monitorMetric_from.
    + now apply logEvent_from.
    + now apply logEvent_from.
Qed.

Lemma monitorPod_from st entry :
  In entry discoblocks ->
  Forall (sampledFrom discoblocks metrics) (msTrace st) ->
  Forall (sampledFrom discoblocks metrics) (msTrace (monitorPod metrics st entry)).
Proof.
  intros Hentry Hst. unfold monitorPod. destruct entry as [podName diskConfigNames].
  destruct (GetPod (msCluster st) podName) as [pod | e | e].
  - apply (forEach_invariant_in
             (fun st => Forall (sampledFrom discoblocks metrics) (msTrace st)));
      [| assumption].
    intros st' name _ _. apply monitorDiskConfig_from. eauto.
  - now apply logEvent_from.
  - now apply logEvent_from.
Qed.

Lemma MonitorVolumes_from cl :
  Forall (sampledFrom discoblocks metrics) (msTrace (MonitorVolumes cl discoblocks metrics)).
Proof.
  unfold MonitorVolumes. cbv zeta.
  destruct (bool_decide (size metrics = 0%nat)).
  - apply logEvent_from; [exact I | constructor].
  - apply (forEach_invariant_in
             (fun st => Forall (sampledFrom discoblocks metrics) (msTrace st)));
      [| constructor].
    intros st entry Hin _. now apply monitorPod_from.
Qed.

End Provenance.

Section WholeCycle.
Context `{Utils} `{Resource} `{Network}.

Lemma scraped_kept podName l line :
  In line (scraped podName l) ->
  HasPrefix line "#" = false /\ Contains line metricName = true.
Proof.
  unfold scraped. intros Hin.
  apply in_flat_map in Hin as (p & _ & Hin). unfold keptLines in Hin.
  destruct (HttpGet _) as [rawBody | e]; [| destruct Hin].
  apply List.filter_In in Hin as [_ Hkept]. unfold keptLine in Hkept.
  apply negb_true_iff, orb_false_iff in Hkept as [Hcomment Hmetric].
  apply negb_false_iff in Hmetric. auto.
Qed.

Lemma scraped_nil podName l :
  (forall endpoint ip, In (endpoint, ip) l -> keptLines ip = []) ->
  scraped podName l = [].
Proof.
  unfold scraped. induction l as [| [endpoint ip] l IH]; intros Hnone; [reflexivity |].
  simpl. destruct (targets podName ip); simpl.
  - rewrite (Hnone endpoint ip) by now left. apply IH.
    intros endpoint' ip' Hin. apply (Hnone endpoint'). now right.
  - apply IH. intros endpoint' ip' Hin. apply (Hnone endpoint'). now right.
Qed.

Lemma scrapeEndpoints_entries (endpoints : list Endpoints) :
  scPanicked (scrapeEndpoints endpoints) = false ->
  forall podName,
    scDiscoblocks (scrapeEndpoints endpoints) !! podName
    = appended (advertised podName (addressesOf endpoints)) /\
    scMetrics (scrapeEndpoints endpoints) !! podName
    = appended (scraped podName (addressesOf endpoints)).
Proof. rewrite scrapeEndpoints_addresses. apply scrapeAddresses_entries. Qed.

(** X4. Unless the scrape dies, the entry of a pod in [discoblocks] is the
    [discoblocks] label of the endpoints of every address that points at
    the pod, one per address and in the order of the loops, whether or not
    the exporter at the address answers; a pod that no address points at
    has no entry. *)
Theorem scrape_discoblocks (endpoints : list Endpoints) (podName : NamespacedName) :
  scPanicked (scrapeEndpoints endpoints) = false ->
  scDiscoblocks (scrapeEndpoints endpoints) !! podName
  = appended (advertised podName (addressesOf endpoints)).
Proof.
  intros Hrun. now apply scrapeEndpoints_entries.
Qed.

(** X5. Unless the scrape dies, the entry of a pod in [metrics] is made of
    the lines of the bodies read from the addresses that point at the pod,
    in the order read, that do not start with [#] and contain
    [node_filesystem_avail_bytes]; a pod for which no such line was read
    has no entry. *)
Theorem scrape_metrics (endpoints : list Endpoints) (podName : NamespacedName) :
  scPanicked (scrapeEndpoints endpoints) = false ->
  scMetrics (scrapeEndpoints endpoints) !! podName
  = appended (scraped podName (addressesOf endpoints)) /\
  (forall line,
      In line (scraped podName (addressesOf endpoints)) ->
      HasPrefix line "#" = false /\ Contains line metricName = true).
Proof.
  intros Hrun. split.
  - now apply scrapeEndpoints_entries.
  - apply scraped_kept.
Qed.

(** X6. A monitor cycle dies on a nil pointer exactly when the endpoints
    are listed and one of their addresses has no [TargetRef]. *)
Theorem MonitorVolumesCycle_nil_target (cl : Cluster) :
  MonitorVolumesCycle cl = NilTargetRef <->
  exists endpoints endpoint ip,
    ListEndpoints cl = Ok endpoints /\
    In (endpoint, ip) (addressesOf endpoints) /\
    TargetRef ip = None.
Proof.
  unfold MonitorVolumesCycle. split.
  - destruct (ListEndpoints cl) as [endpoints | e]; [| discriminate].
    destruct (scPanicked (scrapeEndpoints endpoints)) eqn:Hp; [| discriminate].
    intros _. rewrite scrapeEndpoints_addresses in Hp.
    apply scrapeAddresses_panicked in Hp as ([endpoint ip] & Hin & Hnil).
    exists endpoints, endpoint, ip. auto.
  - intros (endpoints & endpoint & ip & -> & Hin & Hnil).
    assert (scPanicked (scrapeEndpoints endpoints) = true) as ->; [| reflexivity].
    rewrite scrapeEndpoints_addresses. apply scrapeAddresses_panicked.
    exists (endpoint, ip). auto.
Qed.

(** X7. Every sample of a monitor cycle is about a line that was read from
    an exporter of its pod, does not start with [#] and contains
    [node_filesystem_avail_bytes], for a pod that an address of the listed
    endpoints points at, and under a configuration that is not paused. *)
Theorem MonitorVolumesCycle_samples cl endpoints st podName config metric o :
  ListEndpoints cl = Ok endpoints ->
  MonitorVolumesCycle cl = Monitored st ->
  In (Sample podName config metric o) (msTrace st) ->
  Pause (dcPolicy config) = false /\
  In metric (scraped podName (addressesOf endpoints)) /\
  HasPrefix metric "#" = false /\
  Contains metric metricName = true /\
  advertised podName (addressesOf endpoints) <> [].
Proof.
  unfold MonitorVolumesCycle. intros -> Hcycle Hin.
  destruct (scPanicked (scrapeEndpoints endpoints)) eqn:Hrun; [discriminate |].
  injection Hcycle as <-.
  pose proof (MonitorVolumes_from
                (map_to_list (scDiscoblocks (scrapeEndpoints endpoints)))
                (scMetrics (scrapeEndpoints endpoints)) cl) as Hall.
  rewrite List.Forall_forall in Hall. specialize (Hall _ Hin).
  destruct Hall as (Hpause & Hline & names & Hpod).
  rewrite (proj2 (scrapeEndpoints_entries endpoints Hrun podName)), appended_default in Hline.
  split; [assumption |]. split; [assumption |].
  destruct (scraped_kept _ _ _ Hline) as [Hcomment Hmetric].
  split; [assumption |]. split; [assumption |].
  apply list_elem_of_In, elem_of_map_to_list in Hpod.
  rewrite (proj1 (scrapeEndpoints_entries endpoints Hrun podName)) in Hpod.
  intros Hnone. rewrite Hnone in Hpod. discriminate.
Qed.

(** X8. When no exporter delivers a line worth keeping, the cycle ends
    with [Metrics data not found] as its only event, and the cluster is as
    it was. *)
Theorem MonitorVolumesCycle_no_lines cl endpoints st :
  ListEndpoints cl = Ok endpoints ->
  (forall endpoint ip, In (endpoint, ip) (addressesOf endpoints) -> keptLines ip = []) ->
  MonitorVolumesCycle cl = Monitored st ->
  msTrace st = [MetricsDataNotFound] /\ msCluster st = cl /\ msPanicked st = false.
Proof.
  unfold MonitorVolumesCycle. intros -> Hnone Hcycle.
  destruct (scPanicked (scrapeEndpoints endpoints)) eqn:Hrun; [discriminate |].
  injection Hcycle as <-.
  assert (scMetrics (scrapeEndpoints endpoints) = ∅) as ->.
  { apply map_eq. intros podName.
    rewrite (proj2 (scrapeEndpoints_entries endpoints Hrun podName)), lookup_empty.
    assert (scraped podName (addressesOf endpoints) = []) as ->; [| reflexivity].
    now apply scraped_nil. }
  unfold MonitorVolumes. cbv zeta. rewrite bool_decide_eq_true_2 by apply map_size_empty.
  auto.
Qed.

End WholeCycle.

(** ** The reconciler *)

Section Reconciler.
Context `{Client}.

(** X9. A reconcile never asks for a requeue once it holds the gate, and
    it writes at most once: the status of the configuration that the label
    of the claim names. In that status the entry of the claim is its phase,
    or is gone when the claim is being deleted; the entries of the other
    claims and everything outside the status are sent back as read. *)
Theorem reconcileLocked_status cl req :
  Requeue (fst (fst (reconcileLocked cl req))) = false /\
  (snd (reconcileLocked cl req) = cl \/
   exists pvc config config',
     GetPersistentVolumeClaim cl (reqNamespacedName req) = Found pvc /\
     GetDiskConfig cl {| nnNamespace := Namespace (pvcMeta pvc);
                         nnName := label (pvcMeta pvc) "discoblocks" |} = Found config /\
     snd (reconcileLocked cl req) = fst (UpdateDiskConfigStatus cl config') /\
     dcMeta config' = dcMeta config /\
     dcStorageClassName config' = dcStorageClassName config /\
     dcCapacity config' = dcCapacity config /\
     dcMountPointPattern config' = dcMountPointPattern config /\
     dcPodSelector config' = dcPodSelector config /\
     dcAccessModes config' = dcAccessModes config /\
     dcPolicy config' = dcPolicy config /\
     dcPersistentVolumeClaims config' !! Name (pvcMeta pvc)
     = match DeletionTimestamp (pvcMeta pvc) with
       | Some _ => None
       | None => Some (pvcPhase pvc)
       end /\
     forall other,
       other <> Name (pvcMeta pvc) ->
       dcPersistentVolumeClaims config' !! other = dcPersistentVolumeClaims config !! other).
Proof.
  unfold reconcileLocked.
  destruct (GetPersistentVolumeClaim cl _) as [pvc | e | e] eqn:Hpvc;
    [| now split; [| left] ..].
  destruct (GetDiskConfig cl _) as [config | e | e] eqn:Hconfig; [| now split; [| left] ..].
  cbv zeta.
  match goal with
  | |- context [UpdateDiskConfigStatus cl ?c] => set (config' := c)
  end.
  split.
  - now destruct (UpdateDiskConfigStatus cl config') as [cl' [e |]].
  - right. exists pvc, config, config'.
    split; [reflexivity |]. split; [exact Hconfig |]. split.
    { now destruct (UpdateDiskConfigStatus cl config') as [cl' [e |]]. }
    repeat (split; [reflexivity |]). subst config'. simpl. split.
    + destruct (DeletionTimestamp (pvcMeta pvc)).
      * apply lookup_delete_eq.
      * apply lookup_insert_eq.
    + intros other Hne. destruct (DeletionTimestamp (pvcMeta pvc)).
      * now apply lookup_delete_ne.
      * now apply lookup_insert_ne.
Qed.

End Reconciler.


(** ** More on the pod admission handler *)

Section Attach.
Context `{Utils} `{Driver} `{Yaml} `{Codec} `{Client}.

Lemma attachVolume_skip a cl volumes pod config :
  ~ selects config pod -> attachVolume a cl volumes pod config = Next cl volumes pod.
Proof.
  unfold selects, attachVolume. intros Hnot.
  destruct (bool_decide (DeletionTimestamp (dcMeta config) <> None)) eqn:Hdel; [reflexivity |].
  destruct (IsContainsAll (Labels (podMeta pod)) (dcPodSelector config)) eqn:Hsel;
    [| reflexivity].
  exfalso. apply Hnot. split; [| reflexivity].
  apply bool_decide_eq_false in Hdel.
  destruct (DeletionTimestamp (dcMeta config)); [| reflexivity].
  exfalso. apply Hdel. discriminate.
Qed.

(** How an iteration goes on to the next configuration. *)
Lemma attachVolume_next a cl volumes pod config cl' volumes' pod' :
  attachVolume a cl volumes pod config = Next cl' volumes' pod' ->
  (cl' = cl /\ volumes' = volumes /\ pod' = pod /\ ~ selects config pod) \/
  (selects config pod /\
   exists sc pvc,
     GetStorageClass cl (dcStorageClassName config) = Found sc /\
     NewPVC config (scProvisioner sc) = Ok pvc /\
     cl' = fst (CreatePersistentVolumeClaim cl pvc) /\
     mountPointTaken volumes
       (RenderMountPoint (dcMountPointPattern config) (Name (pvcMeta pvc)) 0) = false /\
     volumes' = <[Name (pvcMeta pvc) :=
                    RenderMountPoint (dcMountPointPattern config) (Name (pvcMeta pvc)) 0]>
                  volumes /\
     pod' = appendPodVolume
              (setPodLabel pod "discoblocks/metrics" (Name (dcMeta config)))
              {| vName := Name (pvcMeta pvc); vClaimName := Name (pvcMeta pvc) |}).
Proof.
  unfold attachVolume, selects. intros Hstep.
  destruct (bool_decide (DeletionTimestamp (dcMeta config) <> None)) eqn:Hdel.
  { injection Hstep as <- <- <-. left. repeat split.
    apply bool_decide_eq_true in Hdel. intros [Hlive _]. contradiction. }
  destruct (IsContainsAll (Labels (podMeta pod)) (dcPodSelector config)) eqn:Hsel;
    simpl negb in Hstep; cbv iota zeta in Hstep.
  2: { injection Hstep as <- <- <-. left. repeat split. intros [_ Hyes]. discriminate. }
  right. split.
  { split; [| reflexivity]. apply bool_decide_eq_false in Hdel.
    destruct (DeletionTimestamp (dcMeta config)); [| reflexivity].
    exfalso. apply Hdel. discriminate. }
  destruct (GetStorageClass cl _) as [sc | e | e] eqn:Hsc; try discriminate.
  destruct (NewPVC config (scProvisioner sc)) as [pvc | e] eqn:Hpvc; try discriminate.
  exists sc, pvc.
  destruct (CreatePersistentVolumeClaim cl pvc) as [cl1 created].
  destruct created as [| e | e]; try discriminate;
    (destruct (mountPointTaken volumes _) eqn:Htaken; [discriminate |];
     injection Hstep as <- <- <-; repeat split; assumption).
Qed.

(** What every iteration keeps. *)
Lemma attachVolume_keeps a cl volumes pod config cl' volumes' pod' :
  attachVolume a cl volumes pod config = Next cl' volumes' pod' ->
  (distinctMountPoints volumes -> distinctMountPoints volumes') /\
  (attached volumes pod -> attached volumes' pod') /\
  podContainers pod' = podContainers pod /\
  Name (podMeta pod') = Name (podMeta pod) /\
  Namespace (podMeta pod') = Namespace (podMeta pod) /\
  (forall v, In v (podVolumes pod) -> In v (podVolumes pod')) /\
  (volumes' = volumes /\ pod' = pod \/
   label (podMeta pod') "discoblocks/metrics" = Name (dcMeta config) /\
   exists claimName, volumes' !! claimName <> None).
Proof.
  intros Hstep.
  apply attachVolume_next in Hstep
    as [(-> & -> & -> & _) | (_ & sc & pvc & _ & _ & _ & Hfree & -> & ->)].
  { repeat split; auto. }
  set (name := Name (pvcMeta pvc)) in *.
  set (mountpoint := RenderMountPoint (dcMountPointPattern config) name 0) in *.
  assert (forall other, volumes !! other <> Some mountpoint) as Hfresh.
  { intros other Hother.
    assert (mountPointTaken volumes mountpoint = true) as Htaken
      by (apply mountPointTaken_spec; eauto).
    congruence. }
  split; [| split; [| repeat split]].
  - intros Hdistinct claimName claimName' mp Hone Htwo.
    destruct (decide (name = claimName)) as [<- | Hne];
      destruct (decide (name = claimName')) as [<- | Hne']; [reflexivity | | |].
    + rewrite lookup_insert_eq in Hone. injection Hone as <-.
      rewrite lookup_insert_ne in Htwo by assumption. now apply Hfresh in Htwo.
    + rewrite lookup_insert_eq in Htwo. injection Htwo as <-.
      rewrite lookup_insert_ne in Hone by assumption. now apply Hfresh in Hone.
    + rewrite lookup_insert_ne in Hone, Htwo by assumption. eauto.
  - intros Hattached claimName mp Hlookup. simpl. apply in_or_app.
    destruct (decide (name = claimName)) as [<- | Hne].
    + right. now left.
    + left. rewrite lookup_insert_ne in Hlookup by assumption. eauto.
  - intros v Hin. simpl. apply in_or_app. now left.
  - right. split.
    + unfold label; simpl. now rewrite lookup_insert_eq.
    + exists name. now rewrite lookup_insert_eq.
Qed.

(** A property of the claims assigned so far and of the pod that every
    iteration keeps holds when the loop is left at its end. *)
Lemma attachVolumes_invariant a (P : gmap string string -> Pod -> Prop) diskConfigs :
  (forall config cl volumes pod cl' volumes' pod',
      In config diskConfigs -> P volumes pod ->
      attachVolume a cl volumes pod config = Next cl' volumes' pod' -> P volumes' pod') ->
  forall todo cl volumes pod cl' volumes' pod',
    (forall config, In config todo -> In config diskConfigs) ->
    P volumes pod ->
    attachVolumes a cl volumes pod todo = Next cl' volumes' pod' ->
    P volumes' pod'.
Proof.
  intros Hbody.
  induction todo as [| config todo IH]; intros cl volumes pod cl' volumes' pod' Hsub Hprev;
    simpl.
  - intros Hloop. injection Hloop as <- <- <-. assumption.
  - destruct (attachVolume a cl volumes pod config) as [| cl1 volumes1 pod1] eqn:Hstep;
      [discriminate |].
    apply IH; [intros c Hc; apply Hsub; now right |].
    eapply Hbody; eauto. apply Hsub. now left.
Qed.

(** What the loop has done to a pod when it is left at its end. *)
Lemma attachVolumes_end a cl pod diskConfigs cl' volumes pod' :
  attachVolumes a cl ∅ pod diskConfigs = Next cl' volumes pod' ->
  distinctMountPoints volumes /\
  attached volumes pod' /\
  podContainers pod' = podContainers pod /\
  Name (podMeta pod') = Name (podMeta pod) /\
  Namespace (podMeta pod') = Namespace (podMeta pod) /\
  (forall v, In v (podVolumes pod) -> In v (podVolumes pod')) /\
  (volumes = ∅ \/
   exists config,
     In config diskConfigs /\
     label (podMeta pod') "discoblocks/metrics" = Name (dcMeta config)).
Proof.
  apply (attachVolumes_invariant a
           (fun volumes pod' =>
              distinctMountPoints volumes /\
              attached volumes pod' /\
              podContainers pod' = podContainers pod /\
              Name (podMeta pod') = Name (podMeta pod) /\
              Namespace (podMeta pod') = Namespace (podMeta pod) /\
              (forall v, In v (podVolumes pod) -> In v (podVolumes pod')) /\
              (volumes = ∅ \/
               exists config,
                 In config diskConfigs /\
                 label (podMeta pod') "discoblocks/metrics" = Name (dcMeta config)))
           diskConfigs); [| auto |].
  - intros config cl0 volumes0 pod0 cl1 volumes1 pod1 Hin
      (Hd & Ha & Hc & Hn & Hs & Hv & Hl) Hstep.
    apply attachVolume_keeps in Hstep as (Hd1 & Ha1 & Hc1 & Hn1 & Hs1 & Hv1 & Hl1).
    repeat split; auto; try congruence.
    destruct Hl1 as [[-> ->] | [Hlabel _]]; [assumption |]. right. eauto.
  - repeat split; auto.
    + intros claimName claimName' mp Hone. rewrite lookup_empty in Hone. discriminate.
    + intros claimName mp Hone. rewrite lookup_empty in Hone. discriminate.
Qed.

End Attach.

Section HandleMore.
Context `{Utils} `{Driver} `{Yaml} `{Codec} `{Client}.

Lemma attachVolumes_not_selected a cl volumes pod diskConfigs :
  Forall (fun config => ~ selects config pod) diskConfigs ->
  attachVolumes a cl volumes pod diskConfigs = Next cl volumes pod.
Proof.
  induction 1 as [| config rest Hnot _ IH]; simpl; [reflexivity |].
  now rewrite attachVolume_skip.
Qed.

(** X10. For a pod that no live configuration of its namespace selects,
    the handler lets the pod through unpatched with [No sidecar injection]
    and creates nothing, whatever [strict] is. *)
Theorem Handle_not_selected a cl req pod diskConfigs :
  Decode req = Ok pod ->
  ListDiskConfigs cl (Namespace (podMeta pod)) = Ok diskConfigs ->
  Forall (fun config => ~ selects config pod) diskConfigs ->
  Handle a cl req = (cl, Allowed "No sidecar injection").
Proof.
  intros Hdecode Hlist Hnone. unfold Handle.
  rewrite Hdecode, Hlist, attachVolumes_not_selected by assumption.
  reflexivity.
Qed.

(** The flag is read only where a response is built. *)
Lemma attachVolume_strict a a' cl volumes pod config :
  match attachVolume a cl volumes pod config, attachVolume a' cl volumes pod config with
  | Next c v p, Next c' v' p' => c = c' /\ v = v' /\ p = p'
  | Return c r, Return c' _ =>
      c = c' /\ forall original current, r <> PatchResponseFromRaw original current
  | _, _ => False
  end.
Proof.
  assert (forall code reason err original current,
             errorMode a code reason err <> PatchResponseFromRaw original current) as Hmode.
  { intros code reason err original current. unfold errorMode, admissionErrored.
    now destruct (strict a), err. }
  unfold attachVolume.
  destruct (bool_decide _); [auto |].
  destruct (negb _); [auto |]. cbv zeta.
  destruct (GetStorageClass cl _) as [sc | e | e];
    [| split; [reflexivity | apply Hmode] | split; [reflexivity | discriminate]].
  destruct (NewPVC config (scProvisioner sc)) as [pvc | e];
    [| split; [reflexivity | apply Hmode]].
  destruct (CreatePersistentVolumeClaim cl pvc) as [cl1 created].
  destruct created as [| e | e]; [| | split; [reflexivity | discriminate]];
    (destruct (mountPointTaken volumes _); [split; [reflexivity | apply Hmode] | auto]).
Qed.

Lemma attachVolumes_strict a a' diskConfigs :
  forall cl volumes pod,
    match attachVolumes a cl volumes pod diskConfigs,
          attachVolumes a' cl volumes pod diskConfigs with
    | Next c v p, Next c' v' p' => c = c' /\ v = v' /\ p = p'
    | Return c r, Return c' _ =>
        c = c' /\ forall original current, r <> PatchResponseFromRaw original current
    | _, _ => False
    end.
Proof.
  induction diskConfigs as [| config rest IH]; intros cl volumes pod; simpl; [auto |].
  pose proof (attachVolume_strict a a' cl volumes pod config) as Hstep.
  destruct (attachVolume a cl volumes pod config) as [c r | c v p];
    destruct (attachVolume a' cl volumes pod config) as [c' r' | c' v' p'];
    try contradiction; [assumption |].
  destruct Hstep as (<- & <- & <-). apply IH.
Qed.

(** X11. The [strict] flag decides on nothing but the response to a
    failure: what the handler has written to the cluster when it returns is
    the same with the flag set and unset, and a pod that is patched with
    one setting is patched in the same way with the other. *)
Theorem Handle_strict a a' cl req :
  fst (Handle a cl req) = fst (Handle a' cl req) /\
  (forall original current,
      snd (Handle a cl req) = PatchResponseFromRaw original current ->
      snd (Handle a' cl req) = PatchResponseFromRaw original current).
Proof.
  unfold Handle.
  destruct (Decode req) as [pod | e]; [| split; [reflexivity | discriminate]].
  destruct (ListDiskConfigs cl _) as [diskConfigs | e]; [| split; [reflexivity | discriminate]].
  pose proof (attachVolumes_strict a a' diskConfigs cl ∅ pod) as Hloop.
  destruct (attachVolumes a cl ∅ pod diskConfigs) as [c r | c v p];
    destruct (attachVolumes a' cl ∅ pod diskConfigs) as [c' r' | c' v' p'];
    try contradiction.
  - destruct Hloop as [<- Hresponse]. split; [reflexivity |]. simpl.
    intros original current Hpatch. now apply Hresponse in Hpatch.
  - destruct Hloop as (<- & <- & <-). split; [reflexivity | auto].
Qed.

End HandleMore.

Section Patch.
Context `{Utils} `{Driver} `{Yaml} `{Codec} `{Client}.

(** X12. When the loop over the configurations is left at its end, no two
    of the claims it has assigned share a mount point, and every one of
    them is a volume of the pod, named after the claim. The containers of
    the pod, its name and its namespace are as decoded, and the volumes the
    pod came with are kept. *)
Theorem attachVolumes_assigned a cl pod diskConfigs cl' volumes pod' :
  attachVolumes a cl ∅ pod diskConfigs = Next cl' volumes pod' ->
  distinctMountPoints volumes /\
  attached volumes pod' /\
  podContainers pod' = podContainers pod /\
  Name (podMeta pod') = Name (podMeta pod) /\
  Namespace (podMeta pod') = Namespace (podMeta pod) /\
  (forall v, In v (podVolumes pod) -> In v (podVolumes pod')).
Proof.
  intros Hloop.
  apply attachVolumes_end in Hloop as (Hd & Ha & Hc & Hn & Hs & Hv & _). auto 10.
Qed.

(** Every container of the patched pod mounts every claim of
    [volumes]. *)
Lemma attachSidecar_mounts_all pod metricsSideCar volumes c claimName mountpoint :
  In c (podContainers (attachSidecar pod metricsSideCar volumes)) ->
  volumes !! claimName = Some mountpoint ->
  In {| vmName := claimName; vmMountPath := mountpoint; vmReadOnly := false |}
     (cVolumeMounts c).
Proof.
  unfold attachSidecar; simpl. intros Hc Hlookup.
  apply List.in_map_iff in Hc as (c0 & <- & _). simpl.
  apply in_or_app. right.
  apply List.in_map_iff. exists (claimName, mountpoint). split; [reflexivity |].
  apply list_elem_of_In. now apply elem_of_map_to_list.
Qed.

(** X13. What a patch holds. When the handler answers with a patch, the
    loop over the listed configurations was left at its end, on the cluster
    the handler returns, with the claims [volumes] assigned; the patch is
    computed from the raw object of the request and the encoding of the pod
    the loop left, with the sidecar and the mounts attached. That pod is
    scheduled by [discoblocks-scheduler], carries the name of one of the
    listed configurations in its label [discoblocks/metrics], has the
    containers of the decoded pod followed by the metrics sidecar, has a
    volume for every claim assigned in the pass, and mounts every one of
    these claims in every container, the sidecar included, at the mount
    point assigned to it. *)
Theorem Handle_patch a cl req cl' original current :
  Handle a cl req = (cl', PatchResponseFromRaw original current) ->
  original = arRaw req /\
  exists pod diskConfigs (volumes : gmap string string) pod' metricsSideCar patched,
    Decode req = Ok pod /\
    ListDiskConfigs cl (Namespace (podMeta pod)) = Ok diskConfigs /\
    attachVolumes a cl ∅ pod diskConfigs = Next cl' volumes pod' /\
    RenderMetricsSidecar false = Ok metricsSideCar /\
    patched = attachSidecar pod' metricsSideCar volumes /\
    MarshalPod patched = Ok current /\
    volumes <> ∅ /\
    podSchedulerName patched = "discoblocks-scheduler" /\
    (exists config,
        In config diskConfigs /\
        label (podMeta patched) "discoblocks/metrics" = Name (dcMeta config)) /\
    List.map cName (podContainers patched)
    = List.map cName (podContainers pod ++ [metricsSideCar]) /\
    (forall claimName mountpoint,
        volumes !! claimName = Some mountpoint ->
        In {| vName := claimName; vClaimName := claimName |} (podVolumes patched) /\
        forall c,
          In c (podContainers patched) ->
          In {| vmName := claimName; vmMountPath := mountpoint; vmReadOnly := false |}
             (cVolumeMounts c)).
Proof.
  unfold Handle.
  destruct (Decode req) as [pod | e] eqn:Hdecode; [| discriminate].
  destruct (ListDiskConfigs cl _) as [diskConfigs | e] eqn:Hlist; [| discriminate].
  destruct (attachVolumes a cl ∅ pod diskConfigs) as [c r | cl1 volumes pod'] eqn:Hloop.
  { intros Hret. injection Hret as _ Hr.
    pose proof (attachVolumes_strict a a diskConfigs cl ∅ pod) as Hno.
    rewrite Hloop in Hno. destruct Hno as [_ Hno]. now apply Hno in Hr. }
  destruct (size volumes =? 0)%nat eqn:Hsize; [discriminate |].
  destruct (RenderMetricsSidecar false) as [metricsSideCar | e] eqn:Hsidecar; [| discriminate].
  destruct (MarshalPod _) as [marshaledPod | e] eqn:Hmarshal; [| discriminate].
  intros Hret. injection Hret as <- <- <-. split; [reflexivity |].
  pose proof (attachVolumes_end _ _ _ _ _ _ _ Hloop)
    as (_ & Hattached & Hcontainers & _ & _ & _ & Hlabel).
  assert (volumes <> ∅) as Hsome.
  { intros ->. rewrite map_size_empty in Hsize. discriminate. }
  exists pod, diskConfigs, volumes, pod', metricsSideCar,
    (attachSidecar pod' metricsSideCar volumes).
  repeat split; try assumption.
  - destruct Hlabel as [-> | Hlabel]; [contradiction | exact Hlabel].
  - unfold attachSidecar; simpl. rewrite List.map_map. simpl. now rewrite Hcontainers.
  - simpl. eauto.
  - intros c Hc. eapply attachSidecar_mounts_all; eauto.
Qed.

End Patch.

Section Responses.
Context `{Utils} `{Driver} `{Yaml} `{Codec} `{Client}.

(** What the loop over the configurations can answer with when it is left
    by a [return]. *)
Lemma attachVolume_response a cl volumes pod config cl' response :
  attachVolume a cl volumes pod config = Return cl' response ->
  match response with
  | Errored code err =>
      (code = StatusNotFound \/ code = StatusInternalServerError) /\
      (strict a = false -> code <> StatusNotFound /\ err <> None)
  | Allowed _ => strict a = false
  | PatchResponseFromRaw _ _ => False
  | NilError => strict a = true
  end.
Proof.
  assert (forall code reason err,
             (code = StatusNotFound \/ code = StatusInternalServerError) ->
             match errorMode a code reason err with
             | Errored code' err' =>
                 (code' = StatusNotFound \/ code' = StatusInternalServerError) /\
                 (strict a = false -> code' <> StatusNotFound /\ err' <> None)
             | Allowed _ => strict a = false
             | PatchResponseFromRaw _ _ => False
             | NilError => strict a = true
             end) as Hmode.
  { intros code reason err Hcode. unfold errorMode, admissionErrored.
    destruct (strict a); [| reflexivity].
    destruct err; [split; [assumption | discriminate] | reflexivity]. }
  assert (forall e : error,
             (StatusInternalServerError = StatusNotFound
              \/ StatusInternalServerError = StatusInternalServerError) /\
             (strict a = false ->
              StatusInternalServerError <> StatusNotFound /\ Some e <> None)) as Hhard.
  { intros e. split; [now right |]. intros _. split; discriminate. }
  unfold attachVolume.
  destruct (bool_decide _); [discriminate |].
  destruct (negb _); [discriminate |]. cbv zeta.
  destruct (GetStorageClass cl _) as [sc | e | e].
  - destruct (NewPVC config (scProvisioner sc)) as [pvc | e].
    + destruct (CreatePersistentVolumeClaim cl pvc) as [cl1 created].
      destruct created as [| e | e].
      * destruct (mountPointTaken volumes _); [| discriminate].
        intros Hret. injection Hret as _ <-. apply Hmode. now right.
      * destruct (mountPointTaken volumes _); [| discriminate].
        intros Hret. injection Hret as _ <-. apply Hmode. now right.
      * intros Hret. injection Hret as _ <-. apply Hhard.
    + intros Hret. injection Hret as _ <-. apply Hmode. now right.
  - intros Hret. injection Hret as _ <-. apply Hmode. now left.
  - intros Hret. injection Hret as _ <-. apply Hhard.
Qed.

Lemma attachVolumes_response a diskConfigs :
  forall cl volumes pod cl' response,
    attachVolumes a cl volumes pod diskConfigs = Return cl' response ->
    match response with
    | Errored code err =>
        (code = StatusNotFound \/ code = StatusInternalServerError) /\
        (strict a = false -> code <> StatusNotFound /\ err <> None)
    | Allowed _ => strict a = false
    | PatchResponseFromRaw _ _ => False
    | NilError => strict a = true
    end.
Proof.
  induction diskConfigs as [| config rest IH]; intros cl volumes pod cl' response; simpl;
    [discriminate |].
  destruct (attachVolume a cl volumes pod config) as [c r | c v p] eqn:Hstep.
  - intros Hret. injection Hret as <- <-. eapply attachVolume_response; eauto.
  - apply IH.
Qed.

(** X14. The responses of the handler. A denial has status 400, 404 or
    500, and with [strict] unset it never has 404 and always carries an
    error: what is denied then is a request that cannot be decoded or a
    failure of the API server or of the encoder. With [strict] set a pod is
    let through unpatched only with [No sidecar injection] or with
    [Metrics sidecar template invalid]. A patch is always computed from the
    raw object of the request. The handler dies without a response only
    with [strict] set. *)
Theorem Handle_response a cl req :
  match snd (Handle a cl req) with
  | Errored code err =>
      (code = StatusBadRequest \/ code = StatusNotFound
       \/ code = StatusInternalServerError) /\
      (strict a = false -> code <> StatusNotFound /\ err <> None)
  | Allowed reason =>
      strict a = true ->
      reason = "No sidecar injection" \/ reason = "Metrics sidecar template invalid"
  | PatchResponseFromRaw original _ => original = arRaw req
  | NilError => strict a = true
  end.
Proof.
  unfold Handle.
  destruct (Decode req) as [pod | e]; simpl.
  2: { split; [now left |]. intros _. split; discriminate. }
  destruct (ListDiskConfigs cl _) as [diskConfigs | e]; simpl.
  2: { split; [now right; right |]. intros _. split; discriminate. }
  destruct (attachVolumes a cl ∅ pod diskConfigs) as [c r | c v p] eqn:Hloop; simpl.
  - apply attachVolumes_response in Hloop.
    destruct r as [reason | code err | original current |]; [| | contradiction |].
    + intros Hstrict. congruence.
    + destruct Hloop as [Hcode Hsoft]. split; [| assumption].
      destruct Hcode; [right; now left | right; now right].
    + assumption.
  - destruct (size v =? 0)%nat; simpl; [intros _; now left |].
    destruct (RenderMetricsSidecar false) as [metricsSideCar | e]; simpl;
      [| intros _; now right].
    destruct (MarshalPod _) as [marshaledPod | e]; simpl; [reflexivity |].
    split; [now right; right |]. intros _. split; discriminate.
Qed.

End Responses.

Section Claims.
Context `{Utils} `{Driver}.

(** X15. A claim built by [NewPVC] for a configuration is one the
    controllers take for managed: it carries the finalizer the monitor
    looks for under that configuration and the label that names it, so its
    create event passes the filter; it asks for the capacity of the
    configuration and has an access mode, [ReadWriteOnce] unless the
    configuration names its own. *)
Theorem NewPVC_managed config prefix pvc :
  NewPVC config prefix = Ok pvc ->
  ContainsFinalizer (pvcMeta pvc) (RenderFinalizer (Name (dcMeta config))) = true /\
  label (pvcMeta pvc) "discoblocks" = Name (dcMeta config) /\
  pvcEventFilter.Create {| ceObject := ObjPersistentVolumeClaim pvc |} = true /\
  pvcRequests pvc !! ResourceStorage = Some (dcCapacity config) /\
  pvcAccessModes pvc
  = match dcAccessModes config with
    | [] => [ReadWriteOnce]
    | _ :: _ => dcAccessModes config
    end.
Proof.
  unfold NewPVC.
  destruct (RenderResourceName _ _ _ _) as [pvcName | e]; [| discriminate].
  destruct (GetPVCStub _ _ _) as [stub | e]; [| discriminate].
  intros Hok. injection Hok as <-.
  assert (ContainsFinalizer
            {| Name := Name (pvcMeta stub); Namespace := Namespace (pvcMeta stub);
               Labels := {["discoblocks" := Name (dcMeta config)]};
               Finalizers := [RenderFinalizer (Name (dcMeta config))];
               DeletionTimestamp := DeletionTimestamp (pvcMeta stub);
               OwnerReferences := OwnerReferences (pvcMeta stub) |}
            (RenderFinalizer (Name (dcMeta config))) = true) as Hfinalizer.
  { unfold ContainsFinalizer; simpl. now rewrite String.eqb_refl. }
  assert (label
            {| Name := Name (pvcMeta stub); Namespace := Namespace (pvcMeta stub);
               Labels := {["discoblocks" := Name (dcMeta config)]};
               Finalizers := [RenderFinalizer (Name (dcMeta config))];
               DeletionTimestamp := DeletionTimestamp (pvcMeta stub);
               OwnerReferences := OwnerReferences (pvcMeta stub) |}
            "discoblocks" = Name (dcMeta config)) as Hlabel.
  { unfold label; simpl. now rewrite lookup_singleton_eq. }
  split; [exact Hfinalizer |]. split; [exact Hlabel |]. split; [| split].
  - unfold pvcEventFilter.Create; simpl. rewrite Hlabel. exact Hfinalizer.
  - simpl. apply lookup_singleton_eq.
  - simpl. now destruct (dcAccessModes config).
Qed.

End Claims.

(** ** The indentation of the scripts *)

Section Indentation.

Lemma string_cons_split (c : ascii) (r front back : string) :
  String c r = front ++ nl ++ back ->
  Ascii.eqb c (ascii_of_nat 10) = false ->
  exists front', front = String c front' /\ r = front' ++ nl ++ back.
Proof.
  intros Hsplit Hc. destruct front as [| c' front'].
  - change ("" ++ nl ++ back) with (String (ascii_of_nat 10) back) in Hsplit.
    injection Hsplit as -> _. rewrite Ascii.eqb_refl in Hc. discriminate.
  - rewrite append_cons in Hsplit. injection Hsplit as -> ->. eauto.
Qed.

Lemma hostCommandReplaceAll_indented (s : string) :
  indented (hostCommandReplaceAll s hostCommandPrefix).
Proof.
  unfold indented. induction s as [| c s IH]; intros front back Hsplit.
  - destruct front; discriminate Hsplit.
  - cbn [hostCommandReplaceAll] in Hsplit.
    destruct (Ascii.eqb c (ascii_of_nat 10)) eqn:Hc.
    + change (hostCommandPrefix ++ hostCommandReplaceAll s hostCommandPrefix)
        with (String (ascii_of_nat 10)
                ("          " ++ hostCommandReplaceAll s hostCommandPrefix)) in Hsplit.
      destruct front as [| c' front'].
      * change ("" ++ nl ++ back) with (String (ascii_of_nat 10) back) in Hsplit.
        injection Hsplit as <-. eauto.
      * rewrite append_cons in Hsplit. injection Hsplit as _ Hsplit.
        change ("          " ++ hostCommandReplaceAll s hostCommandPrefix)
          with (String " " (String " " (String " " (String " " (String " "
                 (String " " (String " " (String " " (String " " (String " "
                   (hostCommandReplaceAll s hostCommandPrefix))))))))))) in Hsplit.
        do 10 (apply string_cons_split in Hsplit as (? & _ & Hsplit); [| reflexivity]).
        eauto.
    + apply string_cons_split in Hsplit as (front' & _ & Hsplit); [| assumption].
      eauto.
Qed.

(** X16. In the script of a mount job and in the script of a resize job
    every line feed is followed by the ten blanks of the block the script
    is put in, whatever the pre-command of the driver is, line feeds of
    its own included. *)
Theorem scripts_indented :
  (forall preMountCommand hostPID, indented (mountCommand preMountCommand hostPID)) /\
  (forall preResizeCommand, indented (resizeCommand preResizeCommand)).
Proof.
  split.
  - intros preMountCommand hostPID. apply hostCommandReplaceAll_indented.
  - intros preResizeCommand. apply hostCommandReplaceAll_indented.
Qed.

End Indentation.

(** ** The helpers of the scheduler *)

Section Scheduling.

Lemma targetOfFields_first (mfs : list NodeSelectorRequirement) :
  targetOfFields mfs
  = match List.filter pinsNode mfs with
    | [] => None
    | mf :: _ => Some (List.hd "" (nsrValues mf))
    end.
Proof.
  induction mfs as [| mf mfs IH]; [reflexivity |].
  simpl. now destruct (pinsNode mf).
Qed.

Lemma targetOfTerms_first (terms : list NodeSelectorTerm) :
  targetOfTerms terms
  = match List.filter pinsNode (flat_map MatchFields terms) with
    | [] => None
    | mf :: _ => Some (List.hd "" (nsrValues mf))
    end.
Proof.
  induction terms as [| term terms IH]; [reflexivity |].
  simpl. rewrite List.filter_app, targetOfFields_first, IH.
  now destruct (List.filter pinsNode (MatchFields term)).
Qed.

(** X17. [GetTargetNodeByAffinity] answers with the first value of the
    first match field, over all the terms of the required node affinity in
    their order, that has the key [metadata.name], the operator [In] and at
    least one value; every later such field is ignored. It answers with the
    empty string when there is no such field, and when the affinity, its
    node affinity or the required selector is nil. *)
Theorem GetTargetNodeByAffinity_first :
  (forall selector,
      GetTargetNodeByAffinity
        (Some {| affNodeAffinity :=
                   Some {| RequiredDuringSchedulingIgnoredDuringExecution :=
                             Some selector |} |})
      = match List.filter pinsNode (flat_map MatchFields (NodeSelectorTerms selector)) with
        | [] => ""
        | mf :: _ => List.hd "" (nsrValues mf)
        end) /\
  (forall mf,
      pinsNode mf = true <->
      nsrKey mf = "metadata.name" /\ nsrOperator mf = "In" /\ nsrValues mf <> []) /\
  GetTargetNodeByAffinity None = "" /\
  GetTargetNodeByAffinity (Some {| affNodeAffinity := None |}) = "" /\
  GetTargetNodeByAffinity
    (Some {| affNodeAffinity :=
               Some {| RequiredDuringSchedulingIgnoredDuringExecution := None |} |}) = "".
Proof.
  split; [| split; [| repeat split]].
  - intros selector. unfold GetTargetNodeByAffinity; simpl.
    rewrite targetOfTerms_first.
    now destruct (List.filter pinsNode (flat_map MatchFields (NodeSelectorTerms selector))).
  - intros mf. unfold pinsNode, NodeSelectorOpIn.
    rewrite !andb_true_iff, !String.eqb_eq, Nat.ltb_lt.
    destruct (nsrValues mf); simpl; split; intros [[Hk Ho] Hv] || intros (Hk & Ho & Hv);
      repeat split; auto; try lia; try congruence; discriminate.
Qed.

(** X18. [IsOwnedByDaemonSet] holds exactly for the pods that have, among
    their owner references, one of kind [DaemonSet] and API version
    [apps/v1]. *)
Theorem IsOwnedByDaemonSet_iff (pod : Pod) :
  IsOwnedByDaemonSet pod = true <->
  exists owner,
    In owner (OwnerReferences (podMeta pod)) /\
    orKind owner = "DaemonSet" /\ orAPIVersion owner = "apps/v1".
Proof.
  unfold IsOwnedByDaemonSet.
  induction (OwnerReferences (podMeta pod)) as [| owner owners IH]; simpl.
  - split; [discriminate | intros (owner & [] & _)].
  - destruct (String.eqb (orKind owner) "DaemonSet" && String.eqb (orAPIVersion owner) appsv1)
      eqn:Hhere.
    + split; [| reflexivity]. intros _.
      apply andb_true_iff in Hhere as [Hkind Hversion].
      apply String.eqb_eq in Hkind, Hversion. exists owner. auto.
    + rewrite IH. split.
      * intros (o & Hin & Hkind & Hversion). exists o. auto.
      * intros (o & [<- | Hin] & Hkind & Hversion); [| eauto].
        exfalso. apply andb_false_iff in Hhere as [Hne | Hne];
          apply String.eqb_neq in Hne; contradiction.
Qed.

End Scheduling.

(** ** The storage class check of the EBS driver *)

Section StorageClass.
Context `{Fastjson}.

Lemma append_empty_r (s : string) : s ++ "" = s.
Proof.
  induction s as [| c s IH]; [reflexivity |]. rewrite append_cons. now rewrite IH.
Qed.

(** X19. [IsStorageClassValid] of the EBS driver appends exactly one word
    to the standard output: [true] when the storage class has
    [volumeBindingMode] [WaitForFirstConsumer] and [allowVolumeExpansion]
    true, and [false] otherwise. It writes to the standard error exactly
    when the word is [false]: one sentence, about the binding mode if that
    is what fails, about the expansion if only that fails. *)
Theorem IsStorageClassValid_answer (getenv : ebs.Environ) (io : ebs.Streams) :
  let json := getenv "STORAGE_CLASS_JSON" in
  let binding :=
    Exists json "volumeBindingMode"
    && String.eqb (GetString json "volumeBindingMode") "WaitForFirstConsumer" in
  let expansion :=
    Exists json "allowVolumeExpansion" && GetBool json "allowVolumeExpansion" in
  ebs.Stdout (IsStorageClassValid getenv io)
  = ebs.Stdout io ++ (if binding && expansion then "true" else "false") /\
  ebs.Stderr (IsStorageClassValid getenv io)
  = ebs.Stderr io
    ++ (if negb binding then "only volumeBindingMode WaitForFirstConsumer is supported"
        else if negb expansion then "only allowVolumeExpansion true is supported"
        else "").
Proof.
  intros json binding expansion. subst binding expansion json.
  unfold IsStorageClassValid.
  destruct (Exists (getenv "STORAGE_CLASS_JSON") "volumeBindingMode"); simpl;
    [| split; reflexivity].
  destruct (String.eqb _ "WaitForFirstConsumer"); simpl; [| split; reflexivity].
  destruct (Exists (getenv "STORAGE_CLASS_JSON") "allowVolumeExpansion"); simpl;
    [| split; reflexivity].
  destruct (GetBool _ _); simpl; split; try reflexivity.
  unfold ebs.printStdout; simpl. symmetry. apply append_empty_r.
Qed.

End StorageClass.

(** ** The manifests as documents *)

Section Documents.














(** *** Reading around the script *)























End Documents.

Section Reads.






End Reads.

(** ** The rendered jobs *)

Section Jobs.
Context `{Utils} `{Yaml}.



End Jobs.

(** * The definitions at work *)

Section Runs.
#[local] Existing Instance Fixture.utils.
#[local] Existing Instance Fixture.resource.
#[local] Existing Instance Fixture.client.
#[local] Existing Instance Fixture.yaml.
#[local] Existing Instance Fixture.driver.
Import Fixture.

(** The scenario of the spec: 5Gi, 0.3Gi free, trigger at 10 percent,
    ceiling 10Gi: the request becomes 6Gi. *)
Example scenario_resize_to_6Gi :
  snd (monitorSample (store 5) cfg db (sampleLine mountpoint 322122547))
  = UpdatingPVC vol (setStorageRequest (volume 5) (6 * Gi)) None.
Proof. vm_compute. reflexivity. Qed.

(** The same claim at 10Gi: nothing is sent, however little is free. *)
Example scenario_at_ceiling :
  monitorSample (store 10) cfg db (sampleLine mountpoint 0) = (store 10, NewDiskNeeded).
Proof. vm_compute. reflexivity. Qed.

(** One Gi below the ceiling the step is a full Gi; half a Gi below, the
    request is the ceiling. *)
Example scenario_last_step :
  snd (monitorSample (store 9) cfg db (sampleLine mountpoint 0))
  = UpdatingPVC vol (setStorageRequest (volume 9) (10 * Gi)) None.
Proof. vm_compute. reflexivity. Qed.

(** The attach job, decoded by the line reader of [Fixture]. *)
Example attach_job_decoded :
  match RenderAttachJob 1667220000000000000 "vol" "default" "node-1" owner with
  | Ok job =>
      jobKind job = "Job" /\ jobAPIVersion job = "batch/v1" /\
      Namespace (jobMeta job) = "default" /\
      OwnerReferences (jobMeta job) = [owner] /\
      jobBackoffLimit job = Some 0 /\ jobTTLSecondsAfterFinished job = Some 86400
  | Err _ => False
  end.
Proof. vm_compute. repeat split. Qed.

Example mount_job_decoded :
  match RenderMountJob 1667220000000000000 "vol" "pvc-5f2c" "default" "node-1" "ext4"
          "/media/discoblocks/vol-0" ["c1"; "c2"]
          (ebs.Stdout (ebs.GetPreMountCommand ebs.noOutput)) true "devicePath" owner with
  | Ok job =>
      jobKind job = "Job" /\ Namespace (jobMeta job) = "default" /\
      OwnerReferences (jobMeta job) = [owner] /\
      jobBackoffLimit job = Some 3 /\ jobTTLSecondsAfterFinished job = Some 86400
  | Err _ => False
  end.
Proof. vm_compute. repeat split. Qed.

(** A reconcile records the phase of the claim in its configuration. *)
Example reconcile_records_phase :
  let '(res, err, w) :=
    Reconcile {| gate := false; cluster := store 5 |} {| reqNamespacedName := vol |} in
  res = {| Requeue := false |} /\ err = None /\ gate w = false /\
  (configs (cluster w) !! keyOf (dcMeta cfg))
    ≫= (fun c => dcPersistentVolumeClaims c !! "vol") = Some "Bound".
Proof. vm_compute. repeat split. Qed.

(** The handler attaches the claim of [cfg] to [db-0]. *)
Example handle_patches :
  snd (@Handle utils driver yaml (codec db) client {| strict := true |} (store 5) request)
  = PatchResponseFromRaw "db-0" "db-0".
Proof. vm_compute. reflexivity. Qed.

(** ** The claims, on the small cluster *)

(** C1, as stated, fails at the threshold itself. The claim has 5Gi
    and the trigger is 10 percent, so the threshold is 0.5Gi; with exactly
    4.5Gi available, which is not below 5Gi - 0.5Gi, the monitor still sends
    the update to 6Gi. All the numbers are whole and exact as [float64]:
    no operation rounds. *)
Lemma C1_request_at_the_threshold :
  let available := 4831838208 in
  5 * Gi - 5 * Gi * 10 / 100 <= available /\
  treshold cfg (5 * Gi) = float64_of_Z (5 * Gi * 10 / 100) /\
  (AsApproximateFloat64 (5 * Gi)%Z - float64_of_Z available)%float
  = float64_of_Z (5 * Gi - available) /\
  snd (monitorSample (store 5) cfg db (sampleLine mountpoint available))
  = UpdatingPVC vol (setStorageRequest (volume 5) (6 * Gi)) None.
Proof.
  split; [| split; [| split]].
  - vm_compute. discriminate.
  - vm_compute. reflexivity.
  - vm_compute. reflexivity.
  - vm_compute. reflexivity.
Qed.

(** Where an operation rounds, the comparison of line 326 and the same
    comparison of the exact numbers part: a claim of 10Gi with the trigger
    at 70 percent has a threshold of 7516192768 bytes; with
    3221225472 + 2^-21 bytes available the used bytes are less than the
    threshold by 2^-21, but their [float64] is the threshold itself, and
    the update is sent. *)
Example request_by_rounding :
  let config := diskConfig "cfg" "/media/discoblocks" "20Gi" 70 in
  let available := (float64_of_Z (3 * Gi)%Z + float64_of_Z 1%Z / float64_of_Z (2 ^ 21)%Z)%float in
  treshold config (10 * Gi) = float64_of_Z 7516192768 /\
  PrimFloat.ltb (float64_of_Z (3 * Gi)) available = true /\
  (AsApproximateFloat64 (10 * Gi)%Z - available)%float = float64_of_Z 7516192768 /\
  snd (resizeSample (store 10) config vol (volume 10) available (20 * Gi))
  = UpdatingPVC vol (setStorageRequest (volume 10) (11 * Gi)) None.
Proof. vm_compute. repeat split. Qed.

Lemma C1_resize_request_witness :
  (monitorSample (store 5) cfg db (sampleLine mountpoint 300) =
     (fst (UpdatePersistentVolumeClaim (store 5) (grown (volume 5) (10 * Gi))),
      UpdatingPVC vol (grown (volume 5) (10 * Gi))
        (snd (UpdatePersistentVolumeClaim (store 5) (grown (volume 5) (10 * Gi))))) /\
   pvcRequests (grown (volume 5) (10 * Gi)) !! ResourceStorage
   = Some (Z.min (Storage (pvcCapacity (volume 5)) + 2 ^ 30) (10 * Gi))) /\
  lineRead (store 5) (cycle 5 300) (keyOf (podMeta db)) "cfg" (sampleLine mountpoint 300).
Proof.
  split.
  - refine (proj1 (proj1 (@C1_resize_request utils resource client) (store 5) cfg db
                            (sampleLine mountpoint 300) vol (volume 5) (float64_of_Z 300)
                            (10 * Gi) _) _ _).
    + vm_compute. reflexivity.
    + vm_compute. reflexivity.
    + vm_compute. discriminate.
  - refine (proj2 (proj2 (proj1 (proj2 (@C1_resize_request utils resource client))
                            (store 5) [(keyOf (podMeta db), ["cfg"])]
                            {[ keyOf (podMeta db) := [sampleLine mountpoint 300] ]}))
              _ _ (keyOf (podMeta db)) ["cfg"] "cfg" (sampleLine mountpoint 300) _ _ _).
    + vm_compute. discriminate.
    + vm_compute. reflexivity.
    + vm_compute. left. reflexivity.
    + vm_compute. left. reflexivity.
    + vm_compute. left. reflexivity.
Defined.

Lemma C2_no_resize_at_ceiling_witness :
  (resizeSample (store 10) cfg vol (volume 10) (float64_of_Z 0) (10 * Gi)
   = (store 10, DiskSizeOk) \/
   resizeSample (store 10) cfg vol (volume 10) (float64_of_Z 0) (10 * Gi)
   = (store 10, NewDiskNeeded)) /\
  Storage (pvcCapacity (grown (volume 5) (10 * Gi))) <> 10 * Gi.
Proof.
  split.
  - apply (proj1 (@C2_no_resize_at_ceiling utils resource client)). vm_compute. reflexivity.
  - apply (proj2 (@C2_no_resize_at_ceiling utils resource client) (store 5)
             [(keyOf (podMeta db), ["cfg"])]
             {[ keyOf (podMeta db) := [sampleLine mountpoint 300] ]}
             (keyOf (podMeta db)) cfg (sampleLine mountpoint 300) vol
             (grown (volume 5) (10 * Gi)) None (10 * Gi)).
    + vm_compute. left. reflexivity.
    + vm_compute. reflexivity.
Defined.

Lemma C3_unmanaged_claim_untouched_witness :
  pvcMeta (grown (volume 5) (10 * Gi)) <> pvcMeta scratch /\
  pvcEventFilter.Create {| ceObject := ObjPersistentVolumeClaim scratch |} = false.
Proof.
  split.
  - apply (proj1 (@C3_unmanaged_claim_untouched utils resource client scratch) cfg eq_refl
             (store 5)
             [(keyOf (podMeta db), ["cfg"])]
             {[ keyOf (podMeta db) := [sampleLine mountpoint 300] ]}
             (keyOf (podMeta db)) (sampleLine mountpoint 300) vol
             (grown (volume 5) (10 * Gi)) None).
    vm_compute. left. reflexivity.
  - apply (proj2 (@C3_unmanaged_claim_untouched utils resource client scratch)).
    unfold managed. vm_compute. discriminate.
Defined.

(** A configuration whose storage class is missing: the pod is denied
    with [strict] set and let through with [strict] unset. *)
Example failure_policy_on_orphan :
  failurePolicy {| strict := true |}
    (snd (@Handle utils driver yaml (codec db) client {| strict := true |}
            (objects [] [orphan] [db]) request)) /\
  failurePolicy {| strict := false |}
    (snd (@Handle utils driver yaml (codec db) client {| strict := false |}
            (objects [] [orphan] [db]) request)).
Proof.
  split.
  - apply (@Handle_failure_policy utils driver yaml (codec db) client {| strict := true |}
             (objects [] [orphan] [db]) request db [] orphan []
             (objects [] [orphan] [db]) ∅ db).
    + reflexivity.
    + vm_compute. reflexivity.
    + reflexivity.
    + split; vm_compute; reflexivity.
    + apply (StorageClassNotFound _ _ _ "not found"). vm_compute. reflexivity.
  - apply (@Handle_failure_policy utils driver yaml (codec db) client {| strict := false |}
             (objects [] [orphan] [db]) request db [] orphan []
             (objects [] [orphan] [db]) ∅ db).
    + reflexivity.
    + vm_compute. reflexivity.
    + reflexivity.
    + split; vm_compute; reflexivity.
    + apply (StorageClassNotFound _ _ _ "not found"). vm_compute. reflexivity.
Qed.

Lemma C5_collision_of_created_claim_witness :
  snd (@Handle plain driver yaml (codec db) client {| strict := true |}
         (objects [] [logs; data] [db]) request) = NilError /\
  snd (@Handle plain driver yaml (codec db) client {| strict := false |}
         (objects [] [logs; data] [db]) request) = Allowed "Unable to init a PVC".
Proof.
  assert (forall a,
             exists cl1 volumes1 pod1 sc pvc earlier,
               @attachVolumes plain driver client a (objects [] [logs; data] [db]) ∅ db [logs]
               = Next cl1 volumes1 pod1 /\
               @selects plain data pod1 /\
               GetStorageClass cl1 (dcStorageClassName data) = Found sc /\
               @NewPVC plain driver data (scProvisioner sc) = Ok pvc /\
               snd (CreatePersistentVolumeClaim cl1 pvc) = Created /\
               volumes1 !! earlier
               = Some (@RenderMountPoint plain (dcMountPointPattern data) (Name (pvcMeta pvc)) 0))
    as Hpass.
  { intros a. do 5 eexists. exists "ebs.csi.aws.com-logs-default".
    split; [reflexivity |]. split; [split; vm_compute; reflexivity |].
    split; [reflexivity |]. split; [reflexivity |].
    split; vm_compute; reflexivity. }
  split.
  - destruct (Hpass {| strict := true |})
      as (cl1 & volumes1 & pod1 & sc & pvc & earlier & Hbefore & Hsel & Hsc & Hstub & Hcreate & Hmp).
    exact (f_equal snd
             (@C5_collision_of_created_claim plain driver yaml (codec db) client
                {| strict := true |} (objects [] [logs; data] [db]) request db [logs] data []
                cl1 volumes1 pod1 sc pvc earlier eq_refl
                ltac:(vm_compute; reflexivity) Hbefore Hsel Hsc Hstub Hcreate Hmp)).
  - destruct (Hpass {| strict := false |})
      as (cl1 & volumes1 & pod1 & sc & pvc & earlier & Hbefore & Hsel & Hsc & Hstub & Hcreate & Hmp).
    exact (f_equal snd
             (@C5_collision_of_created_claim plain driver yaml (codec db) client
                {| strict := false |} (objects [] [logs; data] [db]) request db [logs] data []
                cl1 volumes1 pod1 sc pvc earlier eq_refl
                ltac:(vm_compute; reflexivity) Hbefore Hsel Hsc Hstub Hcreate Hmp)).
Defined.


Lemma C8_request_below_capacity_witness :
  (monitorSample (store 12) cfg db (sampleLine mountpoint 300)
   = (fst (UpdatePersistentVolumeClaim (store 12) (setStorageRequest (volume 12) (10 * Gi))),
      UpdatingPVC vol (setStorageRequest (volume 12) (10 * Gi))
        (snd (UpdatePersistentVolumeClaim (store 12)
                (setStorageRequest (volume 12) (10 * Gi))))) /\
   pvcRequests (setStorageRequest (volume 12) (10 * Gi)) !! ResourceStorage = Some (10 * Gi) /\
   pvcCapacity (setStorageRequest (volume 12) (10 * Gi)) = pvcCapacity (volume 12) /\
   Storage (pvcRequests (setStorageRequest (volume 12) (10 * Gi)))
   < Storage (pvcCapacity (setStorageRequest (volume 12) (10 * Gi)))) /\
  lineRead (store 12) (cycle 12 300) (keyOf (podMeta db)) "cfg" (sampleLine mountpoint 300).
Proof.
  split.
  - apply (proj1 (@C8_request_below_capacity utils resource client) (store 12) cfg db
             (sampleLine mountpoint 300) vol (volume 12) (float64_of_Z 300) (10 * Gi)).
    + vm_compute. reflexivity.
    + vm_compute. reflexivity.
    + vm_compute. reflexivity.
  - refine (proj2 (proj2 (proj2 (@C8_request_below_capacity utils resource client)))
              (store 12) [(keyOf (podMeta db), ["cfg"])]
              {[ keyOf (podMeta db) := [sampleLine mountpoint 300] ]}
              (keyOf (podMeta db)) ["cfg"] "cfg" (sampleLine mountpoint 300) _ _ _ _ _).
    + vm_compute. discriminate.
    + vm_compute. reflexivity.
    + vm_compute. left. reflexivity.
    + vm_compute. left. reflexivity.
    + vm_compute. left. reflexivity.
Defined.

Lemma C9_monitor_misses_attached_volume_witness :
  let mounted := RenderMountPoint (dcMountPointPattern cfg) claimName 0 in
  monitorSample (store 5) cfg (pod "db-0" claimName mounted) (sampleLine mounted 300)
  = (store 5, OtherMountpoint) \/
  monitorSample (store 5) cfg (pod "db-0" claimName mounted) (sampleLine mounted 300)
  = (store 5, FailedToFindMountpoint).
Proof.
  apply (proj1 (proj2 (proj2 (@C9_monitor_misses_attached_volume utils resource driver client))
                  cfg claimName
                  ltac:(vm_compute; discriminate))
           (store 5)
           (pod "db-0" claimName (RenderMountPoint (dcMountPointPattern cfg) claimName 0))
           (sampleLine (RenderMountPoint (dcMountPointPattern cfg) claimName 0) 300)
           {[ "node_filesystem_avail_bytes" :=
                [[ {| lpName := "mountpoint";
                      lpValue := RenderMountPoint (dcMountPointPattern cfg) claimName 0 |} ]] ]}
           [[ {| lpName := "mountpoint";
                 lpValue := RenderMountPoint (dcMountPointPattern cfg) claimName 0 |} ]]).
  - vm_compute. reflexivity.
  - vm_compute. reflexivity.
  - vm_compute. reflexivity.
Defined.

(** ** The further properties, on the small cluster *)

(** The scrape of [db-0]: one name, one line out of the four of the
    body. *)
Example scrape_db :
  let sc := @scrapeEndpoints client (network (served "10.0.0.7") 300) (served "10.0.0.7") in
  scDiscoblocks sc !! keyOf (podMeta db) = Some ["cfg"] /\
  scMetrics sc !! keyOf (podMeta db) = Some [sampleLine mountpoint 300] /\
  scPanicked sc = false.
Proof. vm_compute. repeat split. Qed.

(** An address without a target ends the cycle. *)
Example cycle_nil_target :
  match @MonitorVolumesCycle utils resource client
          (network [endpointsOf "cfg" [ {| IP := "10.0.0.7"; TargetRef := None |} ]] 300)
          (store 5) with
  | NilTargetRef => True
  | _ => False
  end.
Proof. vm_compute. exact I. Qed.

Lemma MonitorVolumes_dies_on_last_witness :
  ([] : list MonitorEvent) = [] /\
  inRange [] /\
  msPanicked
    (@MonitorVolumes utils resource client (objects [volume 5] [cfg] [bare])
       [(keyOf (podMeta bare), ["cfg"])]
       {[ keyOf (podMeta bare) := [sampleLine mountpoint 300; sampleLine mountpoint 200] ]})
  = true.
Proof.
  apply (@MonitorVolumes_dies_on_last utils resource client
           (objects [volume 5] [cfg] [bare])
           [(keyOf (podMeta bare), ["cfg"])]
           {[ keyOf (podMeta bare) := [sampleLine mountpoint 300; sampleLine mountpoint 200] ]}
           [] (keyOf (podMeta bare)) cfg (sampleLine mountpoint 300) []).
  vm_compute. reflexivity.
Defined.

Lemma scrape_discoblocks_witness :
  scDiscoblocks (@scrapeEndpoints client (network (served "10.0.0.7") 300) (served "10.0.0.7"))
    !! keyOf (podMeta db)
  = appended (advertised (keyOf (podMeta db)) (addressesOf (served "10.0.0.7"))).
Proof.
  apply (@scrape_discoblocks client (network (served "10.0.0.7") 300)).
  vm_compute. reflexivity.
Defined.

Lemma scrape_metrics_witness :
  scMetrics (@scrapeEndpoints client (network (served "10.0.0.7") 300) (served "10.0.0.7"))
    !! keyOf (podMeta db)
  = appended (@scraped client (network (served "10.0.0.7") 300)
                (keyOf (podMeta db)) (addressesOf (served "10.0.0.7"))) /\
  (forall line,
      In line (@scraped client (network (served "10.0.0.7") 300)
                 (keyOf (podMeta db)) (addressesOf (served "10.0.0.7"))) ->
      HasPrefix line "#" = false /\ Contains line metricName = true).
Proof.
  apply (@scrape_metrics client (network (served "10.0.0.7") 300)).
  vm_compute. reflexivity.
Defined.

Lemma MonitorVolumesCycle_samples_witness :
  Pause (dcPolicy cfg) = false /\
  In (sampleLine mountpoint 300)
     (@scraped client (network (served "10.0.0.7") 300)
        (keyOf (podMeta db)) (addressesOf (served "10.0.0.7"))) /\
  HasPrefix (sampleLine mountpoint 300) "#" = false /\
  Contains (sampleLine mountpoint 300) metricName = true /\
  advertised (keyOf (podMeta db)) (addressesOf (served "10.0.0.7")) <> [].
Proof.
  apply (@MonitorVolumesCycle_samples utils resource client
           (network (served "10.0.0.7") 300) (store 5) (served "10.0.0.7")
           (@MonitorVolumes utils resource client (store 5)
              (map_to_list
                 (scDiscoblocks
                    (@scrapeEndpoints client (network (served "10.0.0.7") 300)
                       (served "10.0.0.7"))))
              (scMetrics
                 (@scrapeEndpoints client (network (served "10.0.0.7") 300)
                    (served "10.0.0.7"))))
           (keyOf (podMeta db)) cfg (sampleLine mountpoint 300)
           (UpdatingPVC vol (grown (volume 5) (10 * Gi)) None)).
  - reflexivity.
  - unfold MonitorVolumesCycle.
    change (@ListEndpoints client (network (served "10.0.0.7") 300) (store 5))
      with (@Ok (list Endpoints) (served "10.0.0.7")).
    cbv iota beta zeta.
    assert (scPanicked (@scrapeEndpoints client (network (served "10.0.0.7") 300)
                          (served "10.0.0.7")) = false) as -> by (vm_compute; reflexivity).
    reflexivity.
  - vm_compute. left. reflexivity.
Defined.

Lemma MonitorVolumesCycle_no_lines_witness :
  let st :=
    @MonitorVolumes utils resource client (store 5)
      (map_to_list
         (scDiscoblocks
            (@scrapeEndpoints client (network (served "10.0.0.9") 300) (served "10.0.0.9"))))
      (scMetrics
         (@scrapeEndpoints client (network (served "10.0.0.9") 300) (served "10.0.0.9"))) in
  msTrace st = [MetricsDataNotFound] /\ msCluster st = store 5 /\ msPanicked st = false.
Proof.
  apply (@MonitorVolumesCycle_no_lines utils resource client
           (network (served "10.0.0.9") 300) (store 5) (served "10.0.0.9")).
  - reflexivity.
  - intros endpoint ip [Heq | []]. injection Heq as <- <-. reflexivity.
  - unfold MonitorVolumesCycle.
    change (@ListEndpoints client (network (served "10.0.0.9") 300) (store 5))
      with (@Ok (list Endpoints) (served "10.0.0.9")).
    cbv iota beta zeta.
    assert (scPanicked (@scrapeEndpoints client (network (served "10.0.0.9") 300)
                          (served "10.0.0.9")) = false) as -> by (vm_compute; reflexivity).
    reflexivity.
Defined.

Lemma Handle_not_selected_witness :
  @Handle utils driver yaml (codec stranger) client {| strict := true |} (store 5) request
  = (store 5, Allowed "No sidecar injection").
Proof.
  apply (@Handle_not_selected utils driver yaml (codec stranger) client {| strict := true |}
           (store 5) request stranger [cfg]).
  - reflexivity.
  - vm_compute. reflexivity.
  - constructor; [| constructor]. intros [_ Hsel]. vm_compute in Hsel. discriminate Hsel.
Defined.

Lemma attachVolumes_assigned_witness :
  exists cl' volumes pod',
    @attachVolumes utils driver client {| strict := true |} (store 5) ∅ db [cfg]
    = Next cl' volumes pod' /\
    distinctMountPoints volumes /\
    attached volumes pod' /\
    podContainers pod' = podContainers db /\
    Name (podMeta pod') = Name (podMeta db) /\
    Namespace (podMeta pod') = Namespace (podMeta db) /\
    (forall v, In v (podVolumes db) -> In v (podVolumes pod')).
Proof.
  eassert (@attachVolumes utils driver client {| strict := true |} (store 5) ∅ db [cfg]
           = Next _ _ _) as Hloop by reflexivity.
  eexists _, _, _. split; [exact Hloop |].
  exact (@attachVolumes_assigned utils driver client {| strict := true |} (store 5) db [cfg]
           _ _ _ Hloop).
Defined.

Lemma Handle_patch_witness :
  "db-0" = arRaw request /\
  exists pod diskConfigs (volumes : gmap string string) pod' metricsSideCar patched,
    @Decode (codec db) request = Ok pod /\
    ListDiskConfigs (store 5) (Namespace (podMeta pod)) = Ok diskConfigs /\
    attachVolumes {| strict := true |} (store 5) ∅ pod diskConfigs
    = Next (fst (@Handle utils driver yaml (codec db) client {| strict := true |} (store 5)
                   request))
        volumes pod' /\
    RenderMetricsSidecar false = Ok metricsSideCar /\
    patched = attachSidecar pod' metricsSideCar volumes /\
    @MarshalPod (codec db) patched = Ok "db-0" /\
    volumes <> ∅ /\
    podSchedulerName patched = "discoblocks-scheduler" /\
    (exists config,
        In config diskConfigs /\
        label (podMeta patched) "discoblocks/metrics" = Name (dcMeta config)) /\
    List.map cName (podContainers patched)
    = List.map cName (podContainers pod ++ [metricsSideCar]) /\
    (forall claimName mountpoint,
        volumes !! claimName = Some mountpoint ->
        In {| vName := claimName; vClaimName := claimName |} (podVolumes patched) /\
        forall c,
          In c (podContainers patched) ->
          In {| vmName := claimName; vmMountPath := mountpoint; vmReadOnly := false |}
             (cVolumeMounts c)).
Proof.
  apply (@Handle_patch utils driver yaml (codec db) client {| strict := true |} (store 5)
           request
           (fst (@Handle utils driver yaml (codec db) client {| strict := true |} (store 5)
                   request))
           "db-0" "db-0").
  vm_compute. reflexivity.
Defined.

Lemma NewPVC_managed_witness :
  exists pvc,
    NewPVC cfg "ebs.csi.aws.com" = Ok pvc /\
    ContainsFinalizer (pvcMeta pvc) (RenderFinalizer (Name (dcMeta cfg))) = true /\
    label (pvcMeta pvc) "discoblocks" = Name (dcMeta cfg) /\
    pvcEventFilter.Create {| ceObject := ObjPersistentVolumeClaim pvc |} = true /\
    pvcRequests pvc !! ResourceStorage = Some (dcCapacity cfg) /\
    pvcAccessModes pvc
    = match dcAccessModes cfg with
      | [] => [ReadWriteOnce]
      | _ :: _ => dcAccessModes cfg
      end.
Proof.
  destruct (@NewPVC utils driver cfg "ebs.csi.aws.com") as [pvc | e] eqn:Hpvc;
    [| vm_compute in Hpvc; discriminate Hpvc].
  exists pvc. split; [reflexivity |].
  exact (@NewPVC_managed utils driver cfg "ebs.csi.aws.com" pvc Hpvc).
Defined.

(** The storage class check of the EBS driver, on three documents. *)
Example storage_class_valid :
  @IsStorageClassValid (fastjson (Some "WaitForFirstConsumer") (Some true))
    (fun _ => "{}") ebs.noOutput
  = {| ebs.Stdout := "true"; ebs.Stderr := "" |}.
Proof. vm_compute. reflexivity. Qed.

Example storage_class_immediate :
  @IsStorageClassValid (fastjson (Some "Immediate") (Some true)) (fun _ => "{}") ebs.noOutput
  = {| ebs.Stdout := "false";
       ebs.Stderr := "only volumeBindingMode WaitForFirstConsumer is supported" |}.
Proof. vm_compute. reflexivity. Qed.

Example storage_class_fixed_size :
  @IsStorageClassValid (fastjson (Some "WaitForFirstConsumer") None) (fun _ => "{}")
    ebs.noOutput
  = {| ebs.Stdout := "false"; ebs.Stderr := "only allowVolumeExpansion true is supported" |}.
Proof. vm_compute. reflexivity. Qed.

(** The node a daemon set pins its pod to. *)
Example target_node :
  GetTargetNodeByAffinity
    (Some {| affNodeAffinity :=
               Some {| RequiredDuringSchedulingIgnoredDuringExecution :=
                         Some {| NodeSelectorTerms :=
                                   [ {| MatchFields :=
                                          [ {| nsrKey := "metadata.name";
                                               nsrOperator := "NotIn";
                                               nsrValues := ["node-0"] |};
                                            {| nsrKey := "metadata.name";
                                               nsrOperator := "In";
                                               nsrValues := ["node-1"; "node-2"] |} ] |} ]
                              |} |} |})
  = "node-1".
Proof. reflexivity. Qed.

End Runs.
